(** * PayPal MCP server: framed stdio transport and request dispatcher

    A shallow embedding of [src/mcp/transport.py] (class [StdioTransport]),
    [src/mcp/server.py] (classes [McpServer] and [PayPalMcpServer]), the tool
    catalog of [src/tools/definitions.py] and the handler path of
    [src/api/client.py], together with the parts of the Python runtime these
    call: [str] and [bytes], the UTF-8 codec with [errors='replace'],
    [re.search] for the one pattern the transport uses, [int], [json.dumps]
    and [json.loads].

    Conventions.  A Python [str] is a list of code points and a [bytes]
    object a list of byte values, both over [Z].  A [dict] is an association
    list in insertion order.  Interpreter resource limits (recursion depth,
    the configurable digit limit of [int], memory) are not modelled. *)

From Stdlib Require Import List ZArith Lia Bool String Ascii.
Import ListNotations.
Open Scope Z_scope.
Set Warnings "-register-all".

(** ** Python strings, integers and dictionaries *)

Module Py.

Definition str := list Z.
Definition bytes := list Z.

(** An ASCII literal of the source as a [str]. *)
Fixpoint lit (s : string) : str :=
  match s with
  | EmptyString => []
  | String a r => Z.of_N (N_of_ascii a) :: lit r
  end.

Fixpoint str_eqb (a b : str) : bool :=
  match a, b with
  | [], [] => true
  | x :: a', y :: b' => (x =? y) && str_eqb a' b'
  | _, _ => false
  end.

(** [s.startswith(p)], returning what follows the prefix. *)
Fixpoint strip_prefix (p s : str) : option str :=
  match p with
  | [] => Some s
  | x :: p' =>
      match s with
      | [] => None
      | y :: s' => if x =? y then strip_prefix p' s' else None
      end
  end.

(** [len(s)] *)
Definition len {A} (s : list A) : Z := Z.of_nat (List.length s).

(** [s[i:j]] for [0 <= i], [0 <= j]. *)
Definition slice {A} (s : list A) (i j : Z) : list A :=
  firstn (Z.to_nat (j - i)) (skipn (Z.to_nat i) s).

(** [s[i:]] for [0 <= i]. *)
Definition slice_from {A} (s : list A) (i : Z) : list A :=
  skipn (Z.to_nat i) s.

(** First code points of the blocks of ten consecutive characters of
    category Nd (decimal digit) in the Unicode database of CPython 3.11;
    the k-th character of a block has digit value k.  These are the
    characters matched by [\d] in a [str] pattern and accepted by [int]. *)
Definition decimal_block_starts : list Z :=
  [ 0x30; 0x660; 0x6f0; 0x7c0; 0x966; 0x9e6; 0xa66; 0xae6; 0xb66; 0xbe6;
    0xc66; 0xce6; 0xd66; 0xde6; 0xe50; 0xed0; 0xf20; 0x1040; 0x1090; 0x17e0;
    0x1810; 0x1946; 0x19d0; 0x1a80; 0x1a90; 0x1b50; 0x1bb0; 0x1c40; 0x1c50;
    0xa620; 0xa8d0; 0xa900; 0xa9d0; 0xa9f0; 0xaa50; 0xabf0; 0xff10; 0x104a0;
    0x10d30; 0x11066; 0x110f0; 0x11136; 0x111d0; 0x112f0; 0x11450; 0x114d0;
    0x11650; 0x116c0; 0x11730; 0x118e0; 0x11950; 0x11c50; 0x11d50; 0x11da0;
    0x16a60; 0x16ac0; 0x16b50;
    0x1d7ce; 0x1d7d8; 0x1d7e2; 0x1d7ec; 0x1d7f6;
    0x1e140; 0x1e2f0; 0x1e950; 0x1fbf0 ].

Fixpoint decimal_in (blocks : list Z) (c : Z) : option Z :=
  match blocks with
  | [] => None
  | b :: rest =>
      if (b <=? c) && (c <? b + 10) then Some (c - b) else decimal_in rest c
  end.

(** [unicodedata.decimal(c)], when it is defined. *)
Definition decimal (c : Z) : option Z := decimal_in decimal_block_starts c.

Definition isdecimal (c : Z) : bool :=
  match decimal c with Some _ => true | None => false end.

(** [int(s)] for a non-empty [s] of decimal digits, most significant first. *)
Fixpoint int_acc (acc : Z) (s : str) : Z :=
  match s with
  | [] => acc
  | c :: r =>
      int_acc (10 * acc + match decimal c with Some d => d | None => 0 end) r
  end.

Definition int (s : str) : Z := int_acc 0 s.

(** [str(n)] for [0 <= n]: the decimal digits, by repeated division. *)
Fixpoint digits_fuel (fuel : nat) (n : Z) (acc : str) : str :=
  match fuel with
  | O => acc
  | S f =>
      let acc' := (48 + n mod 10) :: acc in
      if n <? 10 then acc' else digits_fuel f (n / 10) acc'
  end.

Definition digits (n : Z) : str := digits_fuel (S (Z.to_nat n)) n [].

(** [str(n)] for an integer [n]. *)
Definition str_of_int (n : Z) : str :=
  if n <? 0 then 45 :: digits (- n) else digits n.

(** *** UTF-8 *)

Definition REPLACEMENT : Z := 0xFFFD.

Definition is_cont (b : Z) : bool := (0x80 <=? b) && (b <=? 0xBF).

Definition is_surrogate (c : Z) : bool := (0xD800 <=? c) && (c <=? 0xDFFF).

(** The second byte of a three-byte sequence led by [b0] is acceptable. *)
Definition second3_ok (b0 b1 : Z) : bool :=
  is_cont b1 && negb (if b1 <? 0xA0 then b0 =? 0xE0 else b0 =? 0xED).

(** The second byte of a four-byte sequence led by [b0] is acceptable. *)
Definition second4_ok (b0 b1 : Z) : bool :=
  is_cont b1 && negb (if b1 <? 0x90 then b0 =? 0xF0 else b0 =? 0xF4).

(** [b.decode('utf-8', errors='replace')]: CPython's decoder, which
    replaces an invalid start byte by one U+FFFD, an invalid continuation by
    one U+FFFD for the bytes before it, and a sequence cut short by the end
    of the input by one U+FFFD for what is left. *)
Fixpoint decode_replace (b : bytes) : str :=
  match b with
  | [] => []
  | b0 :: t0 =>
      if b0 <? 0x80 then b0 :: decode_replace t0
      else if b0 <? 0xC2 then REPLACEMENT :: decode_replace t0
      else if b0 <? 0xE0 then
        match t0 with
        | [] => [REPLACEMENT]
        | b1 :: t1 =>
            if is_cont b1
            then ((b0 - 0xC0) * 64 + (b1 - 0x80)) :: decode_replace t1
            else REPLACEMENT :: decode_replace t0
        end
      else if b0 <? 0xF0 then
        match t0 with
        | [] => [REPLACEMENT]
        | b1 :: t1 =>
            if second3_ok b0 b1 then
              match t1 with
              | [] => [REPLACEMENT]
              | b2 :: t2 =>
                  if is_cont b2
                  then ((b0 - 0xE0) * 4096 + (b1 - 0x80) * 64 + (b2 - 0x80))
                         :: decode_replace t2
                  else REPLACEMENT :: decode_replace t1
              end
            else REPLACEMENT :: decode_replace t0
        end
      else if b0 <? 0xF5 then
        match t0 with
        | [] => [REPLACEMENT]
        | b1 :: t1 =>
            if second4_ok b0 b1 then
              match t1 with
              | [] => [REPLACEMENT]
              | b2 :: t2 =>
                  if is_cont b2 then
                    match t2 with
                    | [] => [REPLACEMENT]
                    | b3 :: t3 =>
                        if is_cont b3
                        then ((b0 - 0xF0) * 262144 + (b1 - 0x80) * 4096
                              + (b2 - 0x80) * 64 + (b3 - 0x80))
                               :: decode_replace t3
                        else REPLACEMENT :: decode_replace t2
                    end
                  else REPLACEMENT :: decode_replace t1
              end
            else REPLACEMENT :: decode_replace t0
        end
      else REPLACEMENT :: decode_replace t0
  end.

(** The UTF-8 bytes of one code point; [None] for a surrogate or a value
    outside the code space, which [str.encode] refuses. *)
Definition encode_char (c : Z) : option bytes :=
  if c <? 0 then None
  else if c <? 0x80 then Some [c]
  else if c <? 0x800 then Some [0xC0 + c / 64; 0x80 + c mod 64]
  else if c <? 0x10000 then
    if is_surrogate c then None
    else Some [0xE0 + c / 4096; 0x80 + (c / 64) mod 64; 0x80 + c mod 64]
  else if c <? 0x110000 then
    Some [0xF0 + c / 262144; 0x80 + (c / 4096) mod 64;
          0x80 + (c / 64) mod 64; 0x80 + c mod 64]
  else None.

(** [s.encode('utf-8')]; [None] stands for [UnicodeEncodeError]. *)
Fixpoint encode (s : str) : option bytes :=
  match s with
  | [] => Some []
  | c :: r =>
      match encode_char c, encode r with
      | Some b, Some br => Some (b ++ br)
      | _, _ => None
      end
  end.

(** *** Dictionaries: association lists in insertion order *)

Definition dict (V : Type) := list (str * V).

Fixpoint get {V} (d : dict V) (k : str) : option V :=
  match d with
  | [] => None
  | (k', v) :: r => if str_eqb k' k then Some v else get r k
  end.

(** [k in d] *)
Definition contains {V} (d : dict V) (k : str) : bool :=
  match get d k with Some _ => true | None => false end.

(** [d[k] = v]: replaces the value of an existing key in place, appends a
    new key at the end. *)
Fixpoint set {V} (d : dict V) (k : str) (v : V) : dict V :=
  match d with
  | [] => [(k, v)]
  | (k', v') :: r =>
      if str_eqb k' k then (k', v) :: r else (k', v') :: set r k v
  end.

(** [list(d.keys())] *)
Definition keys {V} (d : dict V) : list str := map fst d.

(** [dict(pairs)] *)
Definition of_pairs {V} (l : list (str * V)) : dict V :=
  fold_left (fun d kv => set d (fst kv) (snd kv)) l [].

End Py.

(** ** The [json] module *)

Module Json.
Import Py.

(** Values exchanged with [json.dumps] and [json.loads].  A float is carried
    by a literal that denotes it; its arithmetic is not modelled. *)
Inductive json : Type :=
| JNull
| JBool (b : bool)
| JInt (n : Z)
| JFloat (literal : str)
| JStr (s : str)
| JList (items : list json)
| JObj (members : list (str * json)).

(** Python's [None]. *)
Definition None_ : json := JNull.

Definition hex_digit (d : Z) : Z := if d <? 10 then 48 + d else 87 + d.

(** ['{0:04x}'.format(n)] for [0 <= n < 0x10000]. *)
Definition hex4 (n : Z) : str :=
  [hex_digit (n / 4096); hex_digit ((n / 256) mod 16);
   hex_digit ((n / 16) mod 16); hex_digit (n mod 16)].

Definition u_escape (n : Z) : str := 92 :: 117 :: hex4 n.

(** The replacement of one character by [encode_basestring_ascii]. *)
Definition escape_char (c : Z) : str :=
  if c =? 34 then [92; 34]
  else if c =? 92 then [92; 92]
  else if c =? 8 then [92; 98]
  else if c =? 12 then [92; 102]
  else if c =? 10 then [92; 110]
  else if c =? 13 then [92; 114]
  else if c =? 9 then [92; 116]
  else if (32 <=? c) && (c <=? 126) then [c]
  else if c <? 0x10000 then u_escape c
  else
    let n := c - 0x10000 in
    u_escape (0xD800 + (n / 1024) mod 1024) ++ u_escape (0xDC00 + n mod 1024).

(** [encode_basestring_ascii(s)] *)
Definition encode_basestring_ascii (s : str) : str :=
  34 :: flat_map escape_char s ++ [34].

(** [', '.join(parts)] *)
Fixpoint join_comma (parts : list str) : str :=
  match parts with
  | [] => []
  | [p] => p
  | p :: rest => p ++ 44 :: 32 :: join_comma rest
  end.

(** [json.dumps(v)] with the default options: ASCII only, [', '] between
    items and [': '] after a key. *)
Fixpoint dumps (v : json) : str :=
  match v with
  | JNull => lit "null"
  | JBool true => lit "true"
  | JBool false => lit "false"
  | JInt n => str_of_int n
  | JFloat l => l
  | JStr s => encode_basestring_ascii s
  | JList items => 91 :: join_comma (map dumps items) ++ [93]
  | JObj members =>
      123 :: join_comma
               (map (fun kv => encode_basestring_ascii (fst kv)
                               ++ 58 :: 32 :: dumps (snd kv)) members)
          ++ [125]
  end.

(** *** Decoding *)

Definition is_ws (c : Z) : bool :=
  (c =? 32) || (c =? 9) || (c =? 10) || (c =? 13).

Fixpoint skip_ws (s : str) : str :=
  match s with
  | c :: r => if is_ws c then skip_ws r else s
  | [] => []
  end.

Definition hex_value (c : Z) : option Z :=
  if (48 <=? c) && (c <=? 57) then Some (c - 48)
  else if (97 <=? c) && (c <=? 102) then Some (c - 87)
  else if (65 <=? c) && (c <=? 70) then Some (c - 55)
  else None.

Definition unhex4 (h1 h2 h3 h4 : Z) : option Z :=
  match hex_value h1, hex_value h2, hex_value h3, hex_value h4 with
  | Some a, Some b, Some c, Some d => Some (a * 4096 + b * 256 + c * 16 + d)
  | _, _, _, _ => None
  end.

Definition is_high_surrogate (c : Z) : bool := (0xD800 <=? c) && (c <=? 0xDBFF).
Definition is_low_surrogate (c : Z) : bool := (0xDC00 <=? c) && (c <=? 0xDFFF).

Definition join_surrogates (hi lo : Z) : Z :=
  0x10000 + (hi - 0xD800) * 1024 + (lo - 0xDC00).

(** The character named by a one-letter escape. *)
Definition backslash (e : Z) : option Z :=
  if e =? 34 then Some 34
  else if e =? 92 then Some 92
  else if e =? 47 then Some 47
  else if e =? 98 then Some 8
  else if e =? 102 then Some 12
  else if e =? 110 then Some 10
  else if e =? 114 then Some 13
  else if e =? 116 then Some 9
  else None.

(** [scanstring(s, end, strict=True)] on the text after the opening quote:
    the decoded string and what follows the closing quote. *)
Fixpoint scanstring (s : str) : option (str * str) :=
  let emit c r :=
    match scanstring r with
    | Some (t, rest) => Some (c :: t, rest)
    | None => None
    end in
  match s with
  | [] => None
  | c :: r =>
      if c =? 34 then Some ([], r)
      else if c =? 92 then
        match r with
        | [] => None
        | e :: r1 =>
            if e =? 117 then
              match r1 with
              | h1 :: h2 :: h3 :: h4 :: r2 =>
                  match r2 with
                  | [] => None
                  | x1 :: r3 =>
                      match unhex4 h1 h2 h3 h4 with
                      | None => None
                      | Some c1 =>
                          if is_high_surrogate c1
                             && (6 <? len r2) && (x1 =? 92)
                          then
                            match r3 with
                            | x2 :: g1 :: g2 :: g3 :: g4 :: r4 =>
                                if x2 =? 117 then
                                  match unhex4 g1 g2 g3 g4 with
                                  | None => None
                                  | Some c2 =>
                                      if is_low_surrogate c2
                                      then emit (join_surrogates c1 c2) r4
                                      else emit c1 r2
                                  end
                                else emit c1 r2
                            | _ => emit c1 r2
                            end
                          else emit c1 r2
                      end
                  end
              | _ => None
              end
            else
              match backslash e with
              | Some d => emit d r1
              | None => None
              end
        end
      else if c <=? 31 then None
      else emit c r
  end.

Definition is_ascii_digit (c : Z) : bool := (48 <=? c) && (c <=? 57).

(** The longest prefix of ASCII digits and what follows it. *)
Fixpoint span_digits (s : str) : str * str :=
  match s with
  | c :: r =>
      if is_ascii_digit c
      then let (d, rest) := span_digits r in (c :: d, rest)
      else ([], s)
  | [] => ([], [])
  end.

(** The integer part of a number: [0] or a non-zero digit and more digits. *)
Definition match_int_part (s : str) : option (str * str) :=
  match s with
  | c :: r =>
      if (49 <=? c) && (c <=? 57)
      then let (d, rest) := span_digits r in Some (c :: d, rest)
      else if c =? 48 then Some ([c], r)
      else None
  | [] => None
  end.

(** The optional fraction: a point and at least one digit. *)
Definition match_frac (s : str) : str * str :=
  match s with
  | c :: r =>
      if c =? 46 then
        match span_digits r with
        | ([], _) => ([], s)
        | (d, rest) => (c :: d, rest)
        end
      else ([], s)
  | [] => ([], s)
  end.

(** The optional exponent: [e] or [E], an optional sign, at least one digit. *)
Definition match_exp (s : str) : str * str :=
  match s with
  | c :: r =>
      if (c =? 101) || (c =? 69) then
        let (sign, r1) :=
          match r with
          | x :: r' => if (x =? 45) || (x =? 43) then ([x], r') else ([], r)
          | [] => ([], r)
          end in
        match span_digits r1 with
        | ([], _) => ([], s)
        | (d, rest) => (c :: sign ++ d, rest)
        end
      else ([], s)
  | [] => ([], s)
  end.

(** The number at the head of [s]: an [int] when it has neither fraction
    nor exponent, a float otherwise. *)
Definition match_number (s : str) : option (json * str) :=
  let (sign, s1) :=
    match s with
    | c :: r => if c =? 45 then ([c], r) else ([], s)
    | [] => ([], s)
    end in
  match match_int_part s1 with
  | None => None
  | Some (ip, r1) =>
      let (fp, r2) := match_frac r1 in
      let (ep, r3) := match_exp r2 in
      match fp, ep with
      | [], [] =>
          Some (JInt (match sign with [] => int ip | _ :: _ => - int ip end), r3)
      | _, _ => Some (JFloat (sign ++ ip ++ fp ++ ep), r3)
      end
  end.

(** Outcome of scanning one value: the value and the text after it, a
    decoding error, or not enough fuel for the nesting. *)
Inductive scan : Type :=
| Scanned (v : json) (rest : str)
| Failed
| OutOfFuel.

Definition of_option (o : option (json * str)) : scan :=
  match o with Some (v, rest) => Scanned v rest | None => Failed end.

(** [scan_once] with the object and array loops of the decoder. *)
Fixpoint scan_once (fuel : nat) (s : str) : scan :=
  match fuel with
  | O => OutOfFuel
  | S f =>
      match s with
      | [] => Failed
      | c :: r =>
          if c =? 34 then
            match scanstring r with
            | Some (t, rest) => Scanned (JStr t) rest
            | None => Failed
            end
          else if c =? 123 then
            match skip_ws r with
            | [] => Failed
            | x :: r1 =>
                if x =? 125 then Scanned (JObj []) r1
                else parse_members f (x :: r1) []
            end
          else if c =? 91 then
            match skip_ws r with
            | [] => Failed
            | x :: r1 =>
                if x =? 93 then Scanned (JList []) r1
                else parse_items f (x :: r1) []
            end
          else if c =? 110 then
            match strip_prefix (lit "ull") r with
            | Some rest => Scanned JNull rest
            | None => Failed
            end
          else if c =? 116 then
            match strip_prefix (lit "rue") r with
            | Some rest => Scanned (JBool true) rest
            | None => Failed
            end
          else if c =? 102 then
            match strip_prefix (lit "alse") r with
            | Some rest => Scanned (JBool false) rest
            | None => Failed
            end
          else if c =? 78 then
            match strip_prefix (lit "aN") r with
            | Some rest => Scanned (JFloat (lit "NaN")) rest
            | None => Failed
            end
          else if c =? 73 then
            match strip_prefix (lit "nfinity") r with
            | Some rest => Scanned (JFloat (lit "Infinity")) rest
            | None => Failed
            end
          else
            match (if c =? 45 then strip_prefix (lit "Infinity") r else None)
            with
            | Some rest => Scanned (JFloat (lit "-Infinity")) rest
            | None => of_option (match_number s)
            end
      end
  end

with parse_members (fuel : nat) (s : str) (acc : list (str * json)) : scan :=
  match fuel with
  | O => OutOfFuel
  | S f =>
      match s with
      | [] => Failed
      | q :: r =>
          if q =? 34 then
            match scanstring r with
            | None => Failed
            | Some (key, r1) =>
                match skip_ws r1 with
                | [] => Failed
                | colon :: r2 =>
                    if colon =? 58 then
                      match scan_once f (skip_ws r2) with
                      | Scanned v r3 =>
                          match skip_ws r3 with
                          | [] => Failed
                          | x :: r4 =>
                              if x =? 125
                              then Scanned (JObj (of_pairs (acc ++ [(key, v)]))) r4
                              else if x =? 44
                              then parse_members f (skip_ws r4) (acc ++ [(key, v)])
                              else Failed
                          end
                      | other => other
                      end
                    else Failed
                end
            end
          else Failed
      end
  end

with parse_items (fuel : nat) (s : str) (acc : list json) : scan :=
  match fuel with
  | O => OutOfFuel
  | S f =>
      match scan_once f s with
      | Scanned v r1 =>
          match skip_ws r1 with
          | [] => Failed
          | x :: r2 =>
              if x =? 93 then Scanned (JList (acc ++ [v])) r2
              else if x =? 44 then parse_items f (skip_ws r2) (acc ++ [v])
              else Failed
          end
      | other => other
      end
  end.

(** [json.loads(s)] for a [str]; [None] stands for [JSONDecodeError].  The
    fuel is one unit per character and one more: as [ScanFacts.loads_fuel]
    shows, more fuel makes no difference. *)
Definition loads (s : str) : option json :=
  if match s with c :: _ => c =? 0xFEFF | [] => false end then None
  else
    match scan_once (S (List.length s)) (skip_ws s) with
    | Scanned v rest =>
        match skip_ws rest with
        | [] => Some v
        | _ :: _ => None
        end
    | _ => None
    end.

End Json.

(** ** Exceptions and completions *)

Module Exc.
Import Py.

(** The exceptions the modelled code raises or catches; all are subclasses
    of [Exception].  [str(e)] is [message e]. *)
Inductive Exception : Type :=
| JSONDecodeError
| UnicodeEncodeError
| RuntimeError (msg : str)
| TypeError (msg : str)
| AttributeError (msg : str)
| ValueError (msg : str)
| ValidationError (msg : str)
| OtherException (msg : str).

Definition message (e : Exception) : str :=
  match e with
  | JSONDecodeError => lit "JSONDecodeError"
  | UnicodeEncodeError => lit "UnicodeEncodeError"
  | RuntimeError m | TypeError m | AttributeError m | ValueError m
  | ValidationError m | OtherException m => m
  end.

Definition is_JSONDecodeError (e : Exception) : bool :=
  match e with JSONDecodeError => true | _ => false end.

(** How a call ends: it returns, it raises, or the fuel given to a
    recursive model ran out.  The state reached is kept in the first two. *)
Inductive completion (S : Type) : Type :=
| Normal (s : S)
| Raise (e : Exception) (s : S)
| NoFuel.

Arguments Normal {S} s.
Arguments Raise {S} e s.
Arguments NoFuel {S}.

Definition bind {S} (c : completion S) (k : S -> completion S) : completion S :=
  match c with
  | Normal s => k s
  | Raise e s => Raise e s
  | NoFuel => NoFuel
  end.

End Exc.

Declare Scope py_scope.
Notation "c >>= k" := (Exc.bind c k) (at level 50, left associativity) : py_scope.

(** ** [StdioTransport] *)

Module Transport.
Import Py Json Exc.
Open Scope py_scope.

(** The attributes of a [StdioTransport].  [_stdout] lists the byte strings
    written, one per [write] call, oldest first; the peer reads their
    concatenation.  [_closed] is the state of the [threading.Event]. *)
Record StdioTransport : Type := {
  _read_buffer : bytes;
  _started : bool;
  _closed : bool;
  _stdout : list bytes
}.

(** [StdioTransport(stdin, stdout)] *)
Definition init : StdioTransport :=
  {| _read_buffer := []; _started := false; _closed := false; _stdout := [] |}.

Definition with_read_buffer (t : StdioTransport) (b : bytes) : StdioTransport :=
  {| _read_buffer := b; _started := _started t; _closed := _closed t;
     _stdout := _stdout t |}.

Definition with_flags (t : StdioTransport) (started closed : bool) : StdioTransport :=
  {| _read_buffer := _read_buffer t; _started := started; _closed := closed;
     _stdout := _stdout t |}.

Definition write (t : StdioTransport) (b : bytes) : StdioTransport :=
  {| _read_buffer := _read_buffer t; _started := _started t;
     _closed := _closed t; _stdout := _stdout t ++ [b] |}.

Definition CRLFCRLF : str := [13; 10; 13; 10].

(** The frame [send] builds for a JSON text [content]. *)
Definition frame (content : str) : str :=
  lit "Content-Length: " ++ str_of_int (len content) ++ CRLFCRLF ++ content.

(** The longest prefix of decimal digits ([\d+] is greedy, and what follows
    it in the pattern is not a digit) and what follows it. *)
Fixpoint span_decimal (s : str) : str * str :=
  match s with
  | c :: r =>
      if isdecimal c
      then let (d, rest) := span_decimal r in (c :: d, rest)
      else ([], s)
  | [] => ([], [])
  end.

(** The pattern [Content-Length: (\d+)\r\n\r\n] at the head of [s]: group 1
    and what follows the match. *)
Definition match_here (s : str) : option (str * str) :=
  match strip_prefix (lit "Content-Length: ") s with
  | None => None
  | Some r =>
      match span_decimal r with
      | ([], _) => None
      | (d, r1) =>
          match strip_prefix CRLFCRLF r1 with
          | Some rest => Some (d, rest)
          | None => None
          end
      end
  end.

(** [re.search(r'Content-Length: (\d+)\r\n\r\n', s)], scanning from index
    [i]: the leftmost match, as its group 1 and its [end()]. *)
Fixpoint search_from (i : Z) (s : str) : option (str * Z) :=
  match match_here s with
  | Some (d, _) =>
      Some (d, i + len (lit "Content-Length: ") + len d + len CRLFCRLF)
  | None =>
      match s with
      | [] => None
      | _ :: r => search_from (i + 1) r
      end
  end.

Definition search (s : str) : option (str * Z) := search_from 0 s.

Section Reader.

(** What the callbacks act on besides the transport: the state of the
    object that registered them. *)
Variable W : Type.

Definition state : Type := StdioTransport * W.

Variable onmessage : option (json -> state -> completion state).
Variable onerror : option (Exception -> state -> completion state).
Variable onclose : option (state -> completion state).

Definition call_onerror (e : Exception) (st : state) : completion state :=
  match onerror with
  | Some f => f e st
  | None => Normal st
  end.

(** The [try] block of [_process_buffer]: decode the body and hand it to
    [onmessage]; a [JSONDecodeError], from [json.loads] or from the
    callback, goes to [onerror]. *)
Definition parse_and_dispatch (message_str : str) (st : state) : completion state :=
  match loads message_str with
  | None => call_onerror JSONDecodeError st
  | Some message =>
      match onmessage with
      | None => Normal st
      | Some f =>
          match f message st with
          | Raise e st' =>
              if is_JSONDecodeError e then call_onerror e st' else Raise e st'
          | other => other
          end
      end
  end.

(** The [while] loop of [_process_buffer] on the local [buffer_str]; the
    nested call of [_process_buffer] decodes [self._read_buffer] afresh and
    runs the loop on it, after which this loop goes on with its own
    [buffer_str]. *)
Fixpoint process_loop (fuel : nat) (buffer_str : str) (st : state) : completion state :=
  match fuel with
  | O => NoFuel
  | S f =>
      match search buffer_str with
      | None => Normal st
      | Some (group1, header_end) =>
          let content_length := int group1 in
          if len buffer_str <? header_end + content_length then Normal st
          else
            let message_str :=
              slice buffer_str header_end (header_end + content_length) in
            let buffer_start := header_end + content_length in
            let buffer_str' := slice_from buffer_str buffer_start in
            match encode buffer_str' with
            | None => Raise UnicodeEncodeError st
            | Some b =>
                parse_and_dispatch message_str (with_read_buffer (fst st) b, snd st)
                >>= (fun st1 =>
                       if 0 <? len (_read_buffer (fst st1))
                       then process_loop f (decode_replace (_read_buffer (fst st1))) st1
                       else Normal st1)
                >>= process_loop f buffer_str'
            end
      end
  end.

(** [_process_buffer()] run with [fuel]. *)
Definition process_buffer_fuel (fuel : nat) (st : state) : completion state :=
  process_loop fuel (decode_replace (_read_buffer (fst st))) st.

(** [_process_buffer()], with one unit of fuel per byte of the buffer and
    one more: as [ReaderFacts.process_buffer_total] shows, that is never
    used up when the callbacks leave [_read_buffer] alone. *)
Definition _process_buffer (st : state) : completion state :=
  process_buffer_fuel (S (List.length (_read_buffer (fst st)))) st.

(** [close()] *)
Definition close (st : state) : completion state :=
  if negb (_started (fst st)) then Normal st
  else
    let st' := (with_flags (fst st) false true, snd st) in
    match onclose with
    | Some f => f st'
    | None => Normal st'
    end.

(** One turn of the loop of [_read_loop] after [read] returned [chunk]: an
    empty chunk closes the transport and ends the loop ([false]); any
    exception of the turn goes to [onerror], or is logged. *)
Definition read_turn (chunk : bytes) (st : state) : completion state * bool :=
  let handled c :=
    match c with
    | Raise e s => call_onerror e s
    | other => other
    end in
  match chunk with
  | [] => (handled (close st), false)
  | _ :: _ =>
      (handled (_process_buffer
                  (with_read_buffer (fst st) (_read_buffer (fst st) ++ chunk),
                   snd st)),
       true)
  end.

(** [_read_loop()] over the chunks that successive [read] calls return; when
    [chunks] is used up the next [read] has not returned yet. *)
Fixpoint _read_loop (chunks : list bytes) (st : state) : completion state :=
  if _closed (fst st) then close st
  else
    match chunks with
    | [] => Normal st
    | chunk :: rest =>
        match read_turn chunk st with
        | (Normal st', true) => _read_loop rest st'
        | (Normal st', false) => close st'
        | (Raise e st', _) => close st' >>= Raise e
        | (NoFuel, _) => NoFuel
        end
    end.

End Reader.

(** [start()], without the reader thread it spawns. *)
Definition start (t : StdioTransport) : StdioTransport :=
  if _started t then t else with_flags t true false.

(** [send(message)] *)
Definition send (message : json) (t : StdioTransport) : completion StdioTransport :=
  if negb (_started t) then Raise (RuntimeError (lit "Transport not started")) t
  else
    let content := dumps message in
    let data := frame content in
    match encode data with
    | Some b => Normal (write t b)
    | None => Raise UnicodeEncodeError t
    end.

End Transport.

(** ** Parameter models (the pydantic interface the dispatcher uses) *)

Module Pydantic.
Import Py Json.

(** The outcome of building a model from the keyword arguments [params] and
    calling [model_dump()] on it: the dumped fields, or the text [str(e)] of
    the [ValidationError]. *)
Inductive validated : Type :=
| Model (dump : dict json)
| Invalid (description : str).

(** What the dispatcher needs of a parameter model class. *)
Class BaseModel (V : Type) : Type := {
  model_validate : V -> dict json -> validated
}.

(** Field annotations whose validation of JSON input is plain type
    membership: [str], [Optional[t]] and [List[t]]. *)
Inductive annotation : Type :=
| TStr
| TOptional (t : annotation)
| TList (t : annotation).

Fixpoint conforms (t : annotation) (v : json) : bool :=
  match t, v with
  | TStr, JStr _ => true
  | TOptional _, JNull => true
  | TOptional t', _ => conforms t' v
  | TList t', JList items => forallb (conforms t') items
  | _, _ => false
  end.

(** A field declared [name: annotation = Field(default, ...)]; the default
    [...] of a required field is [None] here. *)
Record Field : Type := {
  name : str;
  type_ : annotation;
  default : option json
}.

(** A model class with such fields, in declaration order. *)
Record FieldsModel : Type := {
  title : str;
  fields : list Field
}.

(** One entry of a [ValidationError]: the field and the message. *)
Definition error_line (loc msg : str) : str :=
  10 :: loc ++ 10 :: 32 :: 32 :: msg.

(** Validation of the fields in order: the dumped fields so far and the
    error entries so far.  Keys of [params] that are no field are ignored. *)
Fixpoint validate_fields (fs : list Field) (params : dict json)
  : dict json * list str :=
  match fs with
  | [] => ([], [])
  | f :: rest =>
      let (dump, errors) := validate_fields rest params in
      match get params (name f), default f with
      | Some v, _ =>
          if conforms (type_ f) v then ((name f, v) :: dump, errors)
          else (dump, error_line (name f) (lit "Input should be a valid value")
                        :: errors)
      | None, Some d => ((name f, d) :: dump, errors)
      | None, None =>
          (dump, error_line (name f) (lit "Field required") :: errors)
      end
  end.

(** [str(e)] of a [ValidationError] with the given entries: the count and
    the model, then field and message of each entry.  The bracketed details
    and the link pydantic appends to a message are left out. *)
Definition render (title : str) (errors : list str) : str :=
  str_of_int (len errors)
  ++ lit (if len errors =? 1 then " validation error for "
          else " validation errors for ")
  ++ title ++ List.concat errors.

#[export] Instance FieldsModel_BaseModel : BaseModel FieldsModel := {
  model_validate m params :=
    match validate_fields (fields m) params with
    | (dump, []) => Model dump
    | (_, errors) => Invalid (render (title m) errors)
    end
}.

End Pydantic.

(** ** [McpServer] *)

Module Server.
Import Py Json Exc Transport Pydantic.
Open Scope py_scope.

(** What a handler call does: it returns a value or raises. *)
Inductive HandlerResult : Type :=
| Returns (result : json)
| Raises (e : Exception).

Definition Handler : Type := json -> HandlerResult.

Section McpServer.

(** Descriptions, parameter schemas and validator models are stored and
    handed on, never inspected by the dispatcher. *)
Context {D S V : Type} `{BaseModel V}.

(** An entry of [_tools]. *)
Record ToolEntry : Type := {
  description : D;
  parameters : S
}.

(** The attributes of an [McpServer]; [_transport] tells whether a
    transport is connected, the transport itself being the first component
    of the state below. *)
Record McpServer : Type := {
  name : str;
  version : str;
  _transport : bool;
  _tools : dict ToolEntry;
  _handlers : dict Handler;
  _validator_models : dict V
}.

(** [McpServer(name, version)] *)
Definition init (name version : str) : McpServer :=
  {| name := name; version := version; _transport := false;
     _tools := []; _handlers := []; _validator_models := [] |}.

(** [tool(method, description, schema, handler, validator_model)] *)
Definition tool (self : McpServer) (method : str) (description : D)
    (schema : S) (handler : Handler) (validator_model : option V) : McpServer :=
  {| name := name self; version := version self;
     _transport := _transport self;
     _tools := set (_tools self) method
                 {| description := description; parameters := schema |};
     _handlers := set (_handlers self) method handler;
     _validator_models :=
       match validator_model with
       | Some v => set (_validator_models self) method v
       | None => _validator_models self
       end |}.

(** The dispatcher's side of the state: the server object and the handler
    calls made so far, as method and argument, oldest first. *)
Record World : Type := {
  server : McpServer;
  calls : list (str * json)
}.

Definition state : Type := Transport.state World.

Definition record_call (st : state) (method : str) (params : json) : state :=
  (fst st, {| server := server (snd st);
              calls := calls (snd st) ++ [(method, params)] |}).

(** [connect(transport)], the reader thread apart. *)
Definition connect (st : state) : state :=
  (start (fst st),
   {| server :=
        let s := server (snd st) in
        {| name := name s; version := version s; _transport := true;
           _tools := _tools s; _handlers := _handlers s;
           _validator_models := _validator_models s |};
      calls := calls (snd st) |}).

(** [self._transport.send(response)] *)
Definition transport_send (response : json) (st : state) : completion state :=
  if _transport (server (snd st)) then
    match send response (fst st) with
    | Normal t => Normal (t, snd st)
    | Raise e t => Raise e (t, snd st)
    | NoFuel => NoFuel
    end
  else Raise (AttributeError
                (lit "'NoneType' object has no attribute 'send'")) st.

(** [message.get(key, default)]; only a [dict] has [get]. *)
Definition message_get (message : json) (key : string) (default : json)
  : option json :=
  match message with
  | JObj members =>
      match get members (lit key) with
      | Some v => Some v
      | None => Some default
      end
  | _ => None
  end.

Definition no_get : Exception :=
  AttributeError (lit "object has no attribute 'get'").

(** The response dict [_send_error] builds; [data] is left out when it is
    [None]. *)
Definition error_response (request_id : json) (code : Z) (message : string)
    (data : option str) : json :=
  JObj [(lit "id", request_id);
        (lit "type", JStr (lit "response"));
        (lit "status", JStr (lit "error"));
        (lit "error",
         JObj ([(lit "code", JInt code); (lit "message", JStr (lit message))]
               ++ match data with
                  | Some d => [(lit "data", JStr d)]
                  | None => []
                  end))].

(** The response dict for a handler result. *)
Definition success_response (request_id result : json) : json :=
  JObj [(lit "id", request_id);
        (lit "type", JStr (lit "response"));
        (lit "status", JStr (lit "success"));
        (lit "result", result)].

(** The response dict for a ping. *)
Definition ping_response (self : McpServer) (id : json) : json :=
  success_response id
    (JObj [(lit "id", id);
           (lit "name", JStr (name self));
           (lit "version", JStr (version self));
           (lit "capabilities", JList (map JStr (keys (_tools self))))]).

(** [_send_error(request_id, code, message, data)] *)
Definition _send_error (request_id : json) (code : Z) (message : string)
    (data : option str) (st : state) : completion state :=
  transport_send (error_response request_id code message data) st.

(** [_respond_to_ping(message)] *)
Definition _respond_to_ping (message : json) (st : state) : completion state :=
  match message_get message "id" None_ with
  | None => Raise no_get st
  | Some id => transport_send (ping_response (server (snd st)) id) st
  end.

(** The outcome of [method in d] for a dictionary with [str] keys: a list
    or a dict is unhashable; any other value that is no [str] equals no key,
    and [shown] is what an f-string inserts for it (for a float its
    literal). *)
Inductive found (A : Type) : Type :=
| Unhashable
| Absent (shown : str)
| Present (m : str) (a : A).

Arguments Unhashable {A}.
Arguments Absent {A} shown.
Arguments Present {A} m a.

Definition lookup {A} (d : dict A) (method : json) : found A :=
  match method with
  | JStr m =>
      match get d m with
      | Some a => Present m a
      | None => Absent m
      end
  | JList _ | JObj _ => Unhashable
  | JNull => Absent (lit "None")
  | JBool true => Absent (lit "True")
  | JBool false => Absent (lit "False")
  | JInt n => Absent (str_of_int n)
  | JFloat l => Absent l
  end.

Definition unhashable : Exception := TypeError (lit "unhashable type").

(** The call of the handler and the response, the [try] block at the end
    of [_handle_request]. *)
Definition call_handler (request_id : json) (m : str) (params : json)
    (st : state) : completion state :=
  let on_exception e st' :=
    _send_error request_id (-32603) "Internal error" (Some (message e)) st' in
  match get (_handlers (server (snd st))) m with
  | None => on_exception (OtherException (39 :: m ++ [39])) st
  | Some handler =>
      let st1 := record_call st m params in
      match handler params with
      | Raises e => on_exception e st1
      | Returns result =>
          match transport_send (success_response request_id result) st1 with
          | Raise e st2 => on_exception e st2
          | other => other
          end
      end
  end.

(** [_handle_request(message)] *)
Definition _handle_request (message : json) (st : state) : completion state :=
  match message_get message "id" None_,
        message_get message "method" None_,
        message_get message "params" (JObj []) with
  | Some request_id, Some method, Some params =>
      let self := server (snd st) in
      match lookup (_tools self) method with
      | Unhashable => Raise unhashable st
      | Absent shown =>
          _send_error request_id (-32601) "Method not found"
            (Some (lit "Method '" ++ shown ++ lit "' not found")) st
      | Present m _ =>
          match get (_validator_models self) m with
          | Some validator_model =>
              match params with
              | JObj kwargs =>
                  match model_validate validator_model kwargs with
                  | Model dump => call_handler request_id m (JObj dump) st
                  | Invalid description =>
                      _send_error request_id (-32602) "Invalid params"
                        (Some description) st
                  end
              | _ =>
                  Raise (TypeError
                           (lit "argument after ** must be a mapping")) st
              end
          | None => call_handler request_id m params st
          end
      end
  | _, _, _ => Raise no_get st
  end.

Definition is_str (v : json) (s : string) : bool :=
  match v with
  | JStr t => str_eqb t (lit s)
  | _ => false
  end.

(** [_handle_message(message)] *)
Definition _handle_message (message : json) (st : state) : completion state :=
  match message_get message "type" None_ with
  | None => Raise no_get st
  | Some type =>
      if is_str type "ping" then _respond_to_ping message st
      else if is_str type "request" then _handle_request message st
      else Normal st
  end.

End McpServer.

Arguments Unhashable {A}.
Arguments Absent {A} shown.
Arguments Present {A} m a.
Arguments ToolEntry : clear implicits.
Arguments McpServer : clear implicits.
Arguments World : clear implicits.
Arguments state : clear implicits.

End Server.

(** ** The PayPal tool catalog, client and server *)

Module PayPal.
Import Py Json Exc Transport Pydantic Server.

(** The parameter model classes of [tools/parameters.py] that the catalog
    refers to. *)
Inductive Parameters : Type :=
| CreateInvoiceParameters
| ListInvoicesParameters
| GetInvoiceParameters
| SendInvoiceParameters
| SendInvoiceReminderParameters
| CancelSentInvoiceParameters
| GenerateInvoiceQrCodeParameters
| CreateProductParameters
| ListProductsParameters
| UpdateProductParameters
| ShowProductDetailsParameters
| CreateSubscriptionPlanParameters
| ListSubscriptionPlansParameters
| ShowSubscriptionPlanDetailsParameters
| CreateSubscriptionParameters
| ShowSubscriptionDetailsParameters
| CancelSubscriptionParameters
| CreateShipmentParameters
| GetShipmentTrackingParameters
| CreateOrderParameters
| GetOrderParameters
| CaptureOrderParameters
| ListDisputesParameters
| GetDisputeParameters
| AcceptDisputeClaimParameters
| ListTransactionsParameters.

(** The prompt functions of [tools/prompts.py]; a description is a prompt
    applied to the context. *)
Inductive Prompt : Type :=
| create_invoice_prompt
| list_invoices_prompt
| get_invoice_prompt
| send_invoice_prompt
| send_invoice_reminder_prompt
| cancel_sent_invoice_prompt
| generate_invoice_qr_code_prompt
| create_product_prompt
| list_products_prompt
| update_product_prompt
| show_product_details_prompt
| create_subscription_plan_prompt
| list_subscription_plans_prompt
| show_subscription_plan_details_prompt
| create_subscription_prompt
| show_subscription_details_prompt
| cancel_subscription_prompt
| create_shipment_prompt
| get_shipment_tracking_prompt
| create_order_prompt
| get_order_prompt
| capture_order_prompt
| list_disputes_prompt
| get_dispute_prompt
| accept_dispute_claim_prompt
| list_transactions_prompt.

Definition Description : Type := (Prompt * dict json)%type.

(** [cls.schema()], the JSON schema pydantic derives from a model class. *)
Inductive Schema : Type :=
| schema (cls : Parameters).

(** [class Tool] *)
Record Tool : Type := {
  method : str;
  name : str;
  description : Description;
  parameters : Parameters;
  actions : dict (dict bool)
}.

Definition mk (method name : string) (prompt : Prompt) (context : dict json)
    (parameters : Parameters) (product action : string) : Tool :=
  {| method := lit method; name := lit name;
     description := (prompt, context); parameters := parameters;
     actions := [(lit product, [(lit action, true)])] |}.

(** [get_tools(context)] *)
Definition get_tools (context : dict json) : list Tool :=
  [ mk "create_invoice" "Create Invoice" create_invoice_prompt context
       CreateInvoiceParameters "invoices" "create";
    mk "list_invoices" "List Invoices" list_invoices_prompt context
       ListInvoicesParameters "invoices" "list";
    mk "get_invoice" "Get Invoice" get_invoice_prompt context
       GetInvoiceParameters "invoices" "get";
    mk "send_invoice" "Send Invoice" send_invoice_prompt context
       SendInvoiceParameters "invoices" "send";
    mk "send_invoice_reminder" "Send Invoice Reminder" send_invoice_reminder_prompt context
       SendInvoiceReminderParameters "invoices" "sendReminder";
    mk "cancel_sent_invoice" "Cancel Sent Invoice" cancel_sent_invoice_prompt context
       CancelSentInvoiceParameters "invoices" "cancel";
    mk "generate_invoice_qr_code" "Generate Invoice QR Code" generate_invoice_qr_code_prompt context
       GenerateInvoiceQrCodeParameters "invoices" "generateQRC";
    mk "create_product" "Create Product" create_product_prompt context
       CreateProductParameters "products" "create";
    mk "list_products" "List Products" list_products_prompt context
       ListProductsParameters "products" "list";
    mk "update_product" "Update Product" update_product_prompt context
       UpdateProductParameters "products" "update";
    mk "show_product_details" "Show Product Details" show_product_details_prompt context
       ShowProductDetailsParameters "products" "show";
    mk "create_subscription_plan" "Create Subscription Plan" create_subscription_plan_prompt context
       CreateSubscriptionPlanParameters "subscriptionPlans" "create";
    mk "list_subscription_plans" "List Subscription Plans" list_subscription_plans_prompt context
       ListSubscriptionPlansParameters "subscriptionPlans" "list";
    mk "show_subscription_plan_details" "Show Subscription Plan Details" show_subscription_plan_details_prompt context
       ShowSubscriptionPlanDetailsParameters "subscriptionPlans" "show";
    mk "create_subscription" "Create Subscription" create_subscription_prompt context
       CreateSubscriptionParameters "subscriptions" "create";
    mk "show_subscription_details" "Show Subscription Details" show_subscription_details_prompt context
       ShowSubscriptionDetailsParameters "subscriptions" "show";
    mk "cancel_subscription" "Cancel Subscription" cancel_subscription_prompt context
       CancelSubscriptionParameters "subscriptions" "cancel";
    mk "create_shipment" "Create Shipment" create_shipment_prompt context
       CreateShipmentParameters "shipment" "create";
    mk "get_shipment_tracking" "Get Shipment Tracking" get_shipment_tracking_prompt context
       GetShipmentTrackingParameters "shipment" "get";
    mk "create_order" "Create Order" create_order_prompt context
       CreateOrderParameters "orders" "create";
    mk "get_order" "Get Order" get_order_prompt context
       GetOrderParameters "orders" "get";
    mk "capture_order" "Capture Order" capture_order_prompt context
       CaptureOrderParameters "orders" "capture";
    mk "list_disputes" "List Disputes" list_disputes_prompt context
       ListDisputesParameters "disputes" "list";
    mk "get_dispute" "Get Dispute" get_dispute_prompt context
       GetDisputeParameters "disputes" "get";
    mk "accept_dispute_claim" "Accept Dispute Claim" accept_dispute_claim_prompt context
       AcceptDisputeClaimParameters "disputes" "create";
    mk "list_transactions" "List Transactions" list_transactions_prompt context
       ListTransactionsParameters "transactions" "list" ].

(** The keys of [method_map] in [PayPalClient._execute_method]. *)
Definition method_map_keys : list str :=
  map lit
    [ "create_invoice";
      "list_invoices";
      "get_invoice";
      "send_invoice";
      "send_invoice_reminder";
      "cancel_sent_invoice";
      "generate_invoice_qr_code";
      "create_product";
      "list_products";
      "show_product_details";
      "update_product";
      "create_subscription_plan";
      "list_subscription_plans";
      "show_subscription_plan_details";
      "create_subscription";
      "show_subscription_details";
      "cancel_subscription";
      "create_shipment";
      "get_shipment_tracking";
      "create_order";
      "get_order";
      "capture_order";
      "list_disputes";
      "get_dispute";
      "accept_dispute_claim";
      "list_transactions" ]%string.

(** An object as [json.dumps] sees it: a value it prints, or an object of
    another type, for which it raises [TypeError] with the name of the
    type. *)
Inductive PyObject : Type :=
| Json (v : json)
| Other (type_name : str).

(** How the call of an API function ends. *)
Inductive ApiResult : Type :=
| ApiReturns (o : PyObject)
| ApiRaises (e : Exception).

(** The functions [api/functions.py] defines.  Each is declared with
    [async def]: a call runs nothing of its body and returns a coroutine,
    which [_execute_method] does not await. *)
Definition coroutine_functions : list str :=
  map lit
    [ "create_invoice";
      "list_invoices";
      "get_invoice";
      "send_invoice" ]%string.

(** [PayPalClient]: the context and, by name, the API functions that
    [api/client.py] imports and [api/functions.py] does not define, which
    are taken as given. *)
Record PayPalClient : Type := {
  access_token : str;
  context : dict json;
  functions : str -> dict json -> json -> ApiResult
}.

(** [PayPalClient._execute_method(method, params)] *)
Definition _execute_method (self : PayPalClient) (method : str) (params : json)
  : ApiResult :=
  if existsb (str_eqb method) method_map_keys
  then
    if existsb (str_eqb method) coroutine_functions
    then ApiReturns (Other (lit "coroutine"))
    else functions self method (context self) params
  else ApiRaises (ValueError (lit "Invalid method: " ++ method)).

(** The exception of [json.dumps(result)] for an object it has no
    encoding for. *)
Definition not_serializable (type_name : str) : Exception :=
  TypeError (lit "Object of type " ++ type_name
             ++ lit " is not JSON serializable").

(** [PayPalClient.run(method, params)]: always a JSON text, the result or
    the description of the exception that [_execute_method] or
    [json.dumps(result)] raised. *)
Definition run (self : PayPalClient) (method : str) (params : json) : str :=
  let failed e :=
    dumps (JObj [(lit "error",
                  JObj [(lit "message", JStr (message e));
                        (lit "type", JStr (lit "paypal_error"))])]) in
  match _execute_method self method params with
  | ApiReturns (Json result) => dumps result
  | ApiReturns (Other type_name) => failed (not_serializable type_name)
  | ApiRaises e => failed e
  end.

(** The server configuration: [configuration.get("actions")] and
    [configuration.get("context")], each possibly missing. *)
Record Configuration : Type := {
  cfg_actions : option (dict (dict bool));
  cfg_context : option (dict json)
}.

Definition get_or_empty {A} (o : option (dict A)) : dict A :=
  match o with
  | Some d => d
  | None => []
  end.

(** [PayPalMcpServer._is_tool_allowed(tool, configuration)] *)
Definition _is_tool_allowed (tool : Tool) (configuration : Configuration) : bool :=
  let actions_ := get_or_empty (cfg_actions configuration) in
  existsb
    (fun pa : str * dict bool =>
       let (product, product_actions) := pa in
       existsb
         (fun ae : str * bool =>
            let (action, enabled) := ae in
            match get actions_ product with
            | Some allowed =>
                match get allowed action with
                | Some flag => flag
                | None => false
                end
            | None => false
            end)
         product_actions)
    (actions tool).

(** [PayPalMcpServer._create_handler(tool)] *)
Definition _create_handler (client : PayPalClient) (tool : Tool) : Handler :=
  fun params =>
    Returns
      (JObj [(lit "content",
              JList [JObj [(lit "type", JStr (lit "text"));
                           (lit "text", JStr (run client (method tool) params))]])]).

Definition PayPalServer : Type := McpServer Description Schema Parameters.

(** [PayPalClient(access_token, context)]: the context, a fresh dict when
    empty or missing, gets its ["sandbox"] entry defaulted to [True]. *)
Definition new_client (functions : str -> dict json -> json -> ApiResult)
    (access_token : str) (context : dict json) : PayPalClient :=
  {| access_token := access_token;
     context :=
       set context (lit "sandbox")
         match get context (lit "sandbox") with
         | Some v => v
         | None => JBool true
         end;
     functions := functions |}.

(** [configuration.get("context", {})] as [_register_tools] sees it after
    the client was built: a non-empty context is the dict the client
    updated, an empty one was left alone. *)
Definition context_after_client (configuration : Configuration)
    (client : PayPalClient) : dict json :=
  match get_or_empty (cfg_context configuration) with
  | [] => []
  | _ :: _ => context client
  end.

(** The body of the loop of [_register_tools]. *)
Definition register (client : PayPalClient) (configuration : Configuration)
    (self : PayPalServer) (tool : Tool) : PayPalServer :=
  if _is_tool_allowed tool configuration
  then Server.tool self (method tool) (description tool)
         (schema (parameters tool)) (_create_handler client tool)
         (Some (parameters tool))
  else self.

(** [PayPalMcpServer._register_tools(configuration)] on [self]. *)
Definition _register_tools (client : PayPalClient) (self : PayPalServer)
    (configuration : Configuration) : PayPalServer :=
  let all_tools := get_tools (context_after_client configuration client) in
  fold_left (register client configuration) all_tools self.

(** [PayPalMcpServer(access_token, configuration)], given the API
    functions the client is to call. *)
Definition PayPalMcpServer
    (functions : str -> dict json -> json -> ApiResult)
    (access_token : str) (configuration : Configuration) : PayPalServer :=
  let client :=
    new_client functions access_token
      (get_or_empty (cfg_context configuration)) in
  _register_tools client (Server.init (lit "PayPal") (lit "0.4.0")) configuration.

(** The catalog the server registers from. *)
Definition catalog (functions : str -> dict json -> json -> ApiResult)
    (access_token : str) (configuration : Configuration) : list Tool :=
  get_tools
    (context_after_client configuration
       (new_client functions access_token
          (get_or_empty (cfg_context configuration)))).

(** The methods the configuration enables, in catalog order. *)
Definition enabled_methods (functions : str -> dict json -> json -> ApiResult)
    (access_token : str) (configuration : Configuration) : list str :=
  map method
    (filter (fun t => _is_tool_allowed t configuration)
       (catalog functions access_token configuration)).

(** The object [run] prints for an exception. *)
Definition error_object (e : Exception) : json :=
  JObj [(lit "error",
         JObj [(lit "message", JStr (message e));
               (lit "type", JStr (lit "paypal_error"))])].

(** The value whose JSON text [run] returns for an outcome of
    [_execute_method]. *)
Definition reported (r : ApiResult) : json :=
  match r with
  | ApiReturns (Json result) => result
  | ApiReturns (Other type_name) => error_object (not_serializable type_name)
  | ApiRaises e => error_object e
  end.

(** What [_register_tools] stores for a tool. *)
Definition stored (client : PayPalClient) (self : PayPalServer) (t : Tool)
  : Prop :=
  get (_tools self) (method t)
  = Some {| Server.description := PayPal.description t;
            Server.parameters := schema (PayPal.parameters t) |}
  /\ get (_handlers self) (method t) = Some (_create_handler client t)
  /\ get (_validator_models self) (method t) = Some (PayPal.parameters t).

End PayPal.

(** ** Well-formed values *)

Module Values.
Import Py Json.

(** A code point of a Python [str]. *)
Definition code_point (c : Z) : bool := (0 <=? c) && (c <? 0x110000).

(** A Unicode scalar value: a code point that is no surrogate. *)
Definition scalar (c : Z) : bool := code_point c && negb (is_surrogate c).

(** Unicode text: a [str] without surrogates. *)
Definition text (s : str) : bool := forallb scalar s.

Definition printable_char (c : Z) : bool := (32 <=? c) && (c <=? 126).

(** The keys of a [dict] are pairwise different. *)
Fixpoint distinct (l : list str) : bool :=
  match l with
  | [] => true
  | k :: r => negb (existsb (str_eqb k) r) && distinct r
  end.

(** Values as Python holds them: every [str] is made of code points and a
    float literal of printable ASCII characters. *)
Fixpoint valid (v : json) : bool :=
  match v with
  | JNull | JBool _ | JInt _ => true
  | JFloat l => forallb printable_char l
  | JStr s => forallb code_point s
  | JList items => forallb valid items
  | JObj members =>
      forallb (fun kv => forallb code_point (fst kv) && valid (snd kv)) members
  end.

(** Messages of the JSON data model that this embedding covers in full:
    [None], booleans, integers, Unicode text, lists, and dicts with
    distinct text keys. *)
Fixpoint plain (v : json) : bool :=
  match v with
  | JNull | JBool _ | JInt _ => true
  | JFloat _ => false
  | JStr s => text s
  | JList items => forallb plain items
  | JObj members =>
      distinct (map fst members)
      && forallb (fun kv => text (fst kv) && plain (snd kv)) members
  end.

(** The title and the field names of a model class are made of code
    points. *)
Definition valid_model (m : Pydantic.FieldsModel) : bool :=
  forallb code_point (Pydantic.title m)
  && forallb (fun f => forallb code_point (Pydantic.name f)) (Pydantic.fields m).

(** *** Notions used to state the properties below *)

(** Printable ASCII, the range [' '..'~'], ASCII, and ASCII digits. *)
Definition printable (c : Z) : Prop := 32 <= c <= 126.
Definition ascii (c : Z) : Prop := 0 <= c < 128.
Definition digit (c : Z) : Prop := 48 <= c <= 57.

(** What [scanstring] does with the rest of a string after reading the
    character [c]. *)
Definition emit (c : Z) (o : option (str * str)) : option (str * str) :=
  match o with
  | Some (t, rest) => Some (c :: t, rest)
  | None => None
  end.

(** What may follow a value inside a document written by [dumps]: nothing,
    a comma, or a closing bracket or brace. *)
Definition delimited (rest : str) : Prop :=
  match rest with
  | [] => True
  | c :: _ => c = 44 \/ c = 93 \/ c = 125
  end.

(** The characters a printed value can start with. *)
Definition value_start (c : Z) : Prop :=
  c = 110 \/ c = 116 \/ c = 102 \/ c = 45 \/ digit c
  \/ c = 34 \/ c = 91 \/ c = 123.

(** [scan_once] reads [v] back from its print, whatever follows. *)
Definition reads_back (v : json) : Prop :=
  forall fuel rest,
    (List.length (dumps v) <= fuel)%nat -> delimited rest -> plain v = true ->
    scan_once fuel (dumps v ++ rest) = Scanned v rest.

(** The text of one member of a dict. *)
Definition member_text (kv : str * json) : str :=
  encode_basestring_ascii (fst kv) ++ 58 :: 32 :: dumps (snd kv).

(** The header of the frame around [content]. *)
Definition header_of (content : str) : str :=
  lit "Content-Length: " ++ digits (len content) ++ Transport.CRLFCRLF.

(** *** Fuel *)

(** A scan that succeeded with some fuel succeeds with as much fuel as it
    read characters, and one more. *)
Definition frugal (s rest : str) (run : nat -> scan) (v : json) : Prop :=
  (List.length rest < List.length s)%nat
  /\ forall fuel,
       (List.length s < fuel + List.length rest)%nat ->
       run fuel = Scanned v rest.

(** The outcome of a callback that returns or raises, and leaves
    [_read_buffer] as it found it. *)
Definition quiet {W : Type} (c : Exc.completion (Transport.state W))
    (st : Transport.state W) : Prop :=
  match c with
  | Exc.Normal st' | Exc.Raise _ st' =>
      Transport._read_buffer (fst st') = Transport._read_buffer (fst st)
  | Exc.NoFuel => False
  end.

End Values.

(** ** Reading and writing whole messages *)

Module Wire.
Import Py Json Exc Transport.

(** A message callback that appends each message to the list it keeps. *)
Definition record : json -> state (list json) -> completion (state (list json)) :=
  fun message st => Normal (fst st, snd st ++ [message]).

(** The reader thread of a started transport, with [record] as
    [onmessage], run on the chunks [read] returns. *)
Definition receive (chunks : list bytes) : completion (state (list json)) :=
  _read_loop (list json) (Some record) None None chunks (start init, []).

(** The callbacks made, when the reader came to rest. *)
Definition received (chunks : list bytes) : option (list json) :=
  match receive chunks with
  | Normal st => Some (snd st)
  | _ => None
  end.

(** The bytes [send(message)] writes on a started transport. *)
Definition encode_message (message : json) : option bytes :=
  match send message (start init) with
  | Normal t => nth_error (_stdout t) 0
  | _ => None
  end.

End Wire.

(** ** The calls a transport makes *)

Module Trace.
Import Py Json Exc Transport.

(** What the callbacks of a transport are called with. *)
Inductive event : Type :=
| Message (message : json)
| Error (e : Exception)
| Closed.

Definition log : Type := state (list event).

(** Callbacks that write down each call and do nothing else. *)
Definition on_message : json -> log -> completion log :=
  fun message st => Normal (fst st, snd st ++ [Message message]).

Definition on_error : Exception -> log -> completion log :=
  fun e st => Normal (fst st, snd st ++ [Error e]).

Definition on_close : log -> completion log :=
  fun st => Normal (fst st, snd st ++ [Closed]).

(** The reader thread of the transport [t] with these callbacks, run on the
    chunks [read] returns. *)
Definition run (chunks : list bytes) (st : log) : completion log :=
  _read_loop (list event) (Some on_message) (Some on_error) (Some on_close)
    chunks st.

(** The calls made on a new, started transport. *)
Definition trace (chunks : list bytes) : option (list event) :=
  match run chunks (start init, []) with
  | Normal st => Some (snd st)
  | _ => None
  end.

(** What the reader makes of the body of a frame. *)
Definition event_of (content : str) : event :=
  match loads content with
  | Some message => Message message
  | None => Error JSONDecodeError
  end.

(** The text [send] writes for each of [messages], one after the other. *)
Definition frames (messages : list json) : str :=
  List.concat (map (fun m => frame (dumps m)) messages).

(** The order in which the frames of one chunk are dispatched. *)
Fixpoint dispatches (messages : list json) : list json :=
  match messages with
  | [] => []
  | m :: rest => m :: dispatches rest ++ dispatches rest
  end.

(** The flags of the transport are the same in two states of the reader. *)
Definition same_flags (st st' : log) : Prop :=
  _started (fst st') = _started (fst st)
  /\ _closed (fst st') = _closed (fst st).

(** A call left the flags as they were. *)
Definition keeps_flags (c : completion log) (st : log) : Prop :=
  match c with
  | Normal st' | Raise _ st' => same_flags st st'
  | NoFuel => True
  end.

End Trace.

(** ** A server on a transport *)

Module Session.
Import Py Json Exc Transport Pydantic Server.

Section Serve.

Context {D S V : Type} `{BaseModel V}.

(** [server.connect(transport)] on a new transport, then the reader thread
    on the chunks [read] returns; [main] sets no [onerror]. *)
Definition serve (srv : McpServer D S V) (chunks : list bytes)
  : completion (Server.state D S V) :=
  _read_loop _ (Some _handle_message) None None chunks
    (connect (Transport.init, {| server := srv; calls := [] |})).

(** What [_handle_request] passes to the handler of [m] for the request
    parameters [params] when validation lets the request through: the
    parameters themselves without a validator model, the dump of the
    validated model with one. *)
Definition arguments (srv : McpServer D S V) (m : str) (params : json)
  : option json :=
  match get (_validator_models srv) m with
  | None => Some params
  | Some validator_model =>
      match params with
      | JObj kwargs =>
          match model_validate validator_model kwargs with
          | Model dump => Some (JObj dump)
          | Invalid _ => None
          end
      | _ => None
      end
  end.

(** The state after a handler call for [m] with [args] was recorded. *)
Definition called (st : Server.state D S V) (m : str) (args : json)
  : Server.state D S V :=
  (fst st, {| server := server (snd st);
              calls := calls (snd st) ++ [(m, args)] |}).

End Serve.

(** What a peer running the same reader gets from each [write]. *)
Definition replies (t : StdioTransport) : list (option json) :=
  map (fun b => match Wire.received [b] with
                | Some [m] => Some m
                | _ => None
                end) (_stdout t).

(** The field [key] of a reply, when the reply is a dict with that key. *)
Definition field (key : string) (reply : option json) : option json :=
  match reply with
  | Some (JObj members) => get members (lit key)
  | _ => None
  end.

(** The state a call ended in, whether it returned or raised. *)
Definition final {S : Type} (c : completion S) : option S :=
  match c with
  | Normal s | Raise _ s => Some s
  | NoFuel => None
  end.

(** [needle in haystack] for two [str]. *)
Fixpoint occurs (needle haystack : str) : bool :=
  match strip_prefix needle haystack with
  | Some _ => true
  | None =>
      match haystack with
      | [] => false
      | _ :: r => occurs needle r
      end
  end.

End Session.

(** ** The servers that can be built *)

Module Registry.
Import Py Json Server.

Section Built.

Context {D S V : Type}.

(** The server objects the code can build: a new one, and one more tool
    registered on one of these. *)
Inductive built : McpServer D S V -> Prop :=
| built_init (name version : str) : built (init name version)
| built_tool (self : McpServer D S V) (method : str) (description : D)
    (schema : S) (handler : Handler) (validator_model : option V) :
    built self ->
    built (tool self method description schema handler validator_model).

End Built.

End Registry.

(** ** More of the Python runtime *)

Module Runtime.
Import Py Json Exc.

(** The outcome of a function that returns a value or raises. *)
Inductive result (A : Type) : Type :=
| Ok (a : A)
| Raised (e : Exception).

Arguments Ok {A} a.
Arguments Raised {A} e.

(** *** Methods of [str] *)

(** [c.isspace()]: the characters the Unicode database of CPython 3.11
    classes as white space, which [strip] removes. *)
Definition isspace (c : Z) : bool :=
  ((0x9 <=? c) && (c <=? 0xD)) || ((0x1C <=? c) && (c <=? 0x20))
  || (c =? 0x85) || (c =? 0xA0) || (c =? 0x1680)
  || ((0x2000 <=? c) && (c <=? 0x200A))
  || (c =? 0x2028) || (c =? 0x2029) || (c =? 0x202F) || (c =? 0x205F)
  || (c =? 0x3000).

(** [s.lstrip()] *)
Fixpoint lstrip (s : str) : str :=
  match s with
  | c :: r => if isspace c then lstrip r else s
  | [] => []
  end.

(** [s.strip()] *)
Definition strip (s : str) : str := rev (lstrip (rev (lstrip s))).

(** [s.split(sep)] for a separator of one character: always at least one
    piece, and one more than there are separators. *)
Fixpoint split (sep : Z) (s : str) : list str :=
  match s with
  | [] => [[]]
  | c :: r =>
      if c =? sep then [] :: split sep r
      else
        match split sep r with
        | piece :: pieces => (c :: piece) :: pieces
        | [] => [[c]]
        end
  end.

(** [sep.join(parts)] *)
Fixpoint join (sep : str) (parts : list str) : str :=
  match parts with
  | [] => []
  | [p] => p
  | p :: rest => p ++ sep ++ join sep rest
  end.

(** [x in l] for a list of [str]. *)
Definition mem (x : str) (l : list str) : bool := existsb (str_eqb x) l.

(** *** Truth values *)

(** The exponent a number literal ends with, [0] when it has none. *)
Definition exponent (ep : str) : Z :=
  match ep with
  | [] => 0
  | _ :: 45 :: ds => - int ds
  | _ :: 43 :: ds => int ds
  | _ :: ds => int ds
  end.

(** [float(literal) == 0.0] for a number literal of the decoder.  Python
    rounds to the nearest float, so that a literal denotes zero when its
    digits are all zero or its value is at most [2 ^ -1075], half of the
    smallest positive float; [NaN] and the infinities are not zero. *)
Definition float_is_zero (literal : str) : bool :=
  let unsigned :=
    match literal with
    | 45 :: r => r
    | _ => literal
    end in
  match match_int_part unsigned with
  | None => false
  | Some (ip, r1) =>
      let (fp, r2) := match_frac r1 in
      let (ep, r3) := match_exp r2 in
      match r3 with
      | [] =>
          let frac := tl fp in
          let m := int (ip ++ frac) in
          let e := exponent ep - len frac in
          (m =? 0) || ((e <? 0) && (m * 2 ^ 1075 <=? 10 ^ (- e)))
      | _ :: _ => false
      end
  end.

(** [bool(v)] *)
Definition truthy (v : json) : bool :=
  match v with
  | JNull => false
  | JBool b => b
  | JInt n => negb (n =? 0)
  | JFloat literal => negb (float_is_zero literal)
  | JStr s => match s with [] => false | _ :: _ => true end
  | JList items => match items with [] => false | _ :: _ => true end
  | JObj members => match members with [] => false | _ :: _ => true end
  end.

End Runtime.

(** ** The command line: [main.py] *)

Module Main.
Import Py Json Exc Transport Pydantic Server PayPal Runtime.

Definition ACCEPTED_TOOLS : list str :=
  map lit
    [ "invoices.create";
      "invoices.list";
      "invoices.get";
      "invoices.send";
      "invoices.sendReminder";
      "invoices.cancel";
      "invoices.generateQRC";
      "orders.create";
      "orders.get";
      "orders.capture";
      "disputes.list";
      "disputes.get";
      "disputes.create";
      "shipment.create";
      "shipment.get";
      "products.create";
      "products.list";
      "products.update";
      "products.show";
      "subscriptionPlans.create";
      "subscriptionPlans.list";
      "subscriptionPlans.show";
      "subscriptions.create";
      "subscriptions.show";
      "subscriptions.cancel";
      "transactions.list" ]%string.

(** The namespace [parser.parse_args()] returns: [--tools] is required,
    the other options are [None] when not given. *)
Record Namespace : Type := {
  tools : str;
  access_token : option str;
  paypal_environment : option str;
  debug : bool
}.

(** What [parse_args] returns. *)
Record Config : Type := {
  config_tools : list str;
  config_access_token : str;
  is_sandbox : bool
}.

(** [a or b] where [a] is a string or [None], both [None] and the empty
    string being false. *)
Definition or_else {B : Type} (a : option str) (b : B) (some : str -> B) : B :=
  match a with
  | Some (c :: r) => some (c :: r)
  | _ => b
  end.

Section Runtime.

(** [str.upper] of the interpreter, with its Unicode case tables, is taken
    as given. *)
Variable upper : str -> str.

(** [parse_args()], from the parsed command line and [os.environ]. *)
Definition parse_args (args : Namespace) (environ : dict str) : result Config :=
  let tools_arg := tools args in
  let checked : result (list str) :=
    if str_eqb tools_arg (lit "all") then Ok [lit "all"]
    else
      let tools := map strip (split 44 tools_arg) in
      match
        find (fun tool =>
                negb (str_eqb tool (lit "all")) && negb (mem tool ACCEPTED_TOOLS))
          tools
      with
      | Some tool =>
          let valid_tools := join (lit ", ") ACCEPTED_TOOLS in
          Raised (ValueError
                    (lit "Invalid tool: " ++ tool
                     ++ lit ". Accepted tools are: all, " ++ valid_tools))
      | None => Ok tools
      end in
  match checked with
  | Raised e => Raised e
  | Ok tools =>
      match
        or_else (access_token args)
          (get environ (lit "PAYPAL_ACCESS_TOKEN")) Some
      with
      | None | Some [] =>
          Raised (ValueError
                    (lit "PayPal access token not provided. Please provide it via the --access-token argument or set the PAYPAL_ACCESS_TOKEN environment variable."))
      | Some access_token =>
          let paypal_env :=
            or_else (paypal_environment args)
              match get environ (lit "PAYPAL_ENVIRONMENT") with
              | Some v => v
              | None => lit "SANDBOX"
              end
              (fun v => v) in
          Ok {| config_tools := tools;
                config_access_token := access_token;
                is_sandbox :=
                  negb (str_eqb (upper paypal_env) (lit "PRODUCTION")) |}
      end
  end.

(** The body of the loops of [main]: [product, action = tool_id.split(".")],
    then the dict stored under [product], a new one when the key is
    missing, gets [action] set to [True]; [None] when the unpacking raises
    [ValueError]. *)
Definition enable (actions : dict (dict bool)) (tool_id : str)
  : option (dict (dict bool)) :=
  match split 46 tool_id with
  | [product; action] =>
      let product_actions :=
        match get actions product with
        | Some d => d
        | None => []
        end in
      Some (set actions product (set product_actions action true))
  | _ => None
  end.

(** One of the two [for] loops of [main]. *)
Fixpoint enable_all (actions : dict (dict bool)) (tool_ids : list str)
  : option (dict (dict bool)) :=
  match tool_ids with
  | [] => Some actions
  | tool_id :: rest =>
      match enable actions tool_id with
      | Some actions' => enable_all actions' rest
      | None => None
      end
  end.

(** The [server_config] that [main] builds from what [parse_args]
    returned; [None] when a loop raises. *)
Definition server_config (config : Config) : option Configuration :=
  let context :=
    [(lit "sandbox", JBool (is_sandbox config));
     (lit "access_token", JStr (config_access_token config))] in
  match
    enable_all []
      (if mem (lit "all") (config_tools config) then ACCEPTED_TOOLS
       else config_tools config)
  with
  | Some actions =>
      Some {| cfg_actions := Some actions; cfg_context := Some context |}
  | None => None
  end.

(** How [main] goes on: [sys.exit(1)] after an exception, or the server
    connected to a new transport, waiting for input. *)
Inductive outcome : Type :=
| Exit (code : Z)
| Serving (st : Server.state Description Schema Parameters).

(** [main()], given the API functions the client is to call. *)
Definition main (functions : str -> dict json -> json -> ApiResult)
    (args : Namespace) (environ : dict str) : outcome :=
  match parse_args args environ with
  | Raised _ => Exit 1
  | Ok config =>
      match server_config config with
      | None => Exit 1
      | Some configuration =>
          let server :=
            PayPalMcpServer functions (config_access_token config)
              configuration in
          Serving (connect (Transport.init,
                            {| server := server; calls := [] |}))
      end
  end.

End Runtime.

(** The identifiers [product.action] a tool declares. *)
Definition tool_ids (t : Tool) : list str :=
  flat_map (fun pa : str * dict bool =>
              map (fun ae : str * bool => fst pa ++ 46 :: fst ae) (snd pa))
    (actions t).

(** A tool declares one of the identifiers [ids]. *)
Definition listed (ids : list str) (t : Tool) : bool :=
  existsb (fun id => mem id ids) (tool_ids t).

(** The test [_is_tool_allowed] makes for one product and action. *)
Definition allows (actions : dict (dict bool)) (product action : str) : bool :=
  match get actions product with
  | Some allowed =>
      match get allowed action with
      | Some flag => flag
      | None => false
      end
  | None => false
  end.

(** No product or action name of the tool holds a dot. *)
Definition dotless (t : Tool) : bool :=
  forallb (fun pa : str * dict bool =>
             negb (existsb (Z.eqb 46) (fst pa))
             && forallb (fun ae : str * bool =>
                           negb (existsb (Z.eqb 46) (fst ae))) (snd pa))
    (actions t).

End Main.

(** ** [tools/utils.py] *)

Module Utils.
Import Py Json Exc Runtime.

(** *** [urllib.parse.urlencode] *)

(** The bytes [quote] never escapes: letters, digits and [_.-~]. *)
Definition always_safe (b : Z) : bool :=
  ((65 <=? b) && (b <=? 90)) || ((97 <=? b) && (b <=? 122))
  || ((48 <=? b) && (b <=? 57))
  || (b =? 95) || (b =? 46) || (b =? 45) || (b =? 126).

Definition hex_upper (d : Z) : Z := if d <? 10 then 48 + d else 55 + d.

(** What [quote_plus] writes for one byte: the byte, [+] for a space, or
    [%XX]. *)
Definition quote_byte (b : Z) : str :=
  if always_safe b then [b]
  else if b =? 32 then [43]
  else [37; hex_upper (b / 16); hex_upper (b mod 16)].

(** [quote_plus(s, safe='')] for a [str]: the UTF-8 bytes of [s], quoted;
    a surrogate makes the strict encoder raise. *)
Definition quote_plus (s : str) : result str :=
  match encode s with
  | Some bs => Ok (flat_map quote_byte bs)
  | None => Raised UnicodeEncodeError
  end.

(** The loop of [urlencode] over the items of a dict with [str] keys and
    values. *)
Fixpoint quote_items (items : list (str * str)) : result (list str) :=
  match items with
  | [] => Ok []
  | (k, v) :: rest =>
      match quote_plus k with
      | Raised e => Raised e
      | Ok k' =>
          match quote_plus v with
          | Raised e => Raised e
          | Ok v' =>
              match quote_items rest with
              | Raised e => Raised e
              | Ok l => Ok ((k' ++ 61 :: v') :: l)
              end
          end
      end
  end.

(** *** [to_query_string] *)

Section Shown.

(** [str(v)] for a float, a list or a dict, with the [repr] of the
    interpreter, is taken as given. *)
Variable repr : json -> str.

(** [str(v)] *)
Definition str_ (v : json) : str :=
  match v with
  | JNull => lit "None"
  | JBool true => lit "True"
  | JBool false => lit "False"
  | JInt n => str_of_int n
  | JStr s => s
  | JFloat _ | JList _ | JObj _ => repr v
  end.

(** The two steps of [to_query_string] before [urlencode]: the entries
    that are not [None], and a boolean replaced by [true] or [false]. *)
Definition filtered_params (params : dict json) : dict json :=
  map (fun kv : str * json =>
         match snd kv with
         | JBool true => (fst kv, JStr (lit "true"))
         | JBool false => (fst kv, JStr (lit "false"))
         | _ => kv
         end)
    (filter (fun kv => match snd kv with JNull => false | _ => true end)
       params).

(** [urlencode(query)] for a dict with [str] keys: [str(k)] and [str(v)]
    of each item, quoted, with [=] between them, and [&] between items. *)
Definition urlencode (query : dict json) : result str :=
  match quote_items (map (fun kv => (fst kv, str_ (snd kv))) query) with
  | Ok l => Ok (join [38] l)
  | Raised e => Raised e
  end.

(** [to_query_string(params)] *)
Definition to_query_string (params : dict json) : result str :=
  urlencode (filtered_params params).

End Shown.

(** *** [handle_api_error] *)

(** What [handle_api_error] reads of [error.response]: the status code,
    what [json()] returns ([None] when it raises [ValueError]) and the
    text. *)
Record Response : Type := {
  status_code : Z;
  json_ : option json;
  text : str
}.

(** What [handle_api_error] reads of a [RequestException]: the response,
    when the attribute is there and not [None], and [str(error)]. *)
Record RequestException : Type := {
  response : option Response;
  shown : str
}.

(** [type(v).__name__] *)
Definition type_name (v : json) : str :=
  match v with
  | JNull => lit "NoneType"
  | JBool _ => lit "bool"
  | JInt _ => lit "int"
  | JFloat _ => lit "float"
  | JStr _ => lit "str"
  | JList _ => lit "list"
  | JObj _ => lit "dict"
  end.

(** The list comprehension over [error_data["details"]]: the descriptions
    that are true, in order; [None] when a detail has no [get], which
    raises [AttributeError]. *)
Fixpoint detail_descriptions (details : list json) : option (list json) :=
  match details with
  | [] => Some []
  | JObj detail :: rest =>
      match detail_descriptions rest with
      | None => None
      | Some l =>
          match get detail (lit "description") with
          | Some d => Some (if truthy d then d :: l else l)
          | None => Some l
          end
      end
  | _ :: _ => None
  end.

(** ["; ".join(parts)] from item [i] on, for items that may not be [str],
    which raises [TypeError]. *)
Fixpoint join_items (i : Z) (parts : list json) : result (list str) :=
  match parts with
  | [] => Ok []
  | JStr s :: rest =>
      match join_items (i + 1) rest with
      | Ok l => Ok (s :: l)
      | Raised e => Raised e
      end
  | v :: _ =>
      Raised (TypeError (lit "sequence item " ++ str_of_int i
                         ++ lit ": expected str instance, " ++ type_name v
                         ++ lit " found"))
  end.

(** [error_data.get("message", "Unknown error")] *)
Definition message_of (error_data : dict json) : json :=
  match get error_data (lit "message") with
  | Some v => v
  | None => JStr (lit "Unknown error")
  end.

(** [error_message += s], with what [error_data] is afterwards: a [str]
    is replaced by a longer one; a list is extended in place by the
    characters of [s], and it is the list [error_data] holds under
    ["message"], the default being a [str]; anything else raises
    [TypeError]. *)
Definition iadd (error_data : dict json) (error_message : json) (s : str)
  : result (json * dict json) :=
  match error_message with
  | JStr m => Ok (JStr (m ++ s), error_data)
  | JList items =>
      let extended := JList (items ++ map (fun c => JStr [c]) s) in
      Ok (extended, set error_data (lit "message") extended)
  | v =>
      Raised (TypeError (lit "unsupported operand type(s) for +=: '"
                         ++ type_name v ++ lit "' and 'str'"))
  end.

(** The dict returned when the response could not be read as expected. *)
Definition unreadable (r : Response) : json :=
  JObj [(lit "error",
         JObj [(lit "type", JStr (lit "paypal_api_error"));
               (lit "code", JInt (status_code r));
               (lit "message", JStr (lit "API error: " ++ text r))])].

(** The dict returned for a response that was read. *)
Definition described (r : Response) (error_message error_data : json) : json :=
  JObj [(lit "error",
         JObj [(lit "type", JStr (lit "paypal_api_error"));
               (lit "code", JInt (status_code r));
               (lit "message", error_message);
               (lit "details", error_data)])].

(** [handle_api_error(error)] *)
Definition handle_api_error (error : RequestException) : result json :=
  match response error with
  | Some r =>
      match json_ r with
      | Some (JObj error_data) =>
          let error_message := message_of error_data in
          match get error_data (lit "details") with
          | Some (JList details) =>
              match detail_descriptions details with
              | None => Ok (unreadable r)
              | Some [] => Ok (described r error_message (JObj error_data))
              | Some descriptions =>
                  match join_items 0 descriptions with
                  | Raised e => Raised e
                  | Ok l =>
                      match iadd error_data error_message
                              (lit ": " ++ join (lit "; ") l)
                      with
                      | Raised e => Raised e
                      | Ok (error_message', error_data') =>
                          Ok (described r error_message' (JObj error_data'))
                      end
                  end
              end
          | _ => Ok (described r error_message (JObj error_data))
          end
      | _ => Ok (unreadable r)
      end
  | None =>
      Ok (JObj [(lit "error",
                 JObj [(lit "type", JStr (lit "connection_error"));
                       (lit "message",
                        JStr (lit "Connection error: " ++ shown error))])])
  end.

End Utils.

(* definitions part: notions *)
Module Query.
Import Py Json Runtime Utils.

(** A character a query string is made of: one that is never escaped, or
    one of [%], [+], [=] and [&]. *)
Definition query_char (c : Z) : bool :=
  always_safe c || (c =? 37) || (c =? 43) || (c =? 61) || (c =? 38).

(** The value of a hexadecimal digit in upper case. *)
Definition unhex_upper (c : Z) : Z := if c <? 58 then c - 48 else c - 55.

(** The bytes a text written by [quote_plus] stands for: [%XX] is the
    byte of value [XX], [+] a space, any other character itself. *)
Fixpoint unquote (q : str) : bytes :=
  match q with
  | [] => []
  | c :: r =>
      if c =? 37 then
        match r with
        | h :: l :: r' => (unhex_upper h * 16 + unhex_upper l) :: unquote r'
        | _ => c :: r
        end
      else if c =? 43 then 32 :: unquote r
      else c :: unquote r
  end.

(** The items [urlencode] quotes: each key with the text of its value. *)
Definition items (repr : json -> str) (params : dict json) : list (str * str) :=
  map (fun kv => (fst kv, str_ repr (snd kv))) (filtered_params params).

(** Reading a query string: the pieces between [&], each cut at its [=]
    and unquoted; the empty string has no piece. *)
Definition parse (q : str) : list (bytes * bytes) :=
  match q with
  | [] => []
  | _ :: _ =>
      map (fun item =>
             match split 61 item with
             | [k; v] => (unquote k, unquote v)
             | _ => (unquote item, [])
             end)
        (split 38 q)
  end.

Definition byte (b : Z) : Prop := 0 <= b < 256.

(** What is written for a byte holds neither [=] nor [&]. *)
Definition quoted_char (c : Z) : bool :=
  always_safe c || (c =? 37) || (c =? 43).

(** What [quote_items] returns: for each item its quoted key, [=] and its
    quoted value. *)
Definition quoted_item (kv : str * str) (item : str) : Prop :=
  exists k v,
    quote_plus (fst kv) = Ok k /\ quote_plus (snd kv) = Ok v
    /\ item = k ++ 61 :: v.

End Query.

(** *** Notions to state what [handle_api_error] returns *)

Module ApiError.
Import Py Json Runtime Utils.

Definition is_str (v : json) : bool :=
  match v with JStr _ => true | _ => false end.

Definition is_dict (v : json) : bool :=
  match v with JObj _ => true | _ => false end.

(** The list under ["details"], when there is one. *)
Definition details_of (error_data : dict json) : list json :=
  match get error_data (lit "details") with
  | Some (JList details) => details
  | _ => []
  end.

(** [v] is the description of the detail [d], and is true. *)
Definition true_description (d v : json) : Prop :=
  exists detail,
    d = JObj detail /\ get detail (lit "description") = Some v
    /\ truthy v = true.

(** A detail as PayPal sends it: an object whose description, when it has
    one that is true, is a [str]. *)
Definition plain_detail (d : json) : bool :=
  match d with
  | JObj detail =>
      match get detail (lit "description") with
      | Some v => negb (truthy v) || is_str v
      | None => true
      end
  | _ => false
  end.

(** The descriptions that are not empty, in the order of the details. *)
Definition descriptions (details : list json) : list str :=
  flat_map (fun d =>
              match d with
              | JObj detail =>
                  match get detail (lit "description") with
                  | Some (JStr (c :: s)) => [c :: s]
                  | _ => []
                  end
              | _ => []
              end) details.

(** What is added to the message for these descriptions. *)
Definition suffix (ds : list str) : str :=
  match ds with
  | [] => []
  | _ :: _ => lit ": " ++ join (lit "; ") ds
  end.

End ApiError.

(** ** The attributes of the client: [api/client.py] *)

Module ClientSetup.
Import Py Json PayPal Runtime.

Definition SANDBOX_URL : str := lit "https://api-m.sandbox.paypal.com".
Definition LIVE_URL : str := lit "https://api-m.paypal.com".

(** [self.base_url] of [PayPalClient(access_token, context)], which
    [get_base_url] returns: [__init__] reads the ["sandbox"] entry it has
    just defaulted to [True]. *)
Definition base_url (context : dict json) : str :=
  let sandbox :=
    match get context (lit "sandbox") with
    | Some v => v
    | None => JBool true
    end in
  if truthy sandbox then SANDBOX_URL else LIVE_URL.

(** What [context.get(key)] adds to the headers when it is true. *)
Definition with_header (self : PayPalClient) (key name : str)
    (shown : json -> json) (headers : dict json) : dict json :=
  match get (context self) key with
  | Some v => if truthy v then set headers name (shown v) else headers
  | None => headers
  end.

(** The body of [get_headers]. *)
Definition get_headers (self : PayPalClient) : dict json :=
  let headers :=
    [(lit "Content-Type", JStr (lit "application/json"));
     (lit "Authorization", JStr (lit "Bearer " ++ access_token self))] in
  let headers :=
    with_header self (lit "request_id") (lit "PayPal-Request-Id")
      (fun v => v) headers in
  with_header self (lit "tenant_context") (lit "PayPal-Tenant-Context")
    (fun v => JStr (dumps v)) headers.

End ClientSetup.

(** ** All actions enabled: [tools/definitions.py] *)

Module Actions.
Import Py Json PayPal.

(** [all_actions[product][action] = enabled] *)
Definition set_action (product : str) (all_actions : dict (dict bool))
    (ae : str * bool) : dict (dict bool) :=
  set all_actions product
    (set match get all_actions product with
         | Some product_actions => product_actions
         | None => []
         end (fst ae) (snd ae)).

(** The body of the loop over [tool.actions.items()]: the product gets an
    empty dict when it is new, then every action its flag. *)
Definition add_product (all_actions : dict (dict bool))
    (pa : str * dict bool) : dict (dict bool) :=
  let product := fst pa in
  let all_actions :=
    if contains all_actions product then all_actions
    else set all_actions product [] in
  fold_left (set_action product) (snd pa) all_actions.

(** The loops of [get_all_actions] over a list of tools. *)
Definition all_actions_of (tools : list Tool) : dict (dict bool) :=
  fold_left (fun all_actions tool =>
               fold_left add_product (actions tool) all_actions)
    tools [].

(** [get_all_actions()]: the tools of [get_tools()], whose actions do not
    depend on the context. *)
Definition get_all_actions : dict (dict bool) := all_actions_of (get_tools []).

Definition ALL_TOOLS_ENABLED : dict (dict bool) := get_all_actions.

(** Every flag the tool declares is [True]. *)
Definition flags_true (t : Tool) : bool :=
  forallb (fun pa : str * dict bool =>
             forallb (fun ae : str * bool => snd ae) (snd pa))
    (actions t).

(** The tool declares an action. *)
Definition has_action (t : Tool) : bool :=
  existsb (fun pa : str * dict bool =>
             match snd pa with
             | [] => false
             | _ :: _ => true
             end)
    (actions t).

End Actions.

(** ** The order the specification asks of the capability list *)

Module SpecWords.
Import Py.

(** [a <= b] for two [str], as Python compares them. *)
Fixpoint str_leb (a b : str) : bool :=
  match a, b with
  | [], _ => true
  | _ :: _, [] => false
  | x :: a', y :: b' => (x <? y) || ((x =? y) && str_leb a' b')
  end.

Fixpoint insert_sorted (k : str) (l : list str) : list str :=
  match l with
  | [] => [k]
  | x :: r => if str_leb k x then k :: l else x :: insert_sorted k r
  end.

(** [sorted(names)] *)
Definition sorted (names : list str) : list str :=
  fold_right insert_sorted [] names.

End SpecWords.

(** ** Inputs used below *)

Module Examples.
Import Py Json Exc Transport Pydantic Server PayPal.

Definition ping (id : Z) : json :=
  JObj [(lit "id", JInt id); (lit "type", JStr (lit "ping"))].

Definition request (id : Z) (method : string) (params : json) : json :=
  JObj [(lit "id", JInt id); (lit "type", JStr (lit "request"));
        (lit "method", JStr (lit method)); (lit "params", params)].

(** The JSON text ["é"] as a peer that does not escape writes it, framed
    with the byte length 4 of its UTF-8 encoding. *)
Definition e_acute_text : str := [34; 233; 34].
Definition e_acute_frame : bytes :=
  lit "Content-Length: 4" ++ CRLFCRLF ++ [34; 0xC3; 0xA9; 34].

(** [GetInvoiceParameters] and [SendInvoiceReminderParameters] of
    [tools/parameters.py]. *)
Definition GetInvoiceParameters_model : FieldsModel :=
  {| title := lit "GetInvoiceParameters";
     fields := [ {| Pydantic.name := lit "invoice_id"; type_ := TStr;
                    default := None |} ] |}.

Definition SendInvoiceReminderParameters_model : FieldsModel :=
  {| title := lit "SendInvoiceReminderParameters";
     fields :=
       [ {| Pydantic.name := lit "invoice_id"; type_ := TStr; default := None |};
         {| Pydantic.name := lit "subject"; type_ := TOptional TStr;
            default := Some JNull |};
         {| Pydantic.name := lit "note"; type_ := TOptional TStr;
            default := Some JNull |};
         {| Pydantic.name := lit "additional_recipients";
            type_ := TOptional (TList TStr); default := Some JNull |} ] |}.

(** API functions that all fail to reach the provider. *)
Definition unreachable : str -> dict json -> json -> ApiResult :=
  fun _ _ _ => ApiRaises (OtherException (lit "connection refused")).

(** A configuration enabling [invoices.list] and [invoices.get]. *)
Definition list_and_get : Configuration :=
  {| cfg_actions :=
       Some [(lit "invoices", [(lit "list", true); (lit "get", true)])];
     cfg_context := None |}.

(** A server with the [get_invoice] and [send_invoice_reminder] tools
    registered as [_register_tools] registers them, with the two parameter
    models above as validators. *)
Definition invoice_server : McpServer Description Schema FieldsModel :=
  let client := new_client unreachable (lit "token") [] in
  let get_invoice :=
    mk "get_invoice" "Get Invoice" get_invoice_prompt []
       GetInvoiceParameters "invoices" "get" in
  let send_invoice_reminder :=
    mk "send_invoice_reminder" "Send Invoice Reminder"
       send_invoice_reminder_prompt []
       SendInvoiceReminderParameters "invoices" "sendReminder" in
  let s0 := Server.init (lit "PayPal") (lit "0.4.0") in
  let s1 :=
    Server.tool s0 (method get_invoice) (PayPal.description get_invoice)
      (schema (PayPal.parameters get_invoice))
      (_create_handler client get_invoice) (Some GetInvoiceParameters_model) in
  Server.tool s1 (method send_invoice_reminder)
    (PayPal.description send_invoice_reminder)
    (schema (PayPal.parameters send_invoice_reminder))
    (_create_handler client send_invoice_reminder)
    (Some SendInvoiceReminderParameters_model).

(** A server without tools. *)
Definition bare_server : McpServer Description Schema FieldsModel :=
  Server.init (lit "PayPal") (lit "0.4.0").

(** A server with one tool, registered without validator model, whose
    handler raises. *)
Definition raising : Handler :=
  fun _ => Raises (OtherException (lit "boom")).

Definition raising_server : McpServer Description Schema FieldsModel :=
  Server.tool bare_server (lit "explode") (get_invoice_prompt, [])
    (schema GetInvoiceParameters) raising None.

(** A handler that returns [None]. *)
Definition returning_none : Handler := fun _ => Returns JNull.

(** [invoice_server] after [get_invoice] was registered a second time, with
    another description, schema, handler and validator model. *)
Definition registered_twice : McpServer Description Schema FieldsModel :=
  Server.tool invoice_server (lit "get_invoice") (list_invoices_prompt, [])
    (schema ListInvoicesParameters) returning_none
    (Some SendInvoiceReminderParameters_model).

(** A stand-in for the validation pydantic does for the parameter classes
    of the catalog, accepting every params object as it is; for inputs in
    which validation plays no part. *)
Definition accepting : BaseModel Parameters :=
  {| model_validate := fun _ kwargs => Model kwargs |}.

(** A freshly connected session of a server. *)
Definition session {V : Type} (srv : McpServer Description Schema V)
  : Server.state Description Schema V :=
  connect (Transport.init, {| server := srv; calls := [] |}).

(** The members of [request id method params]. *)
Definition request_members (id : Z) (method : string) (params : json)
  : list (str * json) :=
  [(lit "id", JInt id); (lit "type", JStr (lit "request"));
   (lit "method", JStr (lit method)); (lit "params", params)].

End Examples.

(** * Properties *)

#[local] Arguments Z.add _ _ : simpl never.
#[local] Arguments Z.sub _ _ : simpl never.
#[local] Arguments Z.mul _ _ : simpl never.
#[local] Arguments Z.div _ _ : simpl never.
#[local] Arguments Z.modulo _ _ : simpl never.
#[local] Arguments Z.opp _ : simpl never.
#[local] Arguments Z.eqb _ _ : simpl never.
#[local] Arguments Z.ltb _ _ : simpl never.
#[local] Arguments Z.leb _ _ : simpl never.

(** ** Strings, digits and UTF-8 on ASCII text *)

Module PyFacts.
Import Py Values.

Lemma str_eqb_eq (a b : str) : str_eqb a b = true <-> a = b.
Proof.
  revert b; induction a as [|x a IH]; intros [|y b]; simpl;
    try (split; congruence).
  rewrite andb_true_iff, Z.eqb_eq, IH.
  split; [intros [-> ->]; reflexivity | intros E; inversion E; auto].
Qed.

Lemma str_eqb_refl (a : str) : str_eqb a a = true.
Proof. apply str_eqb_eq; reflexivity. Qed.

Lemma str_eqb_neq (a b : str) : a <> b -> str_eqb a b = false.
Proof.
  intros N; destruct (str_eqb a b) eqn:E; [|reflexivity].
  apply str_eqb_eq in E; contradiction.
Qed.

Lemma strip_prefix_app (p r : str) : strip_prefix p (p ++ r) = Some r.
Proof.
  induction p as [|x p IH]; simpl; [reflexivity|].
  rewrite Z.eqb_refl; exact IH.
Qed.

Lemma len_app {A} (a b : list A) : len (a ++ b) = len a + len b.
Proof. unfold len; rewrite length_app; lia. Qed.

Lemma len_nonneg {A} (a : list A) : 0 <= len a.
Proof. unfold len; lia. Qed.

Lemma slice_from_app {A} (a b : list A) : slice_from (a ++ b) (len a) = b.
Proof.
  unfold slice_from, len; rewrite Nat2Z.id.
  rewrite skipn_app, skipn_all, Nat.sub_diag; reflexivity.
Qed.

Lemma slice_middle {A} (a b c : list A) :
  slice (a ++ b ++ c) (len a) (len a + len b) = b.
Proof.
  unfold slice.
  replace (len a + len b - len a) with (len b) by lia.
  fold (slice_from (a ++ b ++ c) (len a)); rewrite slice_from_app.
  unfold len; rewrite Nat2Z.id, firstn_app, firstn_all, Nat.sub_diag.
  simpl; apply app_nil_r.
Qed.

Lemma printable_ascii (c : Z) : printable c -> ascii c.
Proof. unfold printable, ascii; lia. Qed.

Lemma digit_printable (c : Z) : digit c -> printable c.
Proof. unfold printable, digit; lia. Qed.

Lemma decimal_digit (c : Z) : digit c -> decimal c = Some (c - 48).
Proof.
  intros [H1 H2]; unfold decimal, decimal_block_starts, decimal_in.
  replace (48 <=? c) with true by (symmetry; apply Z.leb_le; lia).
  replace (c <? 48 + 10) with true by (symmetry; apply Z.ltb_lt; lia).
  reflexivity.
Qed.

Lemma int_snoc (s : str) (c : Z) :
  digit c -> int (s ++ [c]) = 10 * int s + (c - 48).
Proof.
  intros Hc; unfold int; generalize 0 as a.
  induction s as [|x s IH]; intros a; simpl.
  - rewrite (decimal_digit c Hc); reflexivity.
  - apply IH.
Qed.

(** What [digits] produces, whatever the accumulator and the fuel. *)
Lemma digits_fuel_spec (fuel : nat) :
  forall n acc, 0 <= n < Z.of_nat fuel ->
  exists ds, digits_fuel fuel n acc = ds ++ acc
             /\ Forall digit ds /\ ds <> [] /\ int ds = n
             /\ (hd 0 ds = 48 -> ds = [48]).
Proof.
  induction fuel as [|f IH]; intros n acc Hn; [lia|].
  simpl. destruct (n <? 10) eqn:E.
  - apply Z.ltb_lt in E. exists [48 + n]. repeat split.
    + rewrite Z.mod_small by lia; reflexivity.
    + constructor; [unfold digit; lia|constructor].
    + discriminate.
    + unfold int; simpl. rewrite decimal_digit by (unfold digit; lia). lia.
    + simpl; intros H; f_equal; lia.
  - apply Z.ltb_ge in E.
    destruct (IH (n / 10) ((48 + n mod 10) :: acc)) as (ds & E1 & F & NE & I & Hd).
    { split; [apply Z.div_pos; lia|].
      assert (n / 10 < n) by (apply Z.div_lt; lia). lia. }
    exists (ds ++ [48 + n mod 10]). repeat split.
    + rewrite E1, <- app_assoc; reflexivity.
    + apply Forall_app; split; [exact F|].
      constructor; [|constructor].
      pose proof (Z.mod_pos_bound n 10 ltac:(lia)); unfold digit; lia.
    + destruct ds; discriminate.
    + rewrite int_snoc.
      * rewrite I. pose proof (Z.div_mod n 10 ltac:(lia)). lia.
      * pose proof (Z.mod_pos_bound n 10 ltac:(lia)); unfold digit; lia.
    + destruct ds as [|d ds]; [contradiction|]. simpl. intros H0.
      specialize (Hd H0). rewrite Hd in I. unfold int in I; simpl in I.
      assert (1 <= n / 10) by (apply Z.div_le_lower_bound; lia). 
      change (decimal 48) with (Some 0) in I. lia.
Qed.

Lemma digits_spec (n : Z) :
  0 <= n ->
  Forall digit (digits n) /\ digits n <> [] /\ int (digits n) = n
  /\ (hd 0 (digits n) = 48 -> digits n = [48]).
Proof.
  intros Hn; unfold digits.
  destruct (digits_fuel_spec (S (Z.to_nat n)) n []) as (ds & E & H).
  { lia. }
  rewrite E, app_nil_r; exact H.
Qed.

Lemma str_of_int_printable (n : Z) : Forall printable (str_of_int n).
Proof.
  unfold str_of_int; destruct (n <? 0) eqn:E.
  - apply Z.ltb_lt in E. constructor; [unfold printable; lia|].
    destruct (digits_spec (- n)) as [F _]; [lia|].
    eapply Forall_impl; [exact digit_printable|exact F].
  - apply Z.ltb_ge in E. destruct (digits_spec n E) as [F _].
    eapply Forall_impl; [exact digit_printable|exact F].
Qed.

Lemma encode_ascii (s : str) : Forall ascii s -> encode s = Some s.
Proof.
  induction 1 as [|c s [H0 H1] _ IH]; simpl; [reflexivity|].
  rewrite IH; unfold encode_char.
  replace (c <? 0) with false by (symmetry; apply Z.ltb_ge; lia).
  replace (c <? 128) with true by (symmetry; apply Z.ltb_lt; lia).
  reflexivity.
Qed.

Lemma decode_ascii (s : bytes) : Forall ascii s -> decode_replace s = s.
Proof.
  induction 1 as [|c s [H0 H1] _ IH]; simpl; [reflexivity|].
  replace (c <? 128) with true by (symmetry; apply Z.ltb_lt; lia).
  rewrite IH; reflexivity.
Qed.

Lemma printableb_spec (s : str) :
  forallb printable_char s = true -> Forall printable s.
Proof.
  rewrite forallb_forall, Forall_forall; intros H c Hc.
  specialize (H c Hc); unfold printable_char in H.
  apply andb_true_iff in H; destruct H as [H1 H2].
  apply Z.leb_le in H1, H2. split; assumption.
Qed.

Lemma Forall_printable_ascii (s : str) : Forall printable s -> Forall ascii s.
Proof. apply Forall_impl; exact printable_ascii. Qed.

End PyFacts.

(** ** UTF-8: decoding what was encoded *)

Module Utf8Facts.
Import Py.

Lemma decode_replace_eq (b0 : Z) (t0 : bytes) :
  decode_replace (b0 :: t0) =
      if b0 <? 0x80 then b0 :: decode_replace t0
      else if b0 <? 0xC2 then REPLACEMENT :: decode_replace t0
      else if b0 <? 0xE0 then
        match t0 with
        | [] => [REPLACEMENT]
        | b1 :: t1 =>
            if is_cont b1
            then ((b0 - 0xC0) * 64 + (b1 - 0x80)) :: decode_replace t1
            else REPLACEMENT :: decode_replace t0
        end
      else if b0 <? 0xF0 then
        match t0 with
        | [] => [REPLACEMENT]
        | b1 :: t1 =>
            if second3_ok b0 b1 then
              match t1 with
              | [] => [REPLACEMENT]
              | b2 :: t2 =>
                  if is_cont b2
                  then ((b0 - 0xE0) * 4096 + (b1 - 0x80) * 64 + (b2 - 0x80))
                         :: decode_replace t2
                  else REPLACEMENT :: decode_replace t1
              end
            else REPLACEMENT :: decode_replace t0
        end
      else if b0 <? 0xF5 then
        match t0 with
        | [] => [REPLACEMENT]
        | b1 :: t1 =>
            if second4_ok b0 b1 then
              match t1 with
              | [] => [REPLACEMENT]
              | b2 :: t2 =>
                  if is_cont b2 then
                    match t2 with
                    | [] => [REPLACEMENT]
                    | b3 :: t3 =>
                        if is_cont b3
                        then ((b0 - 0xF0) * 262144 + (b1 - 0x80) * 4096
                              + (b2 - 0x80) * 64 + (b3 - 0x80))
                               :: decode_replace t3
                        else REPLACEMENT :: decode_replace t2
                    end
                  else REPLACEMENT :: decode_replace t1
              end
            else REPLACEMENT :: decode_replace t0
        end
      else REPLACEMENT :: decode_replace t0.
Proof. destruct t0 as [|b1 [|b2 [|b3 t3]]]; reflexivity. Qed.

Ltac cmp :=
  repeat match goal with
  | |- context [?a <? ?b] => destruct (Z.ltb_spec a b)
  | |- context [?a <=? ?b] => destruct (Z.leb_spec a b)
  | |- context [?a =? ?b] => destruct (Z.eqb_spec a b)
  end.

Lemma decode_encode_char (c : Z) (bs rest : bytes) :
  encode_char c = Some bs ->
  decode_replace (bs ++ rest) = c :: decode_replace rest.
Proof.
  unfold encode_char, is_surrogate.
  destruct (Z.ltb_spec c 0); [discriminate|].
  destruct (Z.ltb_spec c 0x80).
  { intros [= <-]. cbn [app]. rewrite decode_replace_eq.
    destruct (Z.ltb_spec c 0x80); [reflexivity|lia]. }
  destruct (Z.ltb_spec c 0x800).
  { intros [= <-]. cbn [app]. rewrite decode_replace_eq. unfold is_cont.
    assert (0 <= c mod 64 < 64) by (apply Z.mod_pos_bound; lia).
    assert (2 <= c / 64 < 32) by (Z.to_euclidean_division_equations; lia).
    assert (c = 64 * (c / 64) + c mod 64) by (apply Z.div_mod; lia).
    cmp; cbn [andb]; try lia. f_equal; lia. }
  destruct (Z.ltb_spec c 0x10000).
  { destruct (Z.leb_spec 0xD800 c); destruct (Z.leb_spec c 0xDFFF);
      cbn [andb]; try discriminate; intros [= <-]; cbn [app];
      rewrite decode_replace_eq; unfold second3_ok, is_cont.
    all: assert (0 <= c mod 64 < 64) by (apply Z.mod_pos_bound; lia).
    all: assert (0 <= (c / 64) mod 64 < 64) by (apply Z.mod_pos_bound; lia).
    all: assert (c = 64 * (c / 64) + c mod 64) by (apply Z.div_mod; lia).
    all: assert (c / 64 = 64 * (c / 64 / 64) + (c / 64) mod 64) by (apply Z.div_mod; lia).
    all: assert (c / 4096 = c / 64 / 64) by (rewrite Z.div_div by lia; reflexivity).
    all: assert (0 <= c / 4096 < 16) by (Z.to_euclidean_division_equations; lia).
    all: cmp; cbn [andb negb]; try lia; f_equal; lia. }
  destruct (Z.ltb_spec c 0x110000); [|discriminate].
  intros [= <-]; cbn [app]; rewrite decode_replace_eq; unfold second4_ok, is_cont.
  assert (0 <= c mod 64 < 64) by (apply Z.mod_pos_bound; lia).
  assert (0 <= (c / 64) mod 64 < 64) by (apply Z.mod_pos_bound; lia).
  assert (0 <= (c / 4096) mod 64 < 64) by (apply Z.mod_pos_bound; lia).
  assert (c = 64 * (c / 64) + c mod 64) by (apply Z.div_mod; lia).
  assert (c / 64 = 64 * (c / 64 / 64) + (c / 64) mod 64) by (apply Z.div_mod; lia).
  assert (c / 4096 = c / 64 / 64) by (rewrite Z.div_div by lia; reflexivity).
  assert (c / 4096 = 64 * (c / 4096 / 64) + (c / 4096) mod 64) by (apply Z.div_mod; lia).
  assert (c / 262144 = c / 4096 / 64) by (rewrite Z.div_div by lia; reflexivity).
  assert (0 <= c / 262144 < 5) by (Z.to_euclidean_division_equations; lia).
  cmp; cbn [andb negb]; try lia; f_equal; lia.
Qed.

Lemma decode_encode (s : str) :
  forall b, encode s = Some b -> decode_replace b = s.
Proof.
  induction s as [|c r IH]; intros b E; cbn [encode] in E.
  - injection E as <-. reflexivity.
  - destruct (encode_char c) as [bs|] eqn:C; [|discriminate].
    destruct (encode r) as [br|]; [|discriminate].
    injection E as <-.
    rewrite (decode_encode_char c bs br C), (IH br eq_refl). reflexivity.
Qed.

Lemma decode_replace_length_le (n : nat) :
  forall b : bytes,
    (List.length b <= n)%nat ->
    (List.length (decode_replace b) <= List.length b)%nat.
Proof.
  induction n as [|n IH]; intros [|b0 t0] Hb; cbn [List.length] in *;
    try (cbn; lia).
  rewrite decode_replace_eq.
  repeat match goal with
  | |- context [if ?c then _ else _] => destruct c
  | |- context [match ?t with [] => _ | _ :: _ => _ end] => destruct t
  end;
  cbn [List.length] in *;
  try lia;
  match goal with
  | |- context [decode_replace ?l] =>
      specialize (IH l); cbn [List.length] in IH; lia
  end.
Qed.

Lemma decode_replace_length (b : bytes) :
  (List.length (decode_replace b) <= List.length b)%nat.
Proof. exact (decode_replace_length_le (List.length b) b (le_n _)). Qed.

End Utf8Facts.

(** ** [json.dumps] writes printable ASCII *)

Module JsonFacts.
Import Py Json Values PyFacts.

(** Induction on values with the hypothesis for every item and member. *)
Section Induction.

Variable P : json -> Prop.
Hypothesis Pnull : P JNull.
Hypothesis Pbool : forall b, P (JBool b).
Hypothesis Pint : forall n, P (JInt n).
Hypothesis Pfloat : forall l, P (JFloat l).
Hypothesis Pstr : forall s, P (JStr s).
Hypothesis Plist : forall items, Forall P items -> P (JList items).
Hypothesis Pobj :
  forall members, Forall (fun kv => P (snd kv)) members -> P (JObj members).

Fixpoint json_nested_ind (v : json) : P v :=
  match v with
  | JNull => Pnull
  | JBool b => Pbool b
  | JInt n => Pint n
  | JFloat l => Pfloat l
  | JStr s => Pstr s
  | JList items =>
      Plist items
        ((fix go (l : list json) : Forall P l :=
            match l with
            | [] => Forall_nil P
            | x :: r => Forall_cons x (json_nested_ind x) (go r)
            end) items)
  | JObj members =>
      Pobj members
        ((fix go (l : list (str * json)) : Forall (fun kv => P (snd kv)) l :=
            match l with
            | [] => Forall_nil _
            | kv :: r =>
                Forall_cons (P := fun kv => P (snd kv)) kv
                  (json_nested_ind (snd kv)) (go r)
            end) members)
  end.

End Induction.

Ltac bool_hyps :=
  repeat match goal with
  | H : _ && _ = true |- _ => apply andb_true_iff in H; destruct H
  | H : _ || _ = false |- _ => apply orb_false_iff in H; destruct H
  | H : negb _ = true |- _ => apply negb_true_iff in H
  | H : (_ <=? _) = true |- _ => apply Z.leb_le in H
  | H : (_ <=? _) = false |- _ => apply Z.leb_gt in H
  | H : (_ <? _) = true |- _ => apply Z.ltb_lt in H
  | H : (_ <? _) = false |- _ => apply Z.ltb_ge in H
  | H : (_ =? _) = true |- _ => apply Z.eqb_eq in H
  | H : (_ =? _) = false |- _ => apply Z.eqb_neq in H
  end.

Lemma hex_digit_printable (d : Z) : 0 <= d < 16 -> printable (hex_digit d).
Proof.
  intros H; unfold hex_digit, printable.
  destruct (d <? 10) eqn:E; bool_hyps; lia.
Qed.

Lemma hex4_printable (n : Z) : 0 <= n < 65536 -> Forall printable (hex4 n).
Proof.
  intros H; unfold hex4.
  repeat (apply Forall_cons; [apply hex_digit_printable|]);
    [..|apply Forall_nil]; Z.to_euclidean_division_equations; lia.
Qed.

Lemma u_escape_printable (n : Z) :
  0 <= n < 65536 -> Forall printable (u_escape n).
Proof.
  intros H; unfold u_escape.
  constructor; [unfold printable; lia|].
  constructor; [unfold printable; lia|].
  apply hex4_printable; exact H.
Qed.

Lemma escape_char_printable (c : Z) :
  code_point c = true -> Forall printable (escape_char c).
Proof.
  intros H; unfold code_point in H; bool_hyps. unfold escape_char.
  repeat match goal with
  | |- context [if ?b then _ else _] =>
      let E := fresh "E" in destruct b eqn:E;
      [try (repeat constructor; unfold printable; lia)|]
  end; bool_hyps.
  - apply u_escape_printable; lia.
  - apply Forall_app; split; apply u_escape_printable.
    + pose proof (Z.mod_pos_bound ((c - 65536) / 1024) 1024 ltac:(lia)); lia.
    + pose proof (Z.mod_pos_bound (c - 65536) 1024 ltac:(lia)); lia.
Qed.

Lemma encode_basestring_ascii_printable (s : str) :
  forallb code_point s = true -> Forall printable (encode_basestring_ascii s).
Proof.
  intros H; unfold encode_basestring_ascii.
  constructor; [unfold printable; lia|].
  apply Forall_app; split; [|repeat constructor; unfold printable; lia].
  induction s as [|c s IH]; simpl in *; [constructor|].
  bool_hyps. apply Forall_app; split;
    [apply escape_char_printable; assumption | apply IH; assumption].
Qed.

#[local] Opaque encode_basestring_ascii str_of_int.

Lemma join_comma_printable (parts : list str) :
  Forall (Forall printable) parts -> Forall printable (join_comma parts).
Proof.
  induction 1 as [|p rest Hp Hrest IH]; [constructor|].
  destruct rest as [|q rest]; [exact Hp|].
  change (join_comma (p :: q :: rest))
    with (p ++ 44 :: 32 :: join_comma (q :: rest)).
  apply Forall_app; split; [exact Hp|].
  constructor; [unfold printable; lia|].
  constructor; [unfold printable; lia|exact IH].
Qed.

Lemma dumps_printable (v : json) : valid v = true -> Forall printable (dumps v).
Proof.
  induction v as [| b | n | l | s | items IH | members IH]
    using json_nested_ind; intros Hv; simpl in Hv.
  - apply printableb_spec; reflexivity.
  - destruct b; apply printableb_spec; reflexivity.
  - apply str_of_int_printable.
  - apply printableb_spec; exact Hv.
  - apply encode_basestring_ascii_printable; exact Hv.
  - simpl. constructor; [unfold printable; lia|].
    apply Forall_app; split; [|repeat constructor; unfold printable; lia].
    apply join_comma_printable.
    induction IH as [|x r Hx _ IHr]; simpl in *; [constructor|].
    bool_hyps; constructor; auto.
  - simpl. constructor; [unfold printable; lia|].
    apply Forall_app; split; [|repeat constructor; unfold printable; lia].
    apply join_comma_printable.
    induction IH as [|kv r Hx _ IHr]; simpl in *; [constructor|].
    bool_hyps; constructor; auto.
    apply Forall_app; split;
      [apply encode_basestring_ascii_printable; assumption|].
    constructor; [unfold printable; lia|].
    constructor; [unfold printable; lia|auto].
Qed.

(** ** [scanstring] reads back what [encode_basestring_ascii] wrote *)

Lemma scanstring_plain (c : Z) (r : str) :
  c <> 34 -> c <> 92 -> 31 < c -> scanstring (c :: r) = emit c (scanstring r).
Proof.
  intros H1 H2 H3; simpl.
  apply Z.eqb_neq in H1, H2; rewrite H1, H2.
  replace (c <=? 31) with false by (symmetry; apply Z.leb_gt; lia).
  reflexivity.
Qed.

Lemma scanstring_escape (e d : Z) (r : str) :
  e <> 117 -> backslash e = Some d ->
  scanstring (92 :: e :: r) = emit d (scanstring r).
Proof.
  intros H1 H2; simpl.
  apply Z.eqb_neq in H1; rewrite H1, H2; reflexivity.
Qed.

Lemma scanstring_u (h1 h2 h3 h4 x c1 : Z) (r : str) :
  unhex4 h1 h2 h3 h4 = Some c1 -> is_high_surrogate c1 = false ->
  scanstring (92 :: 117 :: h1 :: h2 :: h3 :: h4 :: x :: r)
  = emit c1 (scanstring (x :: r)).
Proof.
  intros H1 H2.
  change (scanstring (92 :: 117 :: h1 :: h2 :: h3 :: h4 :: x :: r))
    with (match unhex4 h1 h2 h3 h4 with
          | None => None
          | Some c1 =>
              if is_high_surrogate c1 && (6 <? len (x :: r)) && (x =? 92)
              then
                match r with
                | x2 :: g1 :: g2 :: g3 :: g4 :: r4 =>
                    if x2 =? 117 then
                      match unhex4 g1 g2 g3 g4 with
                      | None => None
                      | Some c2 =>
                          if is_low_surrogate c2
                          then emit (join_surrogates c1 c2) (scanstring r4)
                          else emit c1 (scanstring (x :: r))
                      end
                    else emit c1 (scanstring (x :: r))
                | _ => emit c1 (scanstring (x :: r))
                end
              else emit c1 (scanstring (x :: r))
          end).
  rewrite H1, H2; reflexivity.
Qed.

Lemma scanstring_pair (h1 h2 h3 h4 g1 g2 g3 g4 x c1 c2 : Z) (r : str) :
  unhex4 h1 h2 h3 h4 = Some c1 -> is_high_surrogate c1 = true ->
  unhex4 g1 g2 g3 g4 = Some c2 -> is_low_surrogate c2 = true ->
  scanstring (92 :: 117 :: h1 :: h2 :: h3 :: h4
              :: 92 :: 117 :: g1 :: g2 :: g3 :: g4 :: x :: r)
  = emit (join_surrogates c1 c2) (scanstring (x :: r)).
Proof.
  intros H1 H2 H3 H4.
  change (scanstring (92 :: 117 :: h1 :: h2 :: h3 :: h4
                      :: 92 :: 117 :: g1 :: g2 :: g3 :: g4 :: x :: r))
    with (match unhex4 h1 h2 h3 h4 with
          | None => None
          | Some c1 =>
              if is_high_surrogate c1
                 && (6 <? len (92 :: 117 :: g1 :: g2 :: g3 :: g4 :: x :: r))
                 && (92 =? 92)
              then
                if 117 =? 117 then
                  match unhex4 g1 g2 g3 g4 with
                  | None => None
                  | Some c2 =>
                      if is_low_surrogate c2
                      then emit (join_surrogates c1 c2) (scanstring (x :: r))
                      else emit c1 (scanstring
                                      (92 :: 117 :: g1 :: g2 :: g3 :: g4 :: x :: r))
                  end
                else emit c1 (scanstring
                                (92 :: 117 :: g1 :: g2 :: g3 :: g4 :: x :: r))
              else emit c1 (scanstring
                              (92 :: 117 :: g1 :: g2 :: g3 :: g4 :: x :: r))
          end).
  rewrite H1, H2, H3, H4.
  replace (6 <? len (92 :: 117 :: g1 :: g2 :: g3 :: g4 :: x :: r)) with true.
  - reflexivity.
  - symmetry; apply Z.ltb_lt. unfold len; simpl List.length. lia.
Qed.

Lemma hex_value_hex_digit (d : Z) :
  0 <= d < 16 -> hex_value (hex_digit d) = Some d.
Proof.
  intros H; unfold hex_digit, hex_value.
  destruct (d <? 10) eqn:E; bool_hyps.
  - replace ((48 <=? 48 + d) && (48 + d <=? 57)) with true
      by (symmetry; apply andb_true_iff; split; apply Z.leb_le; lia).
    f_equal; lia.
  - replace ((48 <=? 87 + d) && (87 + d <=? 57)) with false
      by (symmetry; apply andb_false_iff; right; apply Z.leb_gt; lia).
    replace ((97 <=? 87 + d) && (87 + d <=? 102)) with true
      by (symmetry; apply andb_true_iff; split; apply Z.leb_le; lia).
    f_equal; lia.
Qed.

Lemma unhex4_hex4 (n : Z) :
  0 <= n < 65536 ->
  unhex4 (hex_digit (n / 4096)) (hex_digit ((n / 256) mod 16))
         (hex_digit ((n / 16) mod 16)) (hex_digit (n mod 16)) = Some n.
Proof.
  intros H; unfold unhex4.
  rewrite !hex_value_hex_digit
    by (Z.to_euclidean_division_equations; lia).
  f_equal; Z.to_euclidean_division_equations; lia.
Qed.

Lemma scanstring_u_escape (n x : Z) (r : str) :
  0 <= n < 65536 -> is_high_surrogate n = false ->
  scanstring (u_escape n ++ x :: r) = emit n (scanstring (x :: r)).
Proof.
  intros H1 H2. unfold u_escape, hex4.
  exact (scanstring_u _ _ _ _ x n r (unhex4_hex4 n H1) H2).
Qed.

Lemma scanstring_surrogates (hi lo x : Z) (r : str) :
  is_high_surrogate hi = true -> is_low_surrogate lo = true ->
  scanstring (u_escape hi ++ u_escape lo ++ x :: r)
  = emit (join_surrogates hi lo) (scanstring (x :: r)).
Proof.
  intros H1 H2.
  assert (B1 : 0 <= hi < 65536)
    by (unfold is_high_surrogate in H1; bool_hyps; lia).
  assert (B2 : 0 <= lo < 65536)
    by (unfold is_low_surrogate in H2; bool_hyps; lia).
  unfold u_escape, hex4.
  exact (scanstring_pair _ _ _ _ _ _ _ _ x hi lo r
           (unhex4_hex4 hi B1) H1 (unhex4_hex4 lo B2) H2).
Qed.

Lemma scanstring_escape_char (c x : Z) (r : str) :
  scalar c = true ->
  scanstring (escape_char c ++ x :: r) = emit c (scanstring (x :: r)).
Proof.
  intros H; unfold scalar, code_point, is_surrogate in H; bool_hyps.
  unfold escape_char.
  destruct (c =? 34) eqn:E1; bool_hyps;
    [subst; apply scanstring_escape; [lia|reflexivity]|].
  destruct (c =? 92) eqn:E2; bool_hyps;
    [subst; apply scanstring_escape; [lia|reflexivity]|].
  destruct (c =? 8) eqn:E3; bool_hyps;
    [subst; apply scanstring_escape; [lia|reflexivity]|].
  destruct (c =? 12) eqn:E4; bool_hyps;
    [subst; apply scanstring_escape; [lia|reflexivity]|].
  destruct (c =? 10) eqn:E5; bool_hyps;
    [subst; apply scanstring_escape; [lia|reflexivity]|].
  destruct (c =? 13) eqn:E6; bool_hyps;
    [subst; apply scanstring_escape; [lia|reflexivity]|].
  destruct (c =? 9) eqn:E7; bool_hyps;
    [subst; apply scanstring_escape; [lia|reflexivity]|].
  destruct ((32 <=? c) && (c <=? 126)) eqn:E8; bool_hyps;
    [apply scanstring_plain; lia|].
  destruct (c <? 65536) eqn:E9; bool_hyps.
  - apply scanstring_u_escape; [lia|].
    unfold is_high_surrogate.
    apply andb_false_iff.
    destruct (Z.leb_spec 55296 c); [right|left; reflexivity].
    apply Z.leb_gt.
    match goal with
    | H : (_ <=? _) && (_ <=? _) = false |- _ =>
        apply andb_false_iff in H; destruct H; bool_hyps; lia
    end.
  - rewrite <- app_assoc.
    rewrite scanstring_surrogates.
    + f_equal. unfold join_surrogates.
      Z.to_euclidean_division_equations; lia.
    + unfold is_high_surrogate. apply andb_true_iff; split; apply Z.leb_le;
        Z.to_euclidean_division_equations; lia.
    + unfold is_low_surrogate. apply andb_true_iff; split; apply Z.leb_le;
        Z.to_euclidean_division_equations; lia.
Qed.

Lemma scanstring_flat_map (s rest : str) :
  text s = true ->
  scanstring (flat_map escape_char s ++ 34 :: rest) = Some (s, rest).
Proof.
  induction s as [|c s IH]; intros H.
  - reflexivity.
  - simpl in H; apply andb_true_iff in H; destruct H as [Hc Hs].
    change (flat_map escape_char (c :: s))
      with (escape_char c ++ flat_map escape_char s).
    rewrite <- app_assoc.
    destruct (flat_map escape_char s ++ 34 :: rest) as [|x r] eqn:E.
    + destruct (flat_map escape_char s); discriminate.
    + rewrite scanstring_escape_char by exact Hc.
      rewrite IH by exact Hs. reflexivity.
Qed.

Lemma encode_basestring_ascii_eq (s : str) :
  encode_basestring_ascii s = 34 :: flat_map escape_char s ++ [34].
Proof. reflexivity. Qed.

(** The string scanner on an encoded string followed by [rest]. *)
Lemma scanstring_encode (s rest : str) :
  text s = true ->
  exists body, encode_basestring_ascii s ++ rest = 34 :: body
               /\ scanstring body = Some (s, rest).
Proof.
  intros H. exists (flat_map escape_char s ++ 34 :: rest). split.
  - rewrite encode_basestring_ascii_eq. simpl. rewrite <- app_assoc. reflexivity.
  - apply scanstring_flat_map; exact H.
Qed.

End JsonFacts.

(** ** [json.loads] reads back what [json.dumps] wrote *)

Module RoundTrip.
Import Py Json Values PyFacts JsonFacts.

Lemma span_digits_app (ds rest : str) :
  Forall digit ds -> delimited rest -> span_digits (ds ++ rest) = (ds, rest).
Proof.
  intros F D; induction F as [|d ds Hd _ IH]; simpl.
  - destruct rest as [|c r]; [reflexivity|]. simpl in D. simpl.
    unfold is_ascii_digit.
    replace ((48 <=? c) && (c <=? 57)) with false; [reflexivity|].
    symmetry; apply andb_false_iff.
    destruct D as [-> | [-> | ->]]; [left | right | right]; reflexivity.
  - unfold is_ascii_digit. destruct Hd as [H1 H2].
    replace ((48 <=? d) && (d <=? 57)) with true
      by (symmetry; apply andb_true_iff; split; apply Z.leb_le; lia).
    rewrite IH; reflexivity.
Qed.

Lemma match_frac_delimited (rest : str) :
  delimited rest -> match_frac rest = ([], rest).
Proof.
  destruct rest as [|c r]; [reflexivity|]; simpl; intros D.
  replace (c =? 46) with false; [reflexivity|].
  symmetry; apply Z.eqb_neq; lia.
Qed.

Lemma match_exp_delimited (rest : str) :
  delimited rest -> match_exp rest = ([], rest).
Proof.
  destruct rest as [|c r]; [reflexivity|]; simpl; intros D.
  replace ((c =? 101) || (c =? 69)) with false; [reflexivity|].
  symmetry; apply orb_false_iff; split; apply Z.eqb_neq; lia.
Qed.

Lemma match_int_part_digits (n : Z) (rest : str) :
  0 <= n -> delimited rest ->
  match_int_part (digits n ++ rest) = Some (digits n, rest).
Proof.
  intros Hn D. destruct (digits_spec n Hn) as (F & NE & _ & Hd).
  destruct (digits n) as [|d ds]; [contradiction|].
  inversion F as [|? ? [H1 H2] Fds]; subst.
  simpl. destruct (Z.eq_dec d 48) as [->|N].
  - simpl in Hd. injection (Hd eq_refl) as ->. reflexivity.
  - replace ((49 <=? d) && (d <=? 57)) with true
      by (symmetry; apply andb_true_iff; split; apply Z.leb_le; lia).
    rewrite (span_digits_app ds rest Fds D). reflexivity.
Qed.

(** The number scanner on a printed integer. *)
Lemma match_number_int (n : Z) (rest : str) :
  delimited rest ->
  match_number (str_of_int n ++ rest) = Some (JInt n, rest).
Proof.
  intros D. unfold str_of_int. destruct (n <? 0) eqn:E; bool_hyps.
  - unfold match_number.
    change ((45 :: digits (- n)) ++ rest) with (45 :: digits (- n) ++ rest).
    cbv iota beta. rewrite Z.eqb_refl.
    rewrite match_int_part_digits by (lia || exact D).
    rewrite (match_frac_delimited rest D), (match_exp_delimited rest D).
    destruct (digits_spec (- n)) as (_ & _ & I & _); [lia|].
    rewrite I, Z.opp_involutive. reflexivity.
  - destruct (digits_spec n E) as (F & NE & I & _).
    pose proof (match_int_part_digits n rest E D) as M.
    unfold match_number.
    destruct (digits n) as [|d ds]; [contradiction|].
    cbn [app] in *. 
    inversion F as [|? ? [H1 H2] _]; subst.
    replace (d =? 45) with false by (symmetry; apply Z.eqb_neq; lia).
    destruct (match_int_part (d :: ds ++ rest)) as [[ip r1]|]; [|discriminate].
    injection M as -> ->.
    rewrite (match_frac_delimited rest D), (match_exp_delimited rest D).
    reflexivity.
Qed.

(** The first character of a printed integer. *)
Lemma str_of_int_head (n : Z) :
  exists c t, str_of_int n = c :: t
              /\ (c = 45 /\ (exists d t', t = d :: t' /\ digit d) \/ digit c).
Proof.
  unfold str_of_int. destruct (n <? 0) eqn:E; bool_hyps.
  - destruct (digits_spec (- n)) as (F & NE & _); [lia|].
    destruct (digits (- n)) as [|d ds]; [contradiction|].
    inversion F; subst. exists 45, (d :: ds). split; [reflexivity|].
    left; split; [reflexivity|]. exists d, ds; auto.
  - destruct (digits_spec n E) as (F & NE & _).
    destruct (digits n) as [|d ds]; [contradiction|].
    inversion F; subst. exists d, ds. auto.
Qed.

Lemma scan_once_number (f : nat) (c : Z) (r : str) :
  digit c \/ (c = 45 /\ exists d t, r = d :: t /\ digit d) ->
  scan_once (S f) (c :: r) = of_option (match_number (c :: r)).
Proof.
  intros H.
  assert (N : c <> 34 /\ c <> 123 /\ c <> 91 /\ c <> 110 /\ c <> 116
              /\ c <> 102 /\ c <> 78 /\ c <> 73)
    by (unfold digit in H; destruct H as [H | [-> _]]; lia).
  destruct N as (N1 & N2 & N3 & N4 & N5 & N6 & N7 & N8).
  apply Z.eqb_neq in N1, N2, N3, N4, N5, N6, N7, N8.
  cbn [scan_once]. rewrite N1, N2, N3, N4, N5, N6, N7, N8.
  destruct (c =? 45) eqn:E; [|reflexivity].
  destruct H as [[H1 H2] | [_ (d & t & -> & [H1 H2])]]; [bool_hyps; lia|].
  cbn [strip_prefix lit]. 
  replace (Z.of_N (N_of_ascii "I") =? d) with false; [reflexivity|].
  symmetry; apply Z.eqb_neq. change (Z.of_N (N_of_ascii "I")) with 73. lia.
Qed.

Lemma scan_once_int (f : nat) (n : Z) (rest : str) :
  delimited rest ->
  scan_once (S f) (str_of_int n ++ rest) = Scanned (JInt n) rest.
Proof.
  intros D. pose proof (match_number_int n rest D) as M.
  destruct (str_of_int_head n) as (c & t & E & H).
  rewrite E in *. change ((c :: t) ++ rest) with (c :: t ++ rest) in *.
  rewrite scan_once_number.
  - rewrite M; reflexivity.
  - destruct H as [[-> (d & t' & -> & Hd)] | H]; [right | left; exact H].
    split; [reflexivity|]. exists d, (t' ++ rest); auto.
Qed.

(** *** Dictionaries built from distinct keys *)

Lemma distinct_NoDup (l : list str) : distinct l = true -> NoDup l.
Proof.
  induction l as [|k r IH]; simpl; intros H; [constructor|].
  apply andb_true_iff in H; destruct H as [H1 H2].
  constructor; [|apply IH; exact H2].
  intros Hin. apply negb_true_iff in H1.
  assert (existsb (str_eqb k) r = true); [|congruence].
  apply existsb_exists. exists k; split; [exact Hin|apply str_eqb_refl].
Qed.

Lemma set_fresh {V} (d : dict V) (k : str) (v : V) :
  ~ In k (map fst d) -> set d k v = d ++ [(k, v)].
Proof.
  induction d as [|[k' v'] d IH]; simpl; intros H; [reflexivity|].
  rewrite str_eqb_neq by tauto. rewrite IH by tauto. reflexivity.
Qed.

Lemma fold_set_distinct {V} (l d : dict V) :
  NoDup (map fst (d ++ l)) ->
  fold_left (fun d kv => set d (fst kv) (snd kv)) l d = d ++ l.
Proof.
  revert d; induction l as [|[k v] l IH]; intros d H; simpl.
  - rewrite app_nil_r; reflexivity.
  - rewrite set_fresh.
    + rewrite IH; rewrite <- app_assoc; [reflexivity|exact H].
    + rewrite map_app in H; simpl in H.
      apply NoDup_remove_2 in H. intros Hin; apply H.
      apply in_or_app; left; exact Hin.
Qed.

Lemma of_pairs_distinct {V} (l : dict V) :
  distinct (map fst l) = true -> of_pairs l = l.
Proof.
  intros H; unfold of_pairs.
  apply (fold_set_distinct l []). apply distinct_NoDup; exact H.
Qed.

(** *** The first character of a printed value *)

Lemma dumps_head (v : json) :
  plain v = true -> exists c t, dumps v = c :: t /\ value_start c.
Proof.
  unfold value_start; destruct v as [| [|] | n | l | s | items | members];
    simpl; intros H; try discriminate; try (do 2 eexists; split;
      [reflexivity | tauto]).
  destruct (str_of_int_head n) as (c & t & E & Hc).
  exists c, t; split; [exact E|]. destruct Hc as [[-> _] | Hd]; tauto.
Qed.

Lemma skip_ws_value_start (c : Z) (t : str) :
  value_start c -> skip_ws (c :: t) = c :: t.
Proof.
  intros H; simpl. replace (is_ws c) with false; [reflexivity|].
  symmetry; unfold is_ws, value_start, digit in *.
  repeat (apply orb_false_iff; split); apply Z.eqb_neq; lia.
Qed.

Lemma skip_ws_space_value (s t : str) (v : json) :
  plain v = true -> skip_ws (32 :: (dumps v ++ s) ++ t) = (dumps v ++ s) ++ t.
Proof.
  intros H. destruct (dumps_head v H) as (c & r & E & Hc).
  change (skip_ws (32 :: (dumps v ++ s) ++ t))
    with (skip_ws ((dumps v ++ s) ++ t)).
  rewrite E. apply (skip_ws_value_start c _ Hc).
Qed.

Lemma join_comma_cons (p q : str) (r : list str) :
  join_comma (p :: q :: r) = p ++ 44 :: 32 :: join_comma (q :: r).
Proof. reflexivity. Qed.

(** *** One value, then the items of a list and the members of a dict *)

Lemma parse_items_eq (f : nat) (s : str) (acc : list json) :
  parse_items (S f) s acc
  = match scan_once f s with
    | Scanned v r1 =>
        match skip_ws r1 with
        | [] => Failed
        | x :: r2 =>
            if x =? 93 then Scanned (JList (acc ++ [v])) r2
            else if x =? 44 then parse_items f (skip_ws r2) (acc ++ [v])
            else Failed
        end
    | other => other
    end.
Proof. reflexivity. Qed.

Lemma parse_items_dumps (items : list json) :
  Forall reads_back items -> items <> [] ->
  forall fuel acc rest,
    (List.length (join_comma (map dumps items)) < fuel)%nat ->
    forallb plain items = true ->
    parse_items fuel (join_comma (map dumps items) ++ 93 :: rest) acc
    = Scanned (JList (acc ++ items)) rest.
Proof.
  induction 1 as [|x r Hx Hr IH]; intros NE fuel acc rest Hf Hp;
    [contradiction|].
  destruct fuel as [|f]; [lia|].
  simpl in Hp; apply andb_true_iff in Hp; destruct Hp as [Px Pr].
  rewrite parse_items_eq. destruct r as [|y r'].
  - simpl map in *; simpl join_comma in *.
    rewrite (Hx f (93 :: rest)); [|lia|simpl; tauto|exact Px].
    reflexivity.
  - change (map dumps (x :: y :: r')) with (dumps x :: map dumps (y :: r')) in *.
    change (map dumps (y :: r')) with (dumps y :: map dumps r') in *.
    rewrite join_comma_cons in *. rewrite length_app in Hf.
    simpl List.length in Hf. rewrite <- app_assoc.
    rewrite (Hx f); [|lia|simpl; tauto|exact Px].
    change (skip_ws ((44 :: 32 :: join_comma (dumps y :: map dumps r'))
                     ++ 93 :: rest))
      with (44 :: (32 :: join_comma (dumps y :: map dumps r')) ++ 93 :: rest).
    cbv iota beta.
    change (44 =? 93) with false; change (44 =? 44) with true. cbv iota.
    replace (skip_ws ((32 :: join_comma (dumps y :: map dumps r')) ++ 93 :: rest))
      with (join_comma (dumps y :: map dumps r') ++ 93 :: rest).
    + change (dumps y :: map dumps r') with (map dumps (y :: r')).
      rewrite IH; [|discriminate|simpl in *; lia|exact Pr].
      rewrite <- app_assoc; reflexivity.
    + simpl in Pr; apply andb_true_iff in Pr; destruct Pr as [Py _].
      symmetry. destruct r' as [|z r''].
      * simpl join_comma.
        rewrite <- (app_nil_r (dumps y)) at 1 2.
        apply (skip_ws_space_value [] (93 :: rest) y Py).
      * change (map dumps (z :: r'')) with (dumps z :: map dumps r'').
        rewrite join_comma_cons.
        apply (skip_ws_space_value _ (93 :: rest) y Py).
Qed.

Lemma skip_ws_space_dumps (v : json) (t : str) :
  plain v = true -> skip_ws (32 :: dumps v ++ t) = dumps v ++ t.
Proof.
  intros H. destruct (dumps_head v H) as (c & r & E & Hc).
  change (skip_ws (32 :: dumps v ++ t)) with (skip_ws (dumps v ++ t)).
  rewrite E. apply (skip_ws_value_start c _ Hc).
Qed.

Lemma parse_members_eq (f : nat) (r : str) (acc : list (str * json)) :
  parse_members (S f) (34 :: r) acc
  = match scanstring r with
    | None => Failed
    | Some (key, r1) =>
        match skip_ws r1 with
        | [] => Failed
        | colon :: r2 =>
            if colon =? 58 then
              match scan_once f (skip_ws r2) with
              | Scanned v r3 =>
                  match skip_ws r3 with
                  | [] => Failed
                  | x :: r4 =>
                      if x =? 125
                      then Scanned (JObj (of_pairs (acc ++ [(key, v)]))) r4
                      else if x =? 44
                      then parse_members f (skip_ws r4) (acc ++ [(key, v)])
                      else Failed
                  end
              | other => other
              end
            else Failed
        end
    end.
Proof. reflexivity. Qed.

Lemma members_head (kv : str * json) (r : list (str * json)) :
  exists t, join_comma (map member_text (kv :: r)) = 34 :: t.
Proof.
  destruct r as [|y r]; simpl map.
  - simpl join_comma. unfold member_text.
    rewrite encode_basestring_ascii_eq. eexists; reflexivity.
  - rewrite join_comma_cons. unfold member_text at 1.
    rewrite encode_basestring_ascii_eq. eexists; reflexivity.
Qed.

Lemma parse_members_dumps (members : list (str * json)) :
  Forall (fun kv => reads_back (snd kv)) members -> members <> [] ->
  forall fuel acc rest,
    (List.length (join_comma (map member_text members)) < fuel)%nat ->
    forallb (fun kv => text (fst kv) && plain (snd kv)) members = true ->
    parse_members fuel (join_comma (map member_text members) ++ 125 :: rest) acc
    = Scanned (JObj (of_pairs (acc ++ members))) rest.
Proof.
  induction 1 as [|[k v] r Hx Hr IH]; intros NE fuel acc rest Hf Hp;
    [contradiction|].
  destruct fuel as [|f]; [lia|].
  simpl in Hp; apply andb_true_iff in Hp; destruct Hp as [Px Pr].
  apply andb_true_iff in Px; destruct Px as [Pk Pv]. simpl in Hx.
  assert (forall following,
             delimited following ->
             (List.length (member_text (k, v)) <= f)%nat ->
             parse_members (S f) (member_text (k, v) ++ following) acc
             = match skip_ws following with
               | [] => Failed
               | x :: r4 =>
                   if x =? 125
                   then Scanned (JObj (of_pairs (acc ++ [(k, v)]))) r4
                   else if x =? 44
                   then parse_members f (skip_ws r4) (acc ++ [(k, v)])
                   else Failed
               end) as Step.
  { intros following D Hlen. unfold member_text in *. simpl fst in *; simpl snd in *.
    rewrite length_app in Hlen. simpl List.length in Hlen.
    rewrite <- app_assoc.
    destruct (scanstring_encode k ((58 :: 32 :: dumps v) ++ following) Pk)
      as (body & -> & Sc).
    rewrite parse_members_eq, Sc.
    change (skip_ws ((58 :: 32 :: dumps v) ++ following))
      with (58 :: 32 :: dumps v ++ following).
    cbv iota beta. change (58 =? 58) with true. cbv iota.
    rewrite (skip_ws_space_dumps v following Pv).
    rewrite (Hx f following); [reflexivity|lia|exact D|exact Pv]. }
  destruct r as [|y r'].
  - simpl map in *; simpl join_comma in *.
    rewrite Step; [reflexivity|simpl; tauto|lia].
  - change (map member_text ((k, v) :: y :: r'))
      with (member_text (k, v) :: map member_text (y :: r')) in *.
    change (map member_text (y :: r'))
      with (member_text y :: map member_text r') in *.
    rewrite join_comma_cons in *. rewrite length_app in Hf.
    cbn [List.length] in Hf. rewrite <- app_assoc.
    rewrite Step; [|simpl; tauto|lia].
    change (skip_ws ((44 :: 32 :: join_comma (member_text y :: map member_text r'))
                     ++ 125 :: rest))
      with (44 :: (32 :: join_comma (member_text y :: map member_text r'))
                  ++ 125 :: rest).
    cbv iota beta.
    change (44 =? 125) with false; change (44 =? 44) with true. cbv iota.
    change (member_text y :: map member_text r')
      with (map member_text (y :: r')) in *.
    destruct (members_head y r') as (t & Et).
    replace (skip_ws ((32 :: join_comma (map member_text (y :: r')))
                      ++ 125 :: rest))
      with (join_comma (map member_text (y :: r')) ++ 125 :: rest)
      by (rewrite Et; reflexivity).
    rewrite IH; [|discriminate|lia|exact Pr].
    rewrite <- app_assoc; reflexivity.
Qed.

#[local] Opaque encode_basestring_ascii str_of_int.

(** Every plain value is read back from its print. *)
Lemma dumps_reads_back (v : json) : reads_back v.
Proof.
  induction v as [| b | n | l | s | items IH | members IH]
    using json_nested_ind; intros fuel rest Hf D Hp.
  - destruct fuel as [|f]; [simpl in Hf; lia|reflexivity].
  - destruct fuel as [|f]; [destruct b; simpl in Hf; lia|].
    destruct b; reflexivity.
  - destruct fuel as [|f].
    + destruct (str_of_int_head n) as (c & t & E & _).
      simpl in Hf; rewrite E in Hf; simpl in Hf; lia.
    + apply scan_once_int; exact D.
  - discriminate.
  - destruct fuel as [|f].
    + simpl in Hf; rewrite encode_basestring_ascii_eq in Hf; simpl in Hf; lia.
    + simpl in Hp. simpl dumps.
      destruct (scanstring_encode s rest Hp) as (body & -> & Sc).
      cbn [scan_once]. change (34 =? 34) with true. cbv iota.
      rewrite Sc; reflexivity.
  - destruct fuel as [|f]; [simpl in Hf; lia|].
    simpl in Hp. simpl dumps in *. simpl List.length in Hf.
    rewrite length_app in Hf; simpl List.length in Hf.
    change ((91 :: join_comma (map dumps items) ++ [93]) ++ rest)
      with (91 :: (join_comma (map dumps items) ++ [93]) ++ rest).
    rewrite <- app_assoc. cbn [scan_once].
    change (91 =? 34) with false; change (91 =? 123) with false;
      change (91 =? 91) with true. cbv iota.
    destruct items as [|x r]; [reflexivity|].
    pose proof Hp as Hp'. simpl in Hp'. apply andb_true_iff in Hp'.
    destruct Hp' as [Px _].
    destruct (dumps_head x Px) as (c & t & E & Hc).
    assert (exists t', join_comma (map dumps (x :: r)) ++ [93] ++ rest = c :: t')
      as (t' & Et).
    { destruct r; simpl map; [simpl join_comma | rewrite join_comma_cons];
        rewrite E; eexists; reflexivity. }
    rewrite Et, (skip_ws_value_start c t' Hc).
    replace (c =? 93) with false
      by (symmetry; apply Z.eqb_neq; unfold value_start, digit in Hc; lia).
    rewrite <- Et.
    apply (parse_items_dumps (x :: r) IH ltac:(discriminate) f [] rest);
      [lia|exact Hp].
  - destruct fuel as [|f]; [simpl in Hf; lia|].
    simpl in Hp. apply andb_true_iff in Hp; destruct Hp as [Hd Hp].
    simpl dumps in *. fold member_text in *. simpl List.length in Hf.
    change (fun kv : str * json =>
              encode_basestring_ascii (fst kv) ++ 58 :: 32 :: dumps (snd kv))
      with member_text in *.
    rewrite length_app in Hf; simpl List.length in Hf.
    change ((123 :: join_comma (map member_text members) ++ [125]) ++ rest)
      with (123 :: (join_comma (map member_text members) ++ [125]) ++ rest).
    rewrite <- app_assoc. cbn [scan_once].
    change (123 =? 34) with false; change (123 =? 123) with true. cbv iota.
    destruct members as [|x r]; [reflexivity|].
    destruct (members_head x r) as (t & Et).
    rewrite Et.
    change (skip_ws ((34 :: t) ++ [125] ++ rest))
      with (34 :: t ++ [125] ++ rest).
    cbv iota beta. change (34 =? 125) with false. cbv iota.
    change (34 :: t ++ [125] ++ rest) with ((34 :: t) ++ 125 :: rest).
    rewrite <- Et.
    rewrite (parse_members_dumps (x :: r) IH ltac:(discriminate) f [] rest);
      [|unfold str in *; lia|exact Hp].
    rewrite app_nil_l, of_pairs_distinct by exact Hd. reflexivity.
Qed.

(** [json.loads(json.dumps(v)) == v] for plain values. *)
Lemma loads_dumps (v : json) : plain v = true -> loads (dumps v) = Some v.
Proof.
  intros Hp. unfold loads.
  destruct (dumps_head v Hp) as (c & t & E & Hc).
  pose proof (dumps_reads_back v (S (List.length (dumps v))) []
                ltac:(lia) I Hp) as R.
  rewrite app_nil_r in R.
  rewrite E in *.
  replace (c =? 65279) with false
    by (symmetry; apply Z.eqb_neq; unfold value_start, digit in Hc; lia).
  rewrite (skip_ws_value_start c t Hc), R. reflexivity.
Qed.

End RoundTrip.

(** ** The fuel of [json.loads] *)

Module ScanFacts.
Import Py Json Values.

(** Case analysis on every test and every scrutinee of the goal. *)
Ltac cases :=
  repeat match goal with
  | |- context [if ?c then _ else _] => destruct c eqn:?
  | |- context [match ?x with _ => _ end] =>
      first [is_var x; destruct x | destruct x eqn:?]
  end.

Lemma skip_ws_length (s : str) : (List.length (skip_ws s) <= List.length s)%nat.
Proof.
  induction s as [|c r IH]; cbn [skip_ws]; [lia|].
  destruct (is_ws c); cbn [List.length]; lia.
Qed.

Lemma strip_prefix_length (p : str) :
  forall s rest, strip_prefix p s = Some rest -> (List.length rest <= List.length s)%nat.
Proof.
  induction p as [|x p IH]; intros s rest; cbn [strip_prefix].
  - intros [= <-]; lia.
  - destruct s as [|y s]; [discriminate|].
    destruct (x =? y); [|discriminate].
    intros E; apply IH in E; cbn [List.length]; lia.
Qed.

Lemma scanstring_length_le (n : nat) :
  forall s t rest,
    (List.length s <= n)%nat -> scanstring s = Some (t, rest) ->
    (List.length rest < List.length s)%nat.
Proof.
  induction n as [|n IH]; intros [|c r] t rest L; cbn [List.length] in L;
    try discriminate; try lia.
  cbn [scanstring]. cases; intros H; try discriminate;
    injection H as <- <-; cbn [List.length] in *;
    match goal with
    | E : scanstring ?R = Some _ |- _ =>
        apply IH in E; cbn [List.length] in *; lia
    | _ => lia
    end.
Qed.

Lemma scanstring_length (s t rest : str) :
  scanstring s = Some (t, rest) -> (List.length rest < List.length s)%nat.
Proof. apply (scanstring_length_le (List.length s)); lia. Qed.

Lemma span_digits_length (s : str) :
  (List.length (snd (span_digits s)) <= List.length s)%nat.
Proof.
  induction s as [|c r IH]; cbn [span_digits]; [cbn; lia|].
  destruct (is_ascii_digit c); [|cbn; lia].
  destruct (span_digits r) as [d rest]; cbn [snd List.length] in *; lia.
Qed.

Lemma match_int_part_length (s ip rest : str) :
  match_int_part s = Some (ip, rest) -> (List.length rest < List.length s)%nat.
Proof.
  unfold match_int_part. destruct s as [|c r]; [discriminate|].
  pose proof (span_digits_length r) as D.
  destruct (span_digits r) as [d r']; cbn [snd] in D.
  cases; intros [= <- <-]; cbn [List.length]; lia.
Qed.

Lemma match_frac_length (s : str) :
  (List.length (snd (match_frac s)) <= List.length s)%nat.
Proof.
  unfold match_frac. destruct s as [|c r]; [cbn; lia|].
  pose proof (span_digits_length r) as D.
  destruct (span_digits r) as [d r']; cbn [snd] in D.
  cases; cbn [snd List.length]; lia.
Qed.

Lemma match_exp_length (s : str) :
  (List.length (snd (match_exp s)) <= List.length s)%nat.
Proof.
  unfold match_exp. destruct s as [|c r]; [cbn; lia|].
  destruct ((c =? 101) || (c =? 69)); [|cbn; lia].
  destruct r as [|x r'].
  - cbn. lia.
  - pose proof (span_digits_length r') as D1.
    pose proof (span_digits_length (x :: r')) as D2.
    destruct ((x =? 45) || (x =? 43));
      [destruct (span_digits r') as [d r1]
      |destruct (span_digits (x :: r')) as [d r1]];
      destruct d; cbn [snd List.length] in *; lia.
Qed.

Lemma match_number_length (s : str) (v : json) (rest : str) :
  match_number s = Some (v, rest) -> (List.length rest < List.length s)%nat.
Proof.
  unfold match_number.
  set (p := match s with
            | c :: r => if c =? 45 then ([c], r) else ([], s)
            | [] => ([], s)
            end).
  assert (P : (List.length (snd p) <= List.length s)%nat).
  { subst p; destruct s as [|c r]; [cbn; lia|].
    destruct (c =? 45); cbn [snd List.length]; lia. }
  destruct p as [sign s1]; cbn [snd] in P.
  destruct (match_int_part s1) as [[ip r1]|] eqn:I; [|discriminate].
  apply match_int_part_length in I.
  pose proof (match_frac_length r1) as F.
  destruct (match_frac r1) as [fp r2]; cbn [snd] in F.
  pose proof (match_exp_length r2) as E.
  destruct (match_exp r2) as [ep r3]; cbn [snd] in E.
  destruct fp, ep; intros [= <- <-]; lia.
Qed.

Ltac lengths :=
  repeat match goal with
  | E : scanstring _ = Some _ |- _ => apply scanstring_length in E
  | E : strip_prefix _ _ = Some _ |- _ => apply strip_prefix_length in E
  | E : match_number _ = Some _ |- _ => apply match_number_length in E
  | E : skip_ws ?r = _ |- _ =>
      let L := fresh "L" in
      pose proof (skip_ws_length r) as L; rewrite E in L; clear E
  end;
  repeat match goal with
  | _ : context [List.length (skip_ws ?r)] |- _ =>
      tryif (match goal with
             | _ : (List.length (skip_ws r) <= List.length r)%nat |- _ => idtac
             end)
      then fail
      else pose proof (skip_ws_length r)
  | |- context [List.length (skip_ws ?r)] =>
      tryif (match goal with
             | _ : (List.length (skip_ws r) <= List.length r)%nat |- _ => idtac
             end)
      then fail
      else pose proof (skip_ws_length r)
  end;
  cbn [List.length] in *.

Lemma scan_frugal (f : nat) :
  (forall s v rest,
     scan_once f s = Scanned v rest ->
     frugal s rest (fun fuel => scan_once fuel s) v)
  /\ (forall s acc v rest,
        parse_members f s acc = Scanned v rest ->
        frugal s rest (fun fuel => parse_members fuel s acc) v)
  /\ (forall s acc v rest,
        parse_items f s acc = Scanned v rest ->
        frugal s rest (fun fuel => parse_items fuel s acc) v).
Proof.
  induction f as [|f (IHs & IHm & IHi)].
  { repeat split; intros; discriminate. }
  assert (up : forall s rest (run : nat -> scan) v,
             (List.length rest < List.length s)%nat ->
             (forall g, (List.length s < S g + List.length rest)%nat ->
                        run (S g) = Scanned v rest) ->
             frugal s rest run v).
  { intros s rest run v L K; split; [exact L|].
    intros [|g] G; [lia|apply K; exact G]. }
  split; [|split].
  - intros [|c r] v rest; [discriminate|].
    cbn [scan_once]; unfold of_option.
    cases; intros H; try discriminate; try injection H as <- <-.
    all: try (apply up; [lengths; lia|]; intros g G; cbn [scan_once];
              unfold of_option;
              repeat match goal with E : _ = _ |- _ => rewrite E end;
              reflexivity).
    + apply IHm in H; destruct H as [L K].
      apply up; [lengths; lia|]; intros g G; cbn [scan_once].
      repeat match goal with E : _ = _ |- _ => rewrite E end.
      apply K. lengths. lia.
    + apply IHi in H; destruct H as [L K].
      apply up; [lengths; lia|]; intros g G; cbn [scan_once].
      repeat match goal with E : _ = _ |- _ => rewrite E end.
      apply K. lengths. lia.
  - intros s acc v rest. cbn [parse_members].
    cases; intros H; try discriminate.
    + injection H as <- <-.
      match goal with E : scan_once f _ = Scanned _ _ |- _ =>
        apply IHs in E; destruct E as [L1 K1] end.
      apply up; [lengths; lia|]; intros g G; cbn [parse_members].
      repeat match goal with E : _ = _ |- _ => rewrite E end.
      rewrite K1 by (lengths; lia).
      repeat match goal with E : _ = _ |- _ => rewrite E end.
      reflexivity.
    + apply IHm in H; destruct H as [L2 K2].
      match goal with E : scan_once f _ = Scanned _ _ |- _ =>
        apply IHs in E; destruct E as [L1 K1] end.
      apply up; [lengths; lia|]; intros g G; cbn [parse_members].
      repeat match goal with E : _ = _ |- _ => rewrite E end.
      rewrite K1 by (lengths; lia).
      repeat match goal with E : _ = _ |- _ => rewrite E end.
      apply K2. lengths. lia.
  - intros s acc v rest. cbn [parse_items].
    cases; intros H; try discriminate.
    + injection H as <- <-.
      match goal with E : scan_once f _ = Scanned _ _ |- _ =>
        apply IHs in E; destruct E as [L1 K1] end.
      apply up; [lengths; lia|]; intros g G; cbn [parse_items].
      rewrite K1 by (lengths; lia).
      repeat match goal with E : _ = _ |- _ => rewrite E end.
      reflexivity.
    + apply IHi in H; destruct H as [L2 K2].
      match goal with E : scan_once f _ = Scanned _ _ |- _ =>
        apply IHs in E; destruct E as [L1 K1] end.
      apply up; [lengths; lia|]; intros g G; cbn [parse_items].
      rewrite K1 by (lengths; lia).
      repeat match goal with E : _ = _ |- _ => rewrite E end.
      apply K2. lengths. lia.
Qed.

Lemma scan_once_enough (s : str) (fuel : nat) (v : json) (rest : str) :
  scan_once fuel s = Scanned v rest ->
  forall fuel', (List.length s < fuel')%nat -> scan_once fuel' s = Scanned v rest.
Proof.
  intros H fuel' L.
  destruct (proj1 (scan_frugal fuel) s v rest H) as [_ K].
  apply K; lia.
Qed.

(** The fuel [loads] runs the scanner with loses nothing: [loads] accepts
    a text exactly when the scanner, with whatever fuel, reads one value
    followed by white space only. *)
Theorem loads_fuel (s : str) (v : json) :
  loads s = Some v <->
  match s with c :: _ => c =? 0xFEFF | [] => false end = false
  /\ exists fuel rest,
       scan_once fuel (skip_ws s) = Scanned v rest /\ skip_ws rest = [].
Proof.
  unfold loads. split.
  - destruct (match s with c :: _ => c =? 0xFEFF | [] => false end);
      [discriminate|].
    destruct (scan_once _ _) as [w rest| |] eqn:E; try discriminate.
    destruct (skip_ws rest) eqn:K; [|discriminate].
    intros [= <-]. split; [reflexivity|].
    exists (S (List.length s)), rest. split; [exact E|exact K].
  - intros (B & fuel & rest & E & K). rewrite B.
    rewrite (scan_once_enough _ _ _ _ E (S (List.length s))), K; [reflexivity|].
    pose proof (skip_ws_length s). lia.
Qed.

End ScanFacts.

(** ** The reader on one frame *)

Module TransportFacts.
Import Py Json Exc Values PyFacts JsonFacts RoundTrip Transport.

Lemma plain_valid (v : json) : plain v = true -> valid v = true.
Proof.
  assert (T : forall s, text s = true -> forallb code_point s = true).
  { intros s; unfold text; rewrite !forallb_forall; intros H c Hc.
    specialize (H c Hc); unfold scalar in H.
    apply andb_true_iff in H; tauto. }
  induction v as [| b | n | l | s | items IH | members IH]
    using json_nested_ind; simpl; intros H; try reflexivity;
    try discriminate.
  - apply T; exact H.
  - induction IH as [|x r Hx _ IHr]; simpl in *; [reflexivity|].
    apply andb_true_iff in H; destruct H.
    apply andb_true_iff; split; auto.
  - apply andb_true_iff in H; destruct H as [_ H].
    induction IH as [|x r Hx _ IHr]; simpl in *; [reflexivity|].
    apply andb_true_iff in H; destruct H as [H1 H2].
    apply andb_true_iff in H1; destruct H1.
    repeat (apply andb_true_iff; split); auto.
Qed.

Lemma CRLFCRLF_ascii : Forall ascii CRLFCRLF.
Proof. unfold CRLFCRLF, ascii; repeat constructor; lia. Qed.

Lemma header_ascii : Forall ascii (lit "Content-Length: ").
Proof. apply Forall_printable_ascii, printableb_spec; reflexivity. Qed.

(** A frame around printable text is ASCII. *)
Lemma frame_ascii (content : str) :
  Forall printable content -> Forall ascii (frame content).
Proof.
  intros H; unfold frame.
  apply Forall_app; split; [exact header_ascii|].
  apply Forall_app; split;
    [apply Forall_printable_ascii, str_of_int_printable|].
  apply Forall_app; split;
    [exact CRLFCRLF_ascii | apply Forall_printable_ascii; exact H].
Qed.

(** [send] on a started transport writes the frame of the printed message,
    byte for character. *)
Lemma send_started (message : json) (t : StdioTransport) :
  valid message = true -> _started t = true ->
  send message t = Normal (write t (frame (dumps message))).
Proof.
  intros Hv Hs; unfold send. rewrite Hs; simpl negb; cbv iota.
  rewrite encode_ascii; [reflexivity|].
  apply frame_ascii, dumps_printable; exact Hv.
Qed.

Lemma span_decimal_digits (ds r : str) :
  Forall digit ds -> span_decimal (ds ++ 13 :: r) = (ds, 13 :: r).
Proof.
  induction 1 as [|d ds Hd _ IH]; [reflexivity|].
  simpl. unfold isdecimal. rewrite (decimal_digit d Hd), IH. reflexivity.
Qed.


Lemma frame_header (content : str) : frame content = header_of content ++ content.
Proof.
  unfold frame, header_of, str_of_int.
  replace (len content <? 0) with false
    by (symmetry; apply Z.ltb_ge, len_nonneg).
  rewrite <- !app_assoc; reflexivity.
Qed.




Section OneFrame.

Variable W : Type.
Variable onmessage : option (json -> state W -> completion (state W)).
Variable onerror : option (Exception -> state W -> completion (state W)).


End OneFrame.

End TransportFacts.

(** ** The fuel of the reader *)

Module ReaderFacts.
Import Py Json Exc Values Transport Utf8Facts.

Lemma decimal_in_nonneg (blocks : list Z) (c d : Z) :
  decimal_in blocks c = Some d -> 0 <= d.
Proof.
  induction blocks as [|b r IH]; cbn [decimal_in]; [discriminate|].
  destruct (Z.leb_spec b c); cbn [andb]; [|exact IH].
  destruct (c <? b + 10); [|exact IH].
  intros [= <-]; lia.
Qed.

Lemma int_acc_nonneg (s : str) : forall acc, 0 <= acc -> 0 <= int_acc acc s.
Proof.
  induction s as [|c r IH]; intros acc H; cbn [int_acc]; [exact H|].
  apply IH. destruct (decimal c) as [d|] eqn:E; [|lia].
  apply decimal_in_nonneg in E. lia.
Qed.

Lemma int_nonneg (s : str) : 0 <= int s.
Proof. apply int_acc_nonneg; lia. Qed.

Lemma search_from_eq (i : Z) (s : str) :
  search_from i s =
    match match_here s with
    | Some (d, _) =>
        Some (d, i + len (lit "Content-Length: ") + len d + len CRLFCRLF)
    | None =>
        match s with
        | [] => None
        | _ :: r => search_from (i + 1) r
        end
    end.
Proof. destruct s; reflexivity. Qed.

Lemma search_from_end (s : str) :
  forall i d e, search_from i s = Some (d, e) -> i < e.
Proof.
  induction s as [|c r IH]; intros i d e; rewrite search_from_eq;
    destruct (match_here _) as [[g rest]|].
  1, 3: intros [= <- <-]; unfold len; cbn [List.length lit CRLFCRLF]; lia.
  - discriminate.
  - intros E; apply IH in E; lia.
Qed.

Section ReaderTotal.

Variable W : Type.
Variable onmessage : option (json -> state W -> completion (state W)).
Variable onerror : option (Exception -> state W -> completion (state W)).
Variable onclose : option (state W -> completion (state W)).

Hypothesis onmessage_quiet :
  forall f, onmessage = Some f -> forall m st, quiet (f m st) st.
Hypothesis onerror_quiet :
  forall f, onerror = Some f -> forall e st, quiet (f e st) st.

Lemma call_onerror_quiet (e : Exception) (st st0 : state W) :
  _read_buffer (fst st) = _read_buffer (fst st0) ->
  quiet (call_onerror W onerror e st) st0.
Proof.
  intros B; unfold call_onerror.
  destruct onerror as [f|] eqn:E; [|exact B].
  specialize (onerror_quiet f eq_refl e st).
  destruct (f e st); cbn in *; congruence.
Qed.

Lemma parse_and_dispatch_quiet (m : str) (st : state W) :
  quiet (parse_and_dispatch W onmessage onerror m st) st.
Proof.
  unfold parse_and_dispatch.
  destruct (loads m) as [v|]; [|apply call_onerror_quiet; reflexivity].
  destruct onmessage as [f|] eqn:E; [|reflexivity].
  specialize (onmessage_quiet f eq_refl v st).
  destruct (f v st) as [st'|e st'|]; cbn in *; try assumption.
  destruct (is_JSONDecodeError e); [|assumption].
  apply call_onerror_quiet; assumption.
Qed.

Lemma process_loop_total (fuel : nat) :
  forall buffer_str st,
    (List.length buffer_str < fuel)%nat ->
    process_loop W onmessage onerror fuel buffer_str st <> NoFuel.
Proof.
  induction fuel as [|f IH]; intros buf st L; [lia|].
  cbn [process_loop].
  destruct (search buf) as [[g he]|] eqn:S; [|discriminate].
  apply search_from_end in S.
  pose proof (int_nonneg g) as G.
  destruct (Z.ltb_spec (len buf) (he + int g)) as [|B]; [discriminate|].
  set (buf' := slice_from buf (he + int g)).
  assert (L' : (List.length buf' < f)%nat).
  { unfold buf', slice_from. rewrite List.length_skipn.
    unfold len in B. unfold str in *. lia. }
  destruct (encode buf') as [b|] eqn:E; [|discriminate].
  apply decode_encode in E.
  pose proof (parse_and_dispatch_quiet (slice buf he (he + int g))
                (with_read_buffer (fst st) b, snd st)) as Q.
  destruct (parse_and_dispatch _ _ _ _ _) as [st1|e st1|];
    cbn [quiet fst with_read_buffer _read_buffer] in Q; [|discriminate|contradiction].
  cbn [bind]. rewrite Q, E.
  destruct (0 <? len b).
  - pose proof (IH buf' st1 L') as N.
    destruct (process_loop W onmessage onerror f buf' st1); cbn [bind];
      [apply IH; exact L'|discriminate|exact N].
  - cbn [bind]. apply IH; exact L'.
Qed.

Lemma process_buffer_total (st : state W) :
  _process_buffer W onmessage onerror st <> NoFuel.
Proof.
  unfold _process_buffer, process_buffer_fuel.
  apply process_loop_total.
  pose proof (decode_replace_length (_read_buffer (fst st))). lia.
Qed.

Hypothesis onclose_returns :
  forall f, onclose = Some f -> forall st, f st <> NoFuel.

Lemma close_total (st : state W) : close W onclose st <> NoFuel.
Proof.
  unfold close. destruct (negb _); [discriminate|].
  destruct onclose as [f|] eqn:E; [|discriminate].
  apply (onclose_returns f eq_refl).
Qed.

Lemma call_onerror_total (e : Exception) (st : state W) :
  call_onerror W onerror e st <> NoFuel.
Proof.
  pose proof (call_onerror_quiet e st st eq_refl) as Q.
  destruct (call_onerror W onerror e st); [discriminate|discriminate|contradiction].
Qed.

Lemma read_turn_total (chunk : bytes) (st : state W) :
  fst (read_turn W onmessage onerror onclose chunk st) <> NoFuel.
Proof.
  unfold read_turn. destruct chunk as [|c r]; cbn [fst].
  - pose proof (close_total st) as N.
    destruct (close W onclose st); [discriminate|apply call_onerror_total|exact N].
  - match goal with |- context [_process_buffer W onmessage onerror ?s] =>
      pose proof (process_buffer_total s) as N;
      destruct (_process_buffer W onmessage onerror s)
    end; [discriminate|apply call_onerror_total|exact N].
Qed.

Lemma read_loop_eq (chunks : list bytes) (st : state W) :
  _read_loop W onmessage onerror onclose chunks st =
    if _closed (fst st) then close W onclose st
    else
      match chunks with
      | [] => Normal st
      | chunk :: rest =>
          match read_turn W onmessage onerror onclose chunk st with
          | (Normal st', true) => _read_loop W onmessage onerror onclose rest st'
          | (Normal st', false) => close W onclose st'
          | (Raise e st', _) => close W onclose st' >>= Raise e
          | (NoFuel, _) => NoFuel
          end
      end.
Proof. destruct chunks; reflexivity. Qed.

(** The reader thread comes to rest on every input: the fuel that
    [_process_buffer] is run with is never used up. *)
Lemma read_loop_total (chunks : list bytes) :
  forall st, _read_loop W onmessage onerror onclose chunks st <> NoFuel.
Proof.
  induction chunks as [|chunk rest IH]; intros st; rewrite read_loop_eq;
    destruct (_closed (fst st)); try apply close_total; [discriminate|].
  pose proof (read_turn_total chunk st) as N.
  destruct (read_turn W onmessage onerror onclose chunk st) as [[st'|e st'|] more];
    cbn [fst] in N.
  - destruct more; [apply IH|apply close_total].
  - pose proof (close_total st') as C.
    destruct (close W onclose st'); cbn [bind]; [discriminate|discriminate|exact C].
  - contradiction.
Qed.

End ReaderTotal.

End ReaderFacts.

(** ** Frames in the buffer of the reader *)

Module FrameFacts.
Import Py Json Exc Values PyFacts JsonFacts RoundTrip Transport TransportFacts.

Lemma match_here_frame_app (content rest : str) :
  match_here (frame content ++ rest)
  = Some (digits (len content), content ++ rest).
Proof.
  unfold match_here, frame. rewrite <- app_assoc, strip_prefix_app.
  unfold str_of_int.
  replace (len content <? 0) with false
    by (symmetry; apply Z.ltb_ge, len_nonneg).
  destruct (digits_spec (len content) (len_nonneg content)) as (F & NE & _).
  rewrite <- !app_assoc. unfold CRLFCRLF at 1. cbn [app].
  rewrite (span_decimal_digits _ _ F).
  destruct (digits (len content)) as [|d ds]; [contradiction|].
  reflexivity.
Qed.

Lemma search_frame_app (content rest : str) :
  search (frame content ++ rest)
  = Some (digits (len content), len (header_of content)).
Proof.
  unfold search. rewrite ReaderFacts.search_from_eq, match_here_frame_app.
  unfold header_of. rewrite !len_app. f_equal. f_equal. lia.
Qed.

Section Frames.

Variable W : Type.
Variable onmessage : option (json -> state W -> completion (state W)).
Variable onerror : option (Exception -> state W -> completion (state W)).

(** With a frame at the head of the buffer, the loop takes the body out,
    stores what follows the frame, dispatches, lets the nested call work on
    the stored buffer and then goes on with its own copy of what follows. *)
Lemma process_loop_frame_app (fuel : nat) (content rest : str) (b : bytes)
    (st : state W) :
  encode rest = Some b ->
  process_loop W onmessage onerror (S fuel) (frame content ++ rest) st
  = Exc.bind
      (Exc.bind
         (parse_and_dispatch W onmessage onerror content
            (with_read_buffer (fst st) b, snd st))
         (fun st1 =>
            if 0 <? len (_read_buffer (fst st1))
            then process_loop W onmessage onerror fuel
                   (decode_replace (_read_buffer (fst st1))) st1
            else Normal st1))
      (process_loop W onmessage onerror fuel rest).
Proof.
  intros E. cbn [process_loop]. rewrite search_frame_app.
  destruct (digits_spec (len content) (len_nonneg content)) as (_ & _ & I & _).
  rewrite I.
  replace (len (frame content ++ rest)
           <? len (header_of content) + len content)
    with false
    by (symmetry; apply Z.ltb_ge; rewrite frame_header, !len_app;
        pose proof (len_nonneg rest); lia).
  replace (slice (frame content ++ rest) (len (header_of content))
             (len (header_of content) + len content)) with content
    by (rewrite frame_header, <- app_assoc; symmetry; apply slice_middle).
  replace (slice_from (frame content ++ rest)
             (len (header_of content) + len content))
    with rest
    by (rewrite <- len_app, <- frame_header; symmetry; apply slice_from_app).
  rewrite E. reflexivity.
Qed.

End Frames.

End FrameFacts.

Module TraceFacts.
Import Py Json Exc Values PyFacts JsonFacts RoundTrip Transport TransportFacts.
Import FrameFacts Trace.

#[local] Abbreviation loop :=
  (process_loop (list event) (Some on_message) (Some on_error)).

Lemma frame_plain_ascii (m : json) :
  plain m = true -> Forall ascii (frame (dumps m)).
Proof.
  intros H. apply frame_ascii, dumps_printable, plain_valid; exact H.
Qed.

Lemma frames_ascii (messages : list json) :
  forallb plain messages = true -> Forall ascii (frames messages).
Proof.
  induction messages as [|m r IH]; cbn [forallb frames map List.concat];
    intros H; [constructor|].
  apply andb_true_iff in H; destruct H as [Hm Hr].
  apply Forall_app; split; [apply frame_plain_ascii; exact Hm|apply IH; exact Hr].
Qed.

Lemma frames_cons (m : json) (r : list json) :
  frames (m :: r) = frame (dumps m) ++ frames r.
Proof. reflexivity. Qed.

Lemma frame_nonempty (content : str) : frame content <> [].
Proof. unfold frame; discriminate. Qed.

Lemma loop_nil (fuel : nat) (st : log) : loop (S fuel) [] st = Normal st.
Proof. reflexivity. Qed.

Lemma parse_and_dispatch_plain (m : json) (st : log) :
  plain m = true ->
  parse_and_dispatch (list event) (Some on_message) (Some on_error)
    (dumps m) st
  = Normal (fst st, snd st ++ [Message m]).
Proof.
  intros H. unfold parse_and_dispatch. rewrite (loads_dumps m H). reflexivity.
Qed.

Lemma loop_frames (messages : list json) :
  forallb plain messages = true ->
  forall fuel t events,
    (List.length (frames messages) < fuel)%nat ->
    loop fuel (frames messages) (t, events)
    = Normal (match messages with
              | [] => t
              | _ :: _ => with_read_buffer t []
              end,
              events ++ map Message (dispatches messages)).
Proof.
  induction messages as [|m r IH]; intros Hp fuel t events L.
  - destruct fuel as [|f]; [cbn in L; lia|].
    cbn [frames map List.concat dispatches]. rewrite loop_nil, app_nil_r.
    reflexivity.
  - cbn [forallb] in Hp. apply andb_true_iff in Hp; destruct Hp as [Hm Hr].
    destruct fuel as [|f]; [exfalso; revert L; apply Nat.nlt_0_r|].
    rewrite frames_cons in *. rewrite length_app in L.
    pose proof (frames_ascii r Hr) as A.
    rewrite (process_loop_frame_app _ _ _ f (dumps m) (frames r) (frames r)
               (t, events) (encode_ascii _ A)).
    cbn [fst snd]. rewrite (parse_and_dispatch_plain m _ Hm).
    cbn [bind fst snd with_read_buffer _read_buffer].
    rewrite (decode_ascii _ A).
    assert (Lr : (List.length (frames r) < f)%nat).
    { pose proof (frame_nonempty (dumps m)).
      destruct (frame (dumps m)); [contradiction|cbn [List.length] in L; lia]. }
    destruct r as [|m' r'].
    + cbn [frames map List.concat len List.length dispatches app].
      change (0 <? Z.of_nat 0) with false. cbv iota. cbn [bind].
      destruct f as [|f']; [cbn in Lr; lia|].
      rewrite loop_nil. reflexivity.
    + replace (0 <? len (frames (m' :: r'))) with true.
      2:{ symmetry; apply Z.ltb_lt. rewrite frames_cons, len_app.
          pose proof (len_nonneg (frames r')).
          assert (0 < len (frame (dumps m'))); [|lia].
          unfold len. pose proof (frame_nonempty (dumps m')).
          destruct (frame (dumps m')); [contradiction|cbn; lia]. }
      rewrite (IH Hr f _ _ Lr). cbn [bind].
      rewrite (IH Hr f _ _ Lr).
      f_equal. f_equal. rewrite <- !app_assoc.
      change (dispatches (m :: m' :: r'))
        with (m :: dispatches (m' :: r') ++ dispatches (m' :: r')).
      cbn [map app]. rewrite map_app. reflexivity.
Qed.


(** *** A frame that has not arrived in full *)

Lemma strip_prefix_sound (p : str) :
  forall s r, strip_prefix p s = Some r -> s = p ++ r.
Proof.
  induction p as [|x p IH]; intros s r; cbn [strip_prefix].
  - intros [= <-]; reflexivity.
  - destruct s as [|y s]; [discriminate|].
    destruct (Z.eqb_spec x y) as [<-|]; [|discriminate].
    intros E; apply IH in E; subst s; reflexivity.
Qed.

Lemma span_decimal_sound (s : str) :
  s = fst (span_decimal s) ++ snd (span_decimal s).
Proof.
  induction s as [|c r IH]; cbn [span_decimal]; [reflexivity|].
  destruct (isdecimal c); [|reflexivity].
  destruct (span_decimal r) as [d rest]; cbn [fst snd app] in *.
  f_equal; exact IH.
Qed.

Lemma match_here_sound (s d rest : str) :
  match_here s = Some (d, rest) ->
  s = lit "Content-Length: " ++ d ++ CRLFCRLF ++ rest.
Proof.
  unfold match_here.
  destruct (strip_prefix _ s) as [r|] eqn:P; [|discriminate].
  apply strip_prefix_sound in P.
  pose proof (span_decimal_sound r) as D.
  destruct (span_decimal r) as [[|x ds] r1]; [discriminate|].
  destruct (strip_prefix CRLFCRLF r1) as [rest'|] eqn:C; [|discriminate].
  apply strip_prefix_sound in C.
  intros [= <- <-]. cbn [fst snd] in D. rewrite P, D, C. reflexivity.
Qed.

#[local] Abbreviation lfs := (fun s : str => count_occ Z.eq_dec s 10).

Lemma search_needs_two_lf (s : str) :
  (lfs s < 2)%nat -> forall i, search_from i s = None.
Proof.
  induction s as [|c r IH]; intros L i; rewrite ReaderFacts.search_from_eq.
  - reflexivity.
  - destruct (match_here (c :: r)) as [[d rest]|] eqn:M.
    + apply match_here_sound in M. rewrite M in L.
      rewrite !count_occ_app in L. cbn in L. lia.
    + apply IH. cbn [count_occ] in L. destruct (Z.eq_dec c 10); lia.
Qed.

Lemma printable_no_lf (s : str) : Forall printable s -> lfs s = 0%nat.
Proof.
  induction 1 as [|c s [H0 H1] _ IH]; cbn [count_occ]; [reflexivity|].
  destruct (Z.eq_dec c 10); [lia|exact IH].
Qed.

Lemma header_of_eq (content : str) :
  header_of content
  = (lit "Content-Length: " ++ digits (len content) ++ [13; 10; 13]) ++ [10].
Proof. unfold header_of, CRLFCRLF. rewrite <- !app_assoc. reflexivity. Qed.

Lemma header_of_lfs (content : str) : lfs (header_of content) = 2%nat.
Proof.
  unfold header_of. rewrite !count_occ_app.
  destruct (digits_spec (len content) (len_nonneg content)) as (F & _).
  rewrite (printable_no_lf (digits (len content))).
  - reflexivity.
  - eapply Forall_impl; [exact digit_printable|exact F].
Qed.

(** A proper prefix of the header holds no match of the pattern. *)
Lemma search_header_prefix (content p l : str) :
  header_of content = p ++ l -> l <> [] -> search p = None.
Proof.
  intros E NE. apply search_needs_two_lf.
  pose proof (header_of_lfs content) as C. rewrite E, count_occ_app in C.
  destruct (exists_last NE) as (l' & a & ->).
  rewrite header_of_eq, (app_assoc p l' [a]) in E. apply app_inj_tail in E.
  destruct E as [_ <-]. rewrite count_occ_app in C. cbn in C. lia.
Qed.

Lemma match_here_header (content l : str) :
  match_here (header_of content ++ l) = Some (digits (len content), l).
Proof.
  unfold match_here, header_of. rewrite <- !app_assoc, strip_prefix_app.
  destruct (digits_spec (len content) (len_nonneg content)) as (F & NE & _).
  unfold CRLFCRLF at 1. cbn [app].
  rewrite (span_decimal_digits _ _ F).
  destruct (digits (len content)) as [|d ds]; [contradiction|].
  reflexivity.
Qed.

Lemma search_header (content l : str) :
  search (header_of content ++ l)
  = Some (digits (len content), len (header_of content)).
Proof.
  unfold search. rewrite ReaderFacts.search_from_eq, match_here_header.
  unfold header_of. rewrite !len_app. f_equal. f_equal. lia.
Qed.

Section Idle.

Variable W : Type.
Variable onmessage : option (json -> state W -> completion (state W)).
Variable onerror : option (Exception -> state W -> completion (state W)).

(** While a frame has not arrived in full the loop leaves everything as it
    is. *)
Lemma process_loop_prefix (fuel : nat) (content p q : str) (st : state W) :
  p ++ q = frame content -> q <> [] ->
  process_loop W onmessage onerror (S fuel) p st = Normal st.
Proof.
  intros E NE. rewrite frame_header in E.
  cbn [process_loop].
  destruct (app_eq_app _ _ _ _ E) as (l & [[-> C]|[H ->]]).
  - rewrite search_header.
    destruct (digits_spec (len content) (len_nonneg content))
      as (_ & _ & I & _).
    rewrite I, C, !len_app.
    replace (len (header_of (l ++ q)) + len l
             <? len (header_of (l ++ q)) + (len l + len q)) with true;
      [reflexivity|].
    symmetry; apply Z.ltb_lt. unfold len.
    destruct q; [contradiction|cbn [List.length]; lia].
  - destruct l as [|x l].
    + rewrite app_nil_r in H. subst p.
      rewrite <- (app_nil_r (header_of content)), search_header.
      destruct (digits_spec (len content) (len_nonneg content))
        as (_ & _ & I & _).
      rewrite I, app_nil_r.
      replace (len (header_of content) <? len (header_of content) + len content)
        with true; [reflexivity|].
      symmetry; apply Z.ltb_lt. cbn [app] in NE. unfold len.
      destruct content; [contradiction|cbn [List.length]; lia].
    + rewrite (search_header_prefix content p (x :: l) H); [reflexivity|].
      discriminate.
Qed.

End Idle.

(** *** The reader thread with the recording callbacks *)

Lemma run_chunk (c : bytes) (more : list bytes) (t : StdioTransport)
    (events : list event) (st' : log) :
  _closed t = false -> c <> [] ->
  _process_buffer (list event) (Some on_message) (Some on_error)
    (with_read_buffer t (_read_buffer t ++ c), events) = Normal st' ->
  run (c :: more) (t, events) = run more st'.
Proof.
  intros C NE P. unfold run. rewrite ReaderFacts.read_loop_eq.
  cbn [fst snd]. rewrite C. unfold read_turn.
  destruct c as [|x c]; [contradiction|].
  cbn [fst snd]. rewrite P. reflexivity.
Qed.

Lemma process_buffer_ascii (t : StdioTransport) (events : list event) :
  Forall ascii (_read_buffer t) ->
  _process_buffer (list event) (Some on_message) (Some on_error) (t, events)
  = loop (S (List.length (_read_buffer t))) (_read_buffer t) (t, events).
Proof.
  intros A. unfold _process_buffer, process_buffer_fuel. cbn [fst].
  rewrite (decode_ascii _ A). reflexivity.
Qed.

(** The chunks of one frame: nothing happens until the last one arrives,
    and then the message is handed over and the buffer is empty. *)
Lemma run_frame_chunks (m : json) (more : list bytes) :
  plain m = true ->
  forall chunks p t events,
    Forall (fun c : bytes => c <> []) chunks -> chunks <> [] ->
    p ++ List.concat chunks = frame (dumps m) ->
    _closed t = false -> _read_buffer t = p ->
    run (chunks ++ more) (t, events)
    = run more (with_read_buffer t [], events ++ [Message m]).
Proof.
  intros Hp. pose proof (frame_plain_ascii m Hp) as A.
  induction chunks as [|c cs IH]; intros p t events NE N E C B;
    [contradiction|].
  inversion NE as [|? ? Hc Hcs]; subst.
  cbn [List.concat app] in *.
  assert (Apc : Forall ascii (_read_buffer t ++ c)).
  { rewrite <- E, app_assoc in A. apply Forall_app in A. tauto. }
  destruct cs as [|c' cs'].
  - cbn [List.concat] in E. rewrite app_nil_r in E.
    apply (run_chunk c more t events); [exact C|exact Hc|].
    rewrite process_buffer_ascii by exact Apc.
    cbn [with_read_buffer _read_buffer]. rewrite E.
    pose proof (loop_frames [m]) as L. cbn [forallb] in L.
    rewrite Hp in L. specialize (L eq_refl).
    unfold frames in L. cbn [map List.concat] in L. rewrite app_nil_r in L.
    rewrite L by lia. reflexivity.
  - rewrite (run_chunk c ((c' :: cs') ++ more) t events
               (with_read_buffer t (_read_buffer t ++ c), events) C Hc).
    + rewrite (IH (_read_buffer t ++ c)); try assumption;
        try reflexivity; try discriminate.
      rewrite <- app_assoc; exact E.
    + rewrite process_buffer_ascii by exact Apc.
      cbn [with_read_buffer _read_buffer].
      apply (process_loop_prefix _ _ _ _ (dumps m) _
               (List.concat (c' :: cs'))).
      * rewrite <- app_assoc; exact E.
      * inversion Hcs; subst. cbn [List.concat].
        destruct c'; [contradiction|discriminate].
Qed.

(** Every message that was sent and arrives in chunks of its own. *)
Lemma run_messages (messages : list json) :
  forall (pieces : list (list bytes)) t events,
    Forall2 (fun m chunks =>
               plain m = true
               /\ Forall (fun c : bytes => c <> []) chunks
               /\ List.concat chunks = frame (dumps m))
      messages pieces ->
    _closed t = false -> _read_buffer t = [] ->
    run (List.concat pieces) (t, events)
    = Normal (t, events ++ map Message messages).
Proof.
  induction messages as [|m ms IH]; intros pieces t events F C B;
    inversion F as [|? cs ? pieces' (Hp & NE & E) F']; subst.
  - cbn [List.concat map]. unfold run. rewrite ReaderFacts.read_loop_eq.
    cbn [fst]. rewrite C, app_nil_r. reflexivity.
  - cbn [List.concat map].
    rewrite (run_frame_chunks m (List.concat pieces') Hp cs [] t events NE);
      try assumption.
    + rewrite (IH pieces' (with_read_buffer t []) _ F' C eq_refl).
      rewrite <- app_assoc. cbn [app].
      destruct t; cbn in *; subst; reflexivity.
    + intros ->. cbn in E. symmetry in E. revert E. apply frame_nonempty.
Qed.


(** *** One frame in each chunk *)

Lemma parse_and_dispatch_event (content : str) (st : log) :
  parse_and_dispatch (list event) (Some on_message) (Some on_error) content st
  = Normal (fst st, snd st ++ [event_of content]).
Proof.
  unfold parse_and_dispatch, event_of.
  destruct (loads content); reflexivity.
Qed.

Lemma encode_nonempty (s : str) (b : bytes) :
  encode s = Some b -> s <> [] -> b <> [].
Proof.
  destruct s as [|c r]; [contradiction|]. cbn [encode]. intros E _.
  destruct (encode_char c) as [bs|] eqn:C; [|discriminate].
  destruct (encode r); [|discriminate]. injection E as <-.
  unfold encode_char in C.
  repeat match type of C with
  | context [if ?x then _ else _] => destruct x
  end; try discriminate; injection C as <-; discriminate.
Qed.

Lemma run_frame (content : str) (b : bytes) (more : list bytes)
    (t : StdioTransport) (events : list event) :
  encode (frame content) = Some b ->
  _closed t = false -> _read_buffer t = [] ->
  run (b :: more) (t, events) = run more (t, events ++ [event_of content]).
Proof.
  intros E C B.
  apply (run_chunk b more t events (t, events ++ [event_of content]) C).
  { apply (encode_nonempty _ _ E), frame_nonempty. }
  unfold _process_buffer, process_buffer_fuel.
  cbn [fst with_read_buffer _read_buffer]. rewrite B. cbn [app].
  rewrite (Utf8Facts.decode_encode _ _ E).
  rewrite <- (app_nil_r (frame content)) at 1.
  rewrite (process_loop_frame_app _ _ _ _ content [] [] _ eq_refl).
  cbn [fst snd]. rewrite parse_and_dispatch_event.
  cbn [bind fst snd with_read_buffer _read_buffer len List.length].
  change (0 <? Z.of_nat 0) with false. cbv iota. cbn [bind].
  destruct (List.length b) as [|n] eqn:L.
  - apply length_zero_iff_nil in L.
    exfalso; revert L; apply (encode_nonempty _ _ E), frame_nonempty.
  - rewrite loop_nil. destruct t; cbn in *; subst; reflexivity.
Qed.

Lemma run_frame_per_chunk (contents : list str) :
  forall (chunks : list bytes) t events,
    Forall2 (fun content b => encode (frame content) = Some b)
      contents chunks ->
    _closed t = false -> _read_buffer t = [] ->
    run chunks (t, events) = Normal (t, events ++ map event_of contents).
Proof.
  induction contents as [|c cs IH]; intros chunks t events F C B;
    inversion F as [|? b ? chunks' E F']; subst.
  - unfold run. rewrite ReaderFacts.read_loop_eq. cbn [fst map].
    rewrite C, app_nil_r. reflexivity.
  - rewrite (run_frame c b chunks' t events E C B).
    rewrite (IH chunks' t _ F' C B). cbn [map].
    rewrite <- app_assoc. reflexivity.
Qed.


(** *** The flags of the transport, and the end of the input *)

Lemma loop_keeps_flags (fuel : nat) :
  forall buffer_str st, keeps_flags (loop fuel buffer_str st) st.
Proof.
  induction fuel as [|f IH]; intros buf st; [exact I|].
  cbn [process_loop].
  destruct (search buf) as [[g he]|]; [|split; reflexivity].
  destruct (len buf <? he + int g); [split; reflexivity|].
  destruct (encode _) as [b|]; [|split; reflexivity].
  rewrite parse_and_dispatch_event.
  cbn [bind fst snd with_read_buffer _read_buffer].
  set (st1 := (with_read_buffer (fst st) b, snd st ++ [event_of _])).
  assert (F1 : same_flags st st1) by (split; reflexivity).
  assert (K : forall c, keeps_flags c st1 ->
               keeps_flags (c >>= loop f (slice_from buf (he + int g))) st).
  { intros [st2|e st2|] H2; cbn [bind keeps_flags] in *; try exact I;
      destruct H2 as [S2 C2].
    - pose proof (IH (slice_from buf (he + int g)) st2) as H.
      destruct (loop f _ st2) as [st3|e st3|]; cbn [keeps_flags] in *;
        try exact I; destruct H as [S3 C3], F1 as [S1 C1];
        split; congruence.
    - destruct F1 as [S1 C1]; split; congruence. }
  destruct (0 <? len b); apply K; [apply IH|split; reflexivity].
Qed.

Lemma recorders_quiet :
  (forall f, Some on_message = Some f -> forall m st, quiet (f m st) st)
  /\ (forall f, Some on_error = Some f -> forall e st, quiet (f e st) st)
  /\ (forall f, Some on_close = Some f -> forall st : log, f st <> NoFuel).
Proof.
  repeat split; intros f [= <-]; intros; try reflexivity; discriminate.
Qed.

(** A turn of the reader on a chunk that is not empty: it returns, with
    the flags as they were. *)
Lemma read_turn_chunk (c : bytes) (st : log) :
  c <> [] ->
  exists st',
    read_turn (list event) (Some on_message) (Some on_error) (Some on_close)
      c st = (Normal st', true)
    /\ same_flags st st'.
Proof.
  intros NE. unfold read_turn. destruct c as [|x c]; [contradiction|].
  set (st0 := (with_read_buffer (fst st) (_read_buffer (fst st) ++ x :: c),
               snd st)).
  destruct recorders_quiet as (Qm & Qe & _).
  pose proof (ReaderFacts.process_buffer_total _ _ _ Qm Qe st0) as T.
  pose proof (loop_keeps_flags
                (S (List.length (_read_buffer (fst st0))))
                (decode_replace (_read_buffer (fst st0))) st0) as K.
  change (loop _ _ st0)
    with (_process_buffer (list event) (Some on_message) (Some on_error) st0)
    in K.
  destruct (_process_buffer _ _ _ st0) as [st'|e st'|];
    [| |contradiction]; cbn [keeps_flags] in K.
  - exists st'; split; [reflexivity|exact K].
  - exists (fst st', snd st' ++ [Error e]); split; [reflexivity|exact K].
Qed.

Lemma run_chunks (chunks : list bytes) :
  Forall (fun c : bytes => c <> []) chunks ->
  forall st,
    _closed (fst st) = false ->
    exists st',
      same_flags st st'
      /\ forall more, run (chunks ++ more) st = run more st'.
Proof.
  induction 1 as [|c cs NE _ IH]; intros st C.
  - exists st; split; [split; reflexivity|reflexivity].
  - destruct (read_turn_chunk c st NE) as (st1 & T & S1 & C1).
    destruct (IH st1) as (st' & (S' & C') & R); [congruence|].
    exists st'; split; [split; congruence|].
    intros more. cbn [app]. unfold run at 1.
    rewrite ReaderFacts.read_loop_eq, C, T. apply R.
Qed.

Lemma run_eof (more : list bytes) (st : log) :
  _started (fst st) = true -> _closed (fst st) = false ->
  run ([] :: more) st
  = Normal (with_flags (fst st) false true, snd st ++ [Closed]).
Proof.
  intros S C. unfold run. rewrite ReaderFacts.read_loop_eq, C.
  unfold read_turn, close. rewrite S. reflexivity.
Qed.

End TraceFacts.

(** ** The claims about the transport *)

Import Py Json Exc Values Transport Pydantic.






(** C1.  Two pings written by [send] and given to the reader in one chunk
    make three callbacks, not two: the first message once and the second
    twice, because the loop of [_process_buffer] goes on with its own copy
    of the buffer after the nested call has already consumed the second
    message.  A server on that transport answers the second ping twice. *)
Theorem back_to_back_second_dispatched_twice :
  exists b1 b2 : bytes,
    Wire.encode_message (Examples.ping 1) = Some b1
    /\ Wire.encode_message (Examples.ping 2) = Some b2
    /\ Wire.received [b1 ++ b2]
       = Some [Examples.ping 1; Examples.ping 2; Examples.ping 2]
    /\ exists t w,
         Session.serve Examples.bare_server [b1 ++ b2] = Normal (t, w)
         /\ map (Session.field "id") (Session.replies t)
            = [Some (JInt 1); Some (JInt 2); Some (JInt 2)].
Proof.
  do 2 eexists. split; [vm_compute; reflexivity|].
  split; [vm_compute; reflexivity|].
  split; [vm_compute; reflexivity|].
  do 2 eexists. split; [vm_compute; reflexivity|].
  vm_compute; reflexivity.
Qed.

(** C2.  The frame [Content-Length: 4\r\n\r\n"é"], whose header gives the
    byte length 4 of the UTF-8 body, is complete in the buffer and its body
    is valid JSON, yet the reader makes no callback and keeps the bytes:
    it compares the declared length with a count of decoded characters, of
    which the body has three. *)
Theorem byte_counted_frame_not_delivered :
  encode Examples.e_acute_text = Some [34; 0xC3; 0xA9; 34]
  /\ loads Examples.e_acute_text = Some (JStr [233])
  /\ Examples.e_acute_frame
     = lit "Content-Length: 4" ++ CRLFCRLF ++ [34; 0xC3; 0xA9; 34]
  /\ Wire.receive [Examples.e_acute_frame]
     = Normal (with_read_buffer (start init) Examples.e_acute_frame, []).
Proof.
  split; [vm_compute; reflexivity|].
  split; [vm_compute; reflexivity|].
  split; vm_compute; reflexivity.
Qed.

(** ** Dictionaries and the registry *)

Module DictFacts.
Import Py PyFacts.

Lemma get_set_same {V} (d : dict V) (k : str) (v : V) :
  get (set d k v) k = Some v.
Proof.
  induction d as [|[k' v'] d IH]; simpl.
  - rewrite str_eqb_refl; reflexivity.
  - destruct (str_eqb k' k) eqn:E; simpl; rewrite E; [reflexivity|exact IH].
Qed.

Lemma get_set_other {V} (d : dict V) (k k' : str) (v : V) :
  k <> k' -> get (set d k v) k' = get d k'.
Proof.
  intros N; induction d as [|[k0 v0] d IH]; simpl.
  - rewrite str_eqb_neq by exact N; reflexivity.
  - destruct (str_eqb k0 k) eqn:E; simpl.
    + apply str_eqb_eq in E; subst k0.
      rewrite str_eqb_neq by exact N; reflexivity.
    + destruct (str_eqb k0 k'); [reflexivity|exact IH].
Qed.

Lemma contains_In {V} (d : dict V) (k : str) :
  contains d k = true <-> In k (keys d).
Proof.
  unfold contains, keys; induction d as [|[k' v'] d IH]; simpl.
  - split; [discriminate|tauto].
  - destruct (str_eqb k' k) eqn:E.
    + apply str_eqb_eq in E; subst; tauto.
    + rewrite IH. split; [tauto|].
      intros [->|H]; [rewrite str_eqb_refl in E; discriminate|exact H].
Qed.

Lemma keys_set_present {V} (d : dict V) (k : str) (v : V) :
  contains d k = true -> keys (set d k v) = keys d.
Proof.
  unfold contains, keys; induction d as [|[k' v'] d IH]; simpl;
    [discriminate|].
  destruct (str_eqb k' k) eqn:E; simpl; [reflexivity|].
  intros H; rewrite IH by exact H; reflexivity.
Qed.

Lemma keys_set_absent {V} (d : dict V) (k : str) (v : V) :
  contains d k = false -> keys (set d k v) = keys d ++ [k].
Proof.
  unfold contains, keys; induction d as [|[k' v'] d IH]; simpl;
    [reflexivity|].
  destruct (str_eqb k' k) eqn:E; simpl; [discriminate|].
  intros H; rewrite IH by exact H; reflexivity.
Qed.

End DictFacts.

(** ** The claims about the dispatcher *)

Import Server.

Section Dispatcher.

Context {D S V : Type} `{BaseModel V}.

#[local] Abbreviation state := (Server.state D S V).
#[local] Abbreviation McpServer := (Server.McpServer D S V).

(** A connected server on a started transport sends what it is given. *)
Lemma transport_send_started (response : json) (st : state) :
  _transport (server (snd st)) = true -> _started (fst st) = true ->
  valid response = true ->
  transport_send response st
  = Normal (write (fst st) (frame (dumps response)), snd st).
Proof.
  intros Ht Hs Hv; unfold transport_send.
  rewrite Ht, (TransportFacts.send_started response (fst st) Hv Hs).
  reflexivity.
Qed.

(** C9.  A message that is a dict whose ["type"] is neither ["ping"] nor
    ["request"], or that has no ["type"], is ignored: the handler returns
    without raising and leaves the transport, the server and the record of
    handler calls as they were, so nothing is sent and no handler runs. *)
Theorem other_types_ignored (members : list (str * json)) (st : state) :
  get members (lit "type") <> Some (JStr (lit "ping")) ->
  get members (lit "type") <> Some (JStr (lit "request")) ->
  _handle_message (JObj members) st = Normal st.
Proof.
  intros Hping Hreq. unfold _handle_message, message_get.
  assert (E : forall (v : json) (s : string),
             is_str v s = true -> v = JStr (lit s)).
  { intros v s Hs; destruct v; try discriminate.
    simpl in Hs; apply PyFacts.str_eqb_eq in Hs; subst; reflexivity. }
  destruct (get members (lit "type")) as [ty|] eqn:G.
  - destruct (is_str ty "ping") eqn:E1;
      [apply E in E1; subst; contradiction|].
    destruct (is_str ty "request") eqn:E2;
      [apply E in E2; subst; contradiction|].
    reflexivity.
  - reflexivity.
Qed.

(** C7 as the code has it.  [tool] never refuses a method name: it always
    stores the new description and schema and the new handler under the
    name, stores the new validator when one is given and keeps the old one
    otherwise, and leaves every other name as it was.  The capability
    list, the keys of [_tools] in their order, is the same as before when
    the name was registered already, and has the name added at its end
    otherwise. *)
Theorem tool_replaces (self : McpServer) (method : str) (d : D) (s : S)
    (handler : Handler) (validator_model : option V) :
  let self' := tool self method d s handler validator_model in
  get (_tools self') method = Some {| description := d; parameters := s |}
  /\ get (_handlers self') method = Some handler
  /\ get (_validator_models self') method
     = match validator_model with
       | Some v => Some v
       | None => get (_validator_models self) method
       end
  /\ (forall other, other <> method ->
        get (_tools self') other = get (_tools self) other
        /\ get (_handlers self') other = get (_handlers self) other
        /\ get (_validator_models self') other
           = get (_validator_models self) other)
  /\ keys (_tools self')
     = (if contains (_tools self) method then keys (_tools self)
        else keys (_tools self) ++ [method])
  /\ Server.name self' = Server.name self
  /\ version self' = version self.
Proof.
  cbn zeta. unfold tool; cbn [_tools _handlers _validator_models].
  split; [apply DictFacts.get_set_same|].
  split; [apply DictFacts.get_set_same|].
  split; [destruct validator_model; [apply DictFacts.get_set_same|reflexivity]|].
  split.
  - intros other N.
    rewrite !DictFacts.get_set_other by congruence.
    destruct validator_model; [|tauto].
    rewrite DictFacts.get_set_other by congruence. tauto.
  - split; [|split; reflexivity].
    destruct (contains (_tools self) method) eqn:C.
    + apply DictFacts.keys_set_present. exact C.
    + apply DictFacts.keys_set_absent. exact C.
Qed.

(** The three [message.get] calls at the head of [_handle_request]. *)
Lemma handle_request_known (members : list (str * json)) (st : state)
    (id params : json) (m : str) (entry : ToolEntry D S) :
  message_get (JObj members) "id" None_ = Some id ->
  message_get (JObj members) "method" None_ = Some (JStr m) ->
  message_get (JObj members) "params" (JObj []) = Some params ->
  get (_tools (server (snd st))) m = Some entry ->
  _handle_request (JObj members) st
  = match get (_validator_models (server (snd st))) m with
    | Some validator_model =>
        match params with
        | JObj kwargs =>
            match model_validate validator_model kwargs with
            | Model dump => call_handler id m (JObj dump) st
            | Invalid description =>
                _send_error id (-32602) "Invalid params" (Some description) st
            end
        | _ => Raise (TypeError (lit "argument after ** must be a mapping")) st
        end
    | None => call_handler id m params st
    end.
Proof.
  intros Hid Hm Hp Ht. unfold _handle_request.
  rewrite Hid, Hm, Hp. unfold lookup. rewrite Ht. reflexivity.
Qed.

Lemma valid_error_response (id : json) (code : Z) (message : string)
    (data : str) :
  valid id = true -> forallb code_point (lit message) = true ->
  forallb code_point data = true ->
  valid (error_response id code message (Some data)) = true.
Proof.
  intros H1 H2 H3. unfold error_response.
  cbn [valid forallb fst snd app]. rewrite H1, H2, H3. reflexivity.
Qed.

(** C4 as the code has it.  When validation lets a request through, the
    dispatcher calls the handler once and returns normally after writing
    exactly one frame.  If the handler raises an exception [e], the frame
    is the error response with the request's id, code -32603 and [str(e)]
    as data; if the handler returns a value, whatever the value describes,
    it is the success response with the request's id that wraps the value.
    The server object, and with it the registry, is the same afterwards,
    and of the transport only the output has grown. *)
Theorem handler_outcome_becomes_response (members : list (str * json))
    (st : state) (id params args : json) (m : str) (entry : ToolEntry D S)
    (handler : Handler) :
  message_get (JObj members) "id" None_ = Some id ->
  message_get (JObj members) "method" None_ = Some (JStr m) ->
  message_get (JObj members) "params" (JObj []) = Some params ->
  get (_tools (server (snd st))) m = Some entry ->
  get (_handlers (server (snd st))) m = Some handler ->
  Session.arguments (server (snd st)) m params = Some args ->
  _transport (server (snd st)) = true -> _started (fst st) = true ->
  valid id = true ->
  match handler args with
  | Returns result => valid result = true
  | Raises e => forallb code_point (message e) = true
  end ->
  _handle_request (JObj members) st
  = Normal
      (write (fst st)
         (frame (dumps match handler args with
                       | Returns result => success_response id result
                       | Raises e =>
                           error_response id (-32603) "Internal error"
                             (Some (message e))
                       end)),
       {| server := server (snd st);
          calls := calls (snd st) ++ [(m, args)] |}).
Proof.
  intros Hid Hm Hp Ht Hh Ha Hc Hs Hv Hout.
  rewrite (handle_request_known members st id params m entry Hid Hm Hp Ht).
  assert (C : call_handler id m args st
              = Normal
                  (write (fst st)
                     (frame (dumps match handler args with
                                   | Returns result =>
                                       success_response id result
                                   | Raises e =>
                                       error_response id (-32603)
                                         "Internal error" (Some (message e))
                                   end)),
                   {| server := server (snd st);
                      calls := calls (snd st) ++ [(m, args)] |})).
  { unfold call_handler. rewrite Hh.
    destruct (handler args) as [result|e].
    - rewrite transport_send_started; [reflexivity|exact Hc|exact Hs|].
      unfold success_response. cbn [valid forallb fst snd].
      rewrite Hv, Hout. reflexivity.
    - unfold _send_error.
      rewrite transport_send_started; [reflexivity|exact Hc|exact Hs|].
      apply valid_error_response; [exact Hv|reflexivity|exact Hout]. }
  unfold Session.arguments in Ha.
  destruct (get (_validator_models (server (snd st))) m) as [vm|].
  - destruct params as [| | | | | |kwargs]; try discriminate.
    destruct (model_validate vm kwargs); [|discriminate].
    injection Ha as <-. exact C.
  - injection Ha as <-. exact C.
Qed.

(** When the validator model of the method refuses the parameters, the
    dispatcher writes the error response with code -32602, the fixed
    message and [str(e)] as data, and calls no handler. *)
Lemma invalid_params_rejected (members : list (str * json)) (st : state)
    (id : json) (kwargs : dict json) (m : str) (entry : ToolEntry D S)
    (vm : V) (description : str) :
  message_get (JObj members) "id" None_ = Some id ->
  message_get (JObj members) "method" None_ = Some (JStr m) ->
  message_get (JObj members) "params" (JObj []) = Some (JObj kwargs) ->
  get (_tools (server (snd st))) m = Some entry ->
  get (_validator_models (server (snd st))) m = Some vm ->
  model_validate vm kwargs = Invalid description ->
  _transport (server (snd st)) = true -> _started (fst st) = true ->
  valid id = true -> forallb code_point description = true ->
  _handle_request (JObj members) st
  = Normal
      (write (fst st)
         (frame (dumps (error_response id (-32602) "Invalid params"
                          (Some description)))),
       snd st).
Proof.
  intros Hid Hm Hp Ht Hvm Hval Hc Hs Hv Hd.
  rewrite (handle_request_known members st id _ m entry Hid Hm Hp Ht).
  rewrite Hvm, Hval. unfold _send_error.
  rewrite transport_send_started; [reflexivity|exact Hc|exact Hs|].
  apply valid_error_response; [exact Hv|reflexivity|exact Hd].
Qed.

(** When validation lets a request through, the handler of the method is
    called once, with the arguments validation produced. *)
Lemma handler_called_with_arguments (members : list (str * json))
    (st : state) (id params args : json) (m : str) (entry : ToolEntry D S)
    (handler : Handler) :
  message_get (JObj members) "id" None_ = Some id ->
  message_get (JObj members) "method" None_ = Some (JStr m) ->
  message_get (JObj members) "params" (JObj []) = Some params ->
  get (_tools (server (snd st))) m = Some entry ->
  get (_handlers (server (snd st))) m = Some handler ->
  Session.arguments (server (snd st)) m params = Some args ->
  exists st',
    Session.final (_handle_request (JObj members) st) = Some st'
    /\ snd st' = snd (Session.called st m args).
Proof.
  intros Hid Hm Hp Ht Hh Ha.
  rewrite (handle_request_known members st id params m entry Hid Hm Hp Ht).
  assert (C : exists st',
             Session.final (call_handler id m args st) = Some st'
             /\ snd st' = snd (Session.called st m args)).
  { unfold call_handler. rewrite Hh.
    assert (T : forall response (s1 : state),
               exists s2, Session.final (transport_send response s1) = Some s2
                          /\ snd s2 = snd s1).
    { intros response s1. unfold transport_send.
      destruct (_transport (server (snd s1))); [|eexists; split; reflexivity].
      unfold send. destruct (negb (_started (fst s1)));
        [eexists; split; reflexivity|].
      destruct (encode _); eexists; split; reflexivity. }
    destruct (handler args) as [result|e].
    - destruct (T (success_response id result) (record_call st m args))
        as (s2 & F2 & E2).
      destruct (transport_send (success_response id result)
                  (record_call st m args)) as [s|e s|] eqn:Es;
        try discriminate; injection F2 as ->.
      + exists s2; split; [reflexivity|exact E2].
      + unfold _send_error.
        destruct (T (error_response id (-32603) "Internal error"
                       (Some (message e))) s2) as (s3 & F3 & E3).
        exists s3; split; [exact F3|]. rewrite E3; exact E2.
    - unfold _send_error.
      destruct (T (error_response id (-32603) "Internal error"
                     (Some (message e))) (record_call st m args))
        as (s3 & F3 & E3).
      exists s3; split; [exact F3|exact E3]. }
  unfold Session.arguments in Ha.
  destruct (get (_validator_models (server (snd st))) m) as [vm|].
  - destruct params as [| | | | | |kwargs]; try discriminate.
    destruct (model_validate vm kwargs); [|discriminate].
    injection Ha as <-. exact C.
  - injection Ha as <-. exact C.
Qed.

End Dispatcher.

(** ** The fuel of a session *)

Section ServerTotal.

Context {D S V : Type} `{BaseModel V}.

#[local] Abbreviation state := (Server.state D S V).
#[local] Abbreviation McpServer := (Server.McpServer D S V).

Lemma transport_send_quiet (response : json) (st st0 : state) :
  _read_buffer (fst st) = _read_buffer (fst st0) ->
  quiet (transport_send response st) st0.
Proof.
  intros B. unfold transport_send, send.
  destruct (_transport _); [|exact B].
  destruct (negb _); [exact B|].
  destruct (encode _); exact B.
Qed.

Lemma call_handler_quiet (request_id : json) (m : str) (params : json)
    (st st0 : state) :
  _read_buffer (fst st) = _read_buffer (fst st0) ->
  quiet (call_handler request_id m params st) st0.
Proof.
  intros B. unfold call_handler, _send_error.
  destruct (get _ m) as [handler|]; [|apply transport_send_quiet; exact B].
  destruct (handler params) as [result|e].
  - pose proof (transport_send_quiet (success_response request_id result)
                  (record_call st m params) st0 B) as Q.
    destruct (transport_send _ _) as [st2|e st2|]; try exact Q.
    apply transport_send_quiet; exact Q.
  - apply transport_send_quiet; exact B.
Qed.

(** The dispatcher returns or raises on every message, and leaves the
    read buffer of the transport alone. *)
Lemma handle_message_quiet (message : json) (st : state) :
  quiet (_handle_message message st) st.
Proof.
  unfold _handle_message, _respond_to_ping, _handle_request, _send_error.
  destruct (message_get message "type" None_) as [type|]; [|reflexivity].
  destruct (is_str type "ping").
  { destruct (message_get message "id" None_); [|reflexivity].
    apply transport_send_quiet; reflexivity. }
  destruct (is_str type "request"); [|reflexivity].
  destruct (message_get message "id" None_) as [request_id|]; [|reflexivity].
  destruct (message_get message "method" None_) as [method|]; [|reflexivity].
  destruct (message_get message "params" (JObj [])) as [params|];
    [|reflexivity].
  destruct (lookup _ method) as [|shown|m e]; [reflexivity| |].
  { apply transport_send_quiet; reflexivity. }
  destruct (get _ m) as [validator_model|];
    [|apply call_handler_quiet; reflexivity].
  destruct params; try reflexivity.
  destruct (model_validate _ _);
    [apply call_handler_quiet|apply transport_send_quiet]; reflexivity.
Qed.

(** X5.  The reader thread of a server comes to rest on every input:
    every call of [_process_buffer] returns or raises, since its loop and
    its nested call each work on a buffer that is shorter than the one
    before. *)
Theorem serve_total (srv : McpServer) (chunks : list bytes) :
  Session.serve srv chunks <> NoFuel.
Proof.
  unfold Session.serve. apply ReaderFacts.read_loop_total.
  - intros f [= <-] m st. apply handle_message_quiet.
  - intros f; discriminate.
  - intros f; discriminate.
Qed.

End ServerTotal.

Theorem receive_total (chunks : list bytes) : Wire.receive chunks <> NoFuel.
Proof.
  unfold Wire.receive. apply ReaderFacts.read_loop_total.
  - intros f [= <-] m st. reflexivity.
  - intros f; discriminate.
  - intros f; discriminate.
Qed.

(** ** Validation by a model with plain fields *)

Module FieldsFacts.
Import PyFacts.

Lemma occurs_eq (p h : str) :
  Session.occurs p h
  = match strip_prefix p h with
    | Some _ => true
    | None =>
        match h with
        | [] => false
        | _ :: r => Session.occurs p r
        end
    end.
Proof. destruct h; reflexivity. Qed.

Lemma occurs_app (p a b : str) : Session.occurs p (a ++ p ++ b) = true.
Proof.
  induction a as [|x a IH]; simpl app; rewrite occurs_eq.
  - rewrite strip_prefix_app; reflexivity.
  - destruct (strip_prefix p (x :: a ++ p ++ b)); [reflexivity|exact IH].
Qed.

Lemma printable_code_point (s : str) :
  Forall printable s -> forallb code_point s = true.
Proof.
  intros F; apply forallb_forall; intros c Hc.
  rewrite Forall_forall in F. destruct (F c Hc) as [H1 H2].
  unfold code_point. apply andb_true_iff; split;
    [apply Z.leb_le | apply Z.ltb_lt]; lia.
Qed.

(** The entries of the error when a required field is missing. *)
Lemma validate_fields_missing (fs : list Field) (kwargs : dict json) (f : Field) :
  In f fs -> default f = None -> get kwargs (Pydantic.name f) = None ->
  exists before after,
    snd (validate_fields fs kwargs)
    = before ++ error_line (Pydantic.name f) (lit "Field required") :: after.
Proof.
  induction fs as [|g fs IH]; intros Hin Hd Hg; [contradiction|].
  cbn [validate_fields].
  destruct (validate_fields fs kwargs) as [dump errors] eqn:E.
  destruct Hin as [->|Hin].
  - rewrite Hg, Hd. exists [], errors; reflexivity.
  - destruct (IH Hin Hd Hg) as (before & after & E'). simpl in E'.
    destruct (get kwargs (Pydantic.name g)) as [v|].
    + destruct (conforms (type_ g) v).
      * exists before, after; exact E'.
      * exists (error_line (Pydantic.name g) (lit "Input should be a valid value")
                  :: before), after.
        simpl; rewrite E'; reflexivity.
    + destruct (default g).
      * exists before, after; exact E'.
      * exists (error_line (Pydantic.name g) (lit "Field required") :: before),
          after.
        simpl; rewrite E'; reflexivity.
Qed.

Lemma validate_fields_code_points (fs : list Field) (kwargs : dict json) :
  forallb (fun f => forallb code_point (Pydantic.name f)) fs = true ->
  Forall (fun e => forallb code_point e = true) (snd (validate_fields fs kwargs)).
Proof.
  induction fs as [|g fs IH]; intros Hn; [constructor|].
  simpl in Hn; apply andb_true_iff in Hn; destruct Hn as [Hg Hn].
  specialize (IH Hn). cbn [validate_fields].
  destruct (validate_fields fs kwargs) as [dump errors]. simpl in IH.
  assert (L : forall msg : string,
             forallb code_point (lit msg) = true ->
             forallb code_point (error_line (Pydantic.name g) (lit msg)) = true).
  { intros msg Hmsg. unfold error_line. cbn [forallb].
    rewrite forallb_app. cbn [forallb]. rewrite Hg, Hmsg. reflexivity. }
  destruct (get kwargs (Pydantic.name g)) as [v|].
  - destruct (conforms (type_ g) v); simpl; [exact IH|].
    constructor; [exact (L "Input should be a valid value"%string eq_refl)|exact IH].
  - destruct (default g); simpl; [exact IH|].
    constructor; [exact (L "Field required"%string eq_refl)|exact IH].
Qed.

Lemma render_code_points (title : str) (errors : list str) :
  forallb code_point title = true ->
  Forall (fun e => forallb code_point e = true) errors ->
  forallb code_point (render title errors) = true.
Proof.
  intros Ht He. unfold render. rewrite !forallb_app.
  rewrite (printable_code_point _ (str_of_int_printable _)), Ht.
  assert (C : forallb code_point (List.concat errors) = true).
  { induction He as [|e r H1 _ IH]; simpl; [reflexivity|].
    rewrite forallb_app, H1, IH; reflexivity. }
  rewrite C. destruct (len errors =? 1); reflexivity.
Qed.

(** A missing required field makes validation fail with a description
    that names the field. *)
Lemma missing_field_described (vm : FieldsModel) (kwargs : dict json) (f : Field) :
  In f (fields vm) -> default f = None ->
  get kwargs (Pydantic.name f) = None -> valid_model vm = true ->
  exists description,
    model_validate vm kwargs = Invalid description
    /\ Session.occurs (Pydantic.name f) description = true
    /\ forallb code_point description = true.
Proof.
  intros Hin Hd Hg Hv.
  unfold valid_model in Hv; apply andb_true_iff in Hv; destruct Hv as [Ht Hn].
  destruct (validate_fields_missing (fields vm) kwargs f Hin Hd Hg)
    as (before & after & E).
  pose proof (validate_fields_code_points (fields vm) kwargs Hn) as C.
  cbn [model_validate FieldsModel_BaseModel].
  destruct (validate_fields (fields vm) kwargs) as [dump errors].
  cbn [snd] in E, C.
  destruct errors as [|e0 errors0] eqn:Ee;
    [destruct before; discriminate|].
  rewrite <- Ee in *. clear Ee e0 errors0.
  exists (render (title vm) errors). split; [reflexivity|]. split.
  - assert (R : exists a b,
               render (title vm) errors = a ++ Pydantic.name f ++ b).
    { exists (str_of_int (len errors)
              ++ lit (if len errors =? 1 then " validation error for "
                      else " validation errors for ")
              ++ title vm ++ List.concat before ++ [10]),
        ((10 :: 32 :: 32 :: lit "Field required") ++ List.concat after).
      unfold render.
      replace (List.concat errors)
        with (List.concat
                (before
                 ++ error_line (Pydantic.name f) (lit "Field required") :: after))
        by (rewrite E; reflexivity).
      rewrite concat_app. cbn [List.concat].
      unfold error_line.
      repeat (rewrite <- ?app_assoc; cbn [app]). reflexivity. }
    destruct R as (a & b & ->). apply occurs_app.
  - apply render_code_points; assumption.
Qed.

(** What a successful validation dumps. *)
Lemma validate_fields_dump (fs : list Field) (kwargs : dict json)
    (dump : dict json) :
  validate_fields fs kwargs = (dump, []) ->
  map fst dump = map Pydantic.name fs
  /\ forall f d, In f fs -> get kwargs (Pydantic.name f) = None ->
       default f = Some d -> In (Pydantic.name f, d) dump.
Proof.
  revert dump; induction fs as [|g fs IH]; intros dump E.
  - injection E as <-. split; [reflexivity|contradiction].
  - cbn [validate_fields] in E.
    destruct (validate_fields fs kwargs) as [dump0 errors0].
    assert (K : forall v, (if conforms (type_ g) v
                           then ((Pydantic.name g, v) :: dump0, errors0)
                           else (dump0,
                                 error_line (Pydantic.name g)
                                   (lit "Input should be a valid value")
                                 :: errors0)) = (dump, []) ->
                          errors0 = [] /\ dump = (Pydantic.name g, v) :: dump0).
    { intros v; destruct (conforms (type_ g) v); intros Q;
        [injection Q as <- ->; auto|discriminate]. }
    destruct (get kwargs (Pydantic.name g)) as [v|] eqn:G.
    + destruct (K v E) as [-> ->].
      destruct (IH dump0 eq_refl) as [M I]. split; [simpl; f_equal; exact M|].
      intros f d [->|Hin] Hg Hd; [congruence|].
      right; apply (I f d Hin Hg Hd).
    + destruct (default g) as [dg|] eqn:Dg; [|discriminate].
      injection E as <- ->.
      destruct (IH dump0 eq_refl) as [M I]. split; [simpl; f_equal; exact M|].
      intros f d [->|Hin] Hg Hd.
      * left. congruence.
      * right; apply (I f d Hin Hg Hd).
Qed.

End FieldsFacts.

(** Witness for C4: the tool [explode] of [Examples.raising_server]. *)
Lemma handler_outcome_becomes_response_witness :
  _handle_request (JObj (Examples.request_members 7 "explode" (JObj [])))
    (Examples.session Examples.raising_server)
  = Normal
      (write (fst (Examples.session Examples.raising_server))
         (frame (dumps (error_response (JInt 7) (-32603) "Internal error"
                          (Some (message (OtherException (lit "boom"))))))),
       {| server := server (snd (Examples.session Examples.raising_server));
          calls := calls (snd (Examples.session Examples.raising_server))
                   ++ [(lit "explode", JObj [])] |}).
Proof.
  apply (handler_outcome_becomes_response
           (Examples.request_members 7 "explode" (JObj []))
           (Examples.session Examples.raising_server)
           (JInt 7) (JObj []) (JObj []) (lit "explode")
           {| description := (PayPal.get_invoice_prompt, []);
              parameters := PayPal.schema PayPal.GetInvoiceParameters |}
           Examples.raising);
    reflexivity.
Defined.

(** Counterexample to C4 as stated.  The handlers the PayPal server
    registers do not raise: [run] catches every exception and returns its
    description as text, which the handler wraps in a result.  For
    [get_invoice], declared with [async def], the call gives a coroutine
    that [json.dumps] cannot print, and the [TypeError] ends up as that
    text: a valid [get_invoice] request is answered with status [success],
    the failure being text inside the result, not with an error response
    of code -32603. *)
Lemma returned_failure_is_success :
  exists chunk t w,
    Wire.encode_message
      (Examples.request 7 "get_invoice"
         (JObj [(lit "invoice_id", JStr (lit "INV-1"))])) = Some chunk
    /\ Session.serve Examples.invoice_server [chunk] = Normal (t, w)
    /\ map (Session.field "status") (Session.replies t)
       = [Some (JStr (lit "success"))]
    /\ map (Session.field "error") (Session.replies t) = [None]
    /\ map (Session.field "result") (Session.replies t)
       = [Some (JObj [(lit "content",
                       JList [JObj [(lit "type", JStr (lit "text"));
                                    (lit "text",
                                     JStr (dumps
                                       (JObj [(lit "error",
                                          JObj [(lit "message",
                                                 JStr (lit "Object of type coroutine is not JSON serializable"));
                                                (lit "type",
                                                 JStr (lit "paypal_error"))])])))]])])].
Proof.
  do 3 eexists.
  split; [vm_compute; reflexivity|].
  split; [vm_compute; reflexivity|].
  split; [vm_compute; reflexivity|].
  split; vm_compute; reflexivity.
Qed.

(** C6 as the code has it.  For a method registered with a validator
    model, a request whose params object lacks a required field of the
    model is answered with exactly one error response of code -32602 whose
    [message] is the fixed text [Invalid params] and whose [data] is the
    description of the validation error, which names the missing field; no
    handler is called. *)
Theorem missing_required_field_rejected {D S : Type}
    (members : list (str * json)) (st : Server.state D S FieldsModel)
    (id : json) (kwargs : dict json) (m : str) (entry : ToolEntry D S)
    (vm : FieldsModel) (f : Field) :
  message_get (JObj members) "id" None_ = Some id ->
  message_get (JObj members) "method" None_ = Some (JStr m) ->
  message_get (JObj members) "params" (JObj []) = Some (JObj kwargs) ->
  get (_tools (server (snd st))) m = Some entry ->
  get (_validator_models (server (snd st))) m = Some vm ->
  In f (fields vm) -> default f = None ->
  get kwargs (Pydantic.name f) = None ->
  _transport (server (snd st)) = true -> _started (fst st) = true ->
  valid id = true -> valid_model vm = true ->
  exists description,
    model_validate vm kwargs = Invalid description
    /\ Session.occurs (Pydantic.name f) description = true
    /\ _handle_request (JObj members) st
       = Normal
           (write (fst st)
              (frame (dumps (error_response id (-32602) "Invalid params"
                               (Some description)))),
            snd st).
Proof.
  intros Hid Hm Hp Ht Hvm Hin Hd Hg Hc Hs Hv Hmodel.
  destruct (FieldsFacts.missing_field_described vm kwargs f Hin Hd Hg Hmodel)
    as (description & Hval & Hocc & Hcp).
  exists description. split; [exact Hval|]. split; [exact Hocc|].
  exact (invalid_params_rejected members st id kwargs m entry vm description
           Hid Hm Hp Ht Hvm Hval Hc Hs Hv Hcp).
Qed.

(** Witness for C6: [get_invoice] without [invoice_id]. *)
Lemma missing_required_field_rejected_witness :
  exists description,
    model_validate Examples.GetInvoiceParameters_model [] = Invalid description
    /\ Session.occurs (lit "invoice_id") description = true
    /\ _handle_request
         (JObj (Examples.request_members 7 "get_invoice" (JObj [])))
         (Examples.session Examples.invoice_server)
       = Normal
           (write (fst (Examples.session Examples.invoice_server))
              (frame (dumps (error_response (JInt 7) (-32602) "Invalid params"
                               (Some description)))),
            snd (Examples.session Examples.invoice_server)).
Proof.
  apply (missing_required_field_rejected
           (Examples.request_members 7 "get_invoice" (JObj []))
           (Examples.session Examples.invoice_server)
           (JInt 7) [] (lit "get_invoice")
           {| description := (PayPal.get_invoice_prompt, []);
              parameters := PayPal.schema PayPal.GetInvoiceParameters |}
           Examples.GetInvoiceParameters_model
           {| Pydantic.name := lit "invoice_id"; type_ := TStr;
              default := None |});
    try reflexivity.
  left; reflexivity.
Defined.

(** Counterexample to C6 as stated.  For a [get_invoice] request without
    [invoice_id] the [message] of the error is [Invalid params], in which the
    field is not named; the name is in [data]. *)
Lemma error_message_does_not_name_field :
  exists chunk t w error,
    Wire.encode_message (Examples.request 7 "get_invoice" (JObj []))
    = Some chunk
    /\ Session.serve Examples.invoice_server [chunk] = Normal (t, w)
    /\ map (Session.field "error") (Session.replies t) = [Some error]
    /\ Session.field "code" (Some error) = Some (JInt (-32602))
    /\ Session.field "message" (Some error) = Some (JStr (lit "Invalid params"))
    /\ Session.occurs (lit "invoice_id") (lit "Invalid params") = false
    /\ exists data,
         Session.field "data" (Some error) = Some (JStr data)
         /\ Session.occurs (lit "invoice_id") data = true.
Proof.
  do 4 eexists.
  split; [vm_compute; reflexivity|].
  split; [vm_compute; reflexivity|].
  split; [vm_compute; reflexivity|].
  split; [vm_compute; reflexivity|].
  split; [vm_compute; reflexivity|].
  split; [vm_compute; reflexivity|].
  eexists. split; vm_compute; reflexivity.
Qed.

(** C10.  When the validator model of the method accepts the params
    object, the handler is called once and its argument is the dump of the
    model, not the params object: the dump has exactly the fields of the
    model, in their order, and a field with a default that the caller left
    out is in it with that default. *)
Theorem handler_receives_model_dump {D S : Type}
    (members : list (str * json)) (st : Server.state D S FieldsModel)
    (id : json) (kwargs dump : dict json) (m : str) (entry : ToolEntry D S)
    (handler : Handler) (vm : FieldsModel) :
  message_get (JObj members) "id" None_ = Some id ->
  message_get (JObj members) "method" None_ = Some (JStr m) ->
  message_get (JObj members) "params" (JObj []) = Some (JObj kwargs) ->
  get (_tools (server (snd st))) m = Some entry ->
  get (_handlers (server (snd st))) m = Some handler ->
  get (_validator_models (server (snd st))) m = Some vm ->
  model_validate vm kwargs = Model dump ->
  (exists st',
     Session.final (_handle_request (JObj members) st) = Some st'
     /\ calls (snd st') = calls (snd st) ++ [(m, JObj dump)])
  /\ map fst dump = map Pydantic.name (fields vm)
  /\ forall f d, In f (fields vm) -> get kwargs (Pydantic.name f) = None ->
       default f = Some d -> In (Pydantic.name f, d) dump.
Proof.
  intros Hid Hm Hp Ht Hh Hvm Hval. split.
  - destruct (handler_called_with_arguments members st id (JObj kwargs)
                (JObj dump) m entry handler Hid Hm Hp Ht Hh) as (st' & F & E).
    + unfold Session.arguments. rewrite Hvm, Hval. reflexivity.
    + exists st'. split; [exact F|]. rewrite E. reflexivity.
  - cbn [model_validate FieldsModel_BaseModel] in Hval.
    destruct (validate_fields (fields vm) kwargs) as [dump0 errors] eqn:E.
    destruct errors; [|discriminate]. injection Hval as ->.
    exact (FieldsFacts.validate_fields_dump (fields vm) kwargs dump E).
Qed.

(** Witness for C10: a reminder request giving only [invoice_id]. *)
Lemma handler_receives_model_dump_witness :
  (exists st',
     Session.final
       (_handle_request
          (JObj (Examples.request_members 7 "send_invoice_reminder"
                   (JObj [(lit "invoice_id", JStr (lit "INV-1"))])))
          (Examples.session Examples.invoice_server)) = Some st'
     /\ calls (snd st')
        = calls (snd (Examples.session Examples.invoice_server))
          ++ [(lit "send_invoice_reminder",
               JObj [(lit "invoice_id", JStr (lit "INV-1"));
                     (lit "subject", JNull); (lit "note", JNull);
                     (lit "additional_recipients", JNull)])])
  /\ map fst [(lit "invoice_id", JStr (lit "INV-1"));
              (lit "subject", JNull); (lit "note", JNull);
              (lit "additional_recipients", JNull)]
     = map Pydantic.name (fields Examples.SendInvoiceReminderParameters_model)
  /\ forall f d,
       In f (fields Examples.SendInvoiceReminderParameters_model) ->
       get [(lit "invoice_id", JStr (lit "INV-1"))] (Pydantic.name f) = None ->
       default f = Some d ->
       In (Pydantic.name f, d)
          [(lit "invoice_id", JStr (lit "INV-1"));
           (lit "subject", JNull); (lit "note", JNull);
           (lit "additional_recipients", JNull)].
Proof.
  refine (handler_receives_model_dump
            (Examples.request_members 7 "send_invoice_reminder"
               (JObj [(lit "invoice_id", JStr (lit "INV-1"))]))
            (Examples.session Examples.invoice_server)
            (JInt 7) [(lit "invoice_id", JStr (lit "INV-1"))] _
            (lit "send_invoice_reminder")
            {| description := (PayPal.send_invoice_reminder_prompt, []);
               parameters := PayPal.schema PayPal.SendInvoiceReminderParameters |}
            (PayPal._create_handler
               (PayPal.new_client Examples.unreachable (lit "token") [])
               (PayPal.mk "send_invoice_reminder" "Send Invoice Reminder"
                  PayPal.send_invoice_reminder_prompt []
                  PayPal.SendInvoiceReminderParameters "invoices" "sendReminder"))
            Examples.SendInvoiceReminderParameters_model
            _ _ _ _ _ _ _); reflexivity.
Defined.

(** Witness for C9: a message of type [notification] and one without type. *)
Lemma other_types_ignored_witness :
  _handle_message
    (JObj [(lit "id", JInt 1); (lit "type", JStr (lit "notification"))])
    (Examples.session Examples.invoice_server)
  = Normal (Examples.session Examples.invoice_server)
  /\ _handle_message (JObj [(lit "id", JInt 1)])
       (Examples.session Examples.invoice_server)
     = Normal (Examples.session Examples.invoice_server).
Proof.
  split; apply other_types_ignored; vm_compute; discriminate.
Defined.

(** Counterexample to C7 as stated.  Registering [get_invoice] a second
    time is accepted: the capability list is the same as before, and the
    schema, the validator model and the handler stored under the name are
    those of the second registration. *)
Lemma second_registration_overwrites :
  keys (_tools Examples.registered_twice) = keys (_tools Examples.invoice_server)
  /\ option_map (@parameters _ _)
       (get (_tools Examples.invoice_server) (lit "get_invoice"))
     = Some (PayPal.schema PayPal.GetInvoiceParameters)
  /\ option_map (@parameters _ _)
       (get (_tools Examples.registered_twice) (lit "get_invoice"))
     = Some (PayPal.schema PayPal.ListInvoicesParameters)
  /\ get (_validator_models Examples.invoice_server) (lit "get_invoice")
     = Some Examples.GetInvoiceParameters_model
  /\ get (_validator_models Examples.registered_twice) (lit "get_invoice")
     = Some Examples.SendInvoiceReminderParameters_model
  /\ option_map (fun h : Handler => h (JObj []))
       (get (_handlers Examples.registered_twice) (lit "get_invoice"))
     = Some (Returns JNull)
  /\ option_map (fun h : Handler => h (JObj []))
       (get (_handlers Examples.invoice_server) (lit "get_invoice"))
     <> Some (Returns JNull).
Proof.
  split; [vm_compute; reflexivity|].
  split; [vm_compute; reflexivity|].
  split; [vm_compute; reflexivity|].
  split; [vm_compute; reflexivity|].
  split; [vm_compute; reflexivity|].
  split; [vm_compute; reflexivity|].
  vm_compute; discriminate.
Qed.

(** ** The registry of the PayPal server *)

Section UnknownMethod.

Context {D S V : Type} `{BaseModel V}.

Lemma absent_shown_code_points (d : dict (ToolEntry D S)) (method : json)
    (shown : str) :
  valid method = true -> lookup d method = Absent shown ->
  forallb code_point shown = true.
Proof.
  intros Hv Hl. destruct method as [| [|] | n | l | m | |];
    simpl in Hl; try discriminate; try (injection Hl as <-; reflexivity).
  - injection Hl as <-.
    apply FieldsFacts.printable_code_point, PyFacts.str_of_int_printable.
  - injection Hl as <-. simpl in Hv.
    apply FieldsFacts.printable_code_point, PyFacts.printableb_spec. exact Hv.
  - destruct (get d m); [discriminate|]. injection Hl as <-. exact Hv.
Qed.

(** A request whose method is no key of the registry is answered with
    code -32601 and no handler is called. *)
Lemma unknown_method_rejected (members : list (str * json))
    (st : Server.state D S V) (id method : json) (shown : str) :
  message_get (JObj members) "id" None_ = Some id ->
  message_get (JObj members) "method" None_ = Some method ->
  lookup (_tools (server (snd st))) method = Absent shown ->
  _transport (server (snd st)) = true -> _started (fst st) = true ->
  valid id = true -> valid method = true ->
  _handle_request (JObj members) st
  = Normal
      (write (fst st)
         (frame (dumps (error_response id (-32601) "Method not found"
                          (Some (lit "Method '" ++ shown ++ lit "' not found"))))),
       snd st).
Proof.
  intros Hid Hm Hl Hc Hs Hv Hvm. unfold _handle_request.
  rewrite Hid, Hm.
  assert (P : exists params,
             message_get (JObj members) "params" (JObj []) = Some params)
    by (unfold message_get; destruct (get members (lit "params"));
        eexists; reflexivity).
  destruct P as (params & ->). rewrite Hl. unfold _send_error.
  rewrite transport_send_started; [reflexivity|exact Hc|exact Hs|].
  apply valid_error_response; [exact Hv|reflexivity|].
  rewrite !forallb_app.
  rewrite (absent_shown_code_points _ method shown Hvm Hl). reflexivity.
Qed.

End UnknownMethod.

Module PayPalFacts.
Import PayPal.

Lemma tool_keys {D S V : Type} (self : McpServer D S V) (m : str) (d : D)
    (s : S) (h : Handler) (v : option V) :
  ~ In m (keys (_tools self)) ->
  keys (_tools (tool self m d s h v)) = keys (_tools self) ++ [m].
Proof.
  intros N. unfold tool; cbn [_tools].
  apply DictFacts.keys_set_absent.
  destruct (contains (_tools self) m) eqn:E; [|reflexivity].
  apply DictFacts.contains_In in E; contradiction.
Qed.

Section Register.

Variable client : PayPalClient.
Variable configuration : Configuration.

#[local] Abbreviation register := (register client configuration).

(** Registering tools with new, pairwise different method names appends
    the allowed ones to the capability list, in order, and leaves the name,
    the version and the transport of the server alone. *)
Lemma register_all (tools : list Tool) :
  NoDup (map method tools) ->
  forall self : PayPalServer,
    (forall t, In t tools -> ~ In (method t) (keys (_tools self))) ->
    let self' := fold_left register tools self in
    keys (_tools self')
    = keys (_tools self)
      ++ map method (filter (fun t => _is_tool_allowed t configuration) tools)
    /\ Server.name self' = Server.name self
    /\ version self' = version self
    /\ _transport self' = _transport self.
Proof.
  induction tools as [|t tools IH]; intros ND self Fresh; cbn zeta.
  - simpl. rewrite app_nil_r. auto.
  - simpl map in ND. inversion ND as [|? ? Hnotin ND']; subst.
    cbn [fold_left filter].
    destruct (_is_tool_allowed t configuration) eqn:A.
    + assert (R : register self t
                  = Server.tool self (method t) (description t)
                      (schema (parameters t)) (_create_handler client t)
                      (Some (parameters t)))
        by (unfold register; rewrite A; reflexivity).
      rewrite R.
      destruct (IH ND' (Server.tool self (method t) (description t)
                          (schema (parameters t)) (_create_handler client t)
                          (Some (parameters t)))) as (K & N & Ve & Tr).
      { intros t' Hin. rewrite tool_keys by (apply Fresh; left; reflexivity).
        intros Hin'. apply in_app_or in Hin'. destruct Hin' as [Hin'|[E|[]]].
        - apply (Fresh t' (or_intror Hin) Hin').
        - apply Hnotin. rewrite E. apply in_map; exact Hin. }
      cbn zeta in K. rewrite K.
      rewrite tool_keys by (apply Fresh; left; reflexivity).
      cbn [map]. rewrite <- app_assoc.
      split; [reflexivity|]. split; [exact N|]. split; [exact Ve|exact Tr].
    + assert (R : register self t = self)
        by (unfold register; rewrite A; reflexivity).
      rewrite R. apply IH; [exact ND'|].
      intros t' Hin; apply Fresh; right; exact Hin.
Qed.

End Register.

Lemma catalog_methods_distinct (context : dict json) :
  NoDup (map method (get_tools context)).
Proof. apply RoundTrip.distinct_NoDup. vm_compute. reflexivity. Qed.

Lemma catalog_methods_code_points (context : dict json) :
  forallb (fun t => forallb code_point (method t)) (get_tools context) = true.
Proof. vm_compute. reflexivity. Qed.

Lemma registered (functions : str -> dict json -> json -> ApiResult)
    (access_token : str) (configuration : Configuration) :
  keys (_tools (PayPalMcpServer functions access_token configuration))
  = enabled_methods functions access_token configuration
  /\ Server.name (PayPalMcpServer functions access_token configuration)
     = lit "PayPal"
  /\ version (PayPalMcpServer functions access_token configuration)
     = lit "0.4.0".
Proof.
  unfold PayPalMcpServer, _register_tools, enabled_methods, catalog.
  cbv zeta.
  set (client := new_client functions access_token
                   (get_or_empty (cfg_context configuration))).
  destruct (register_all client configuration
              (get_tools (context_after_client configuration client))
              (catalog_methods_distinct _)
              (Server.init (lit "PayPal") (lit "0.4.0")))
    as (K & N & Ve & _).
  { intros t _ []. }
  cbv zeta in K, N, Ve. rewrite K, N, Ve.
  split; [reflexivity|]. split; reflexivity.
Qed.

Lemma enabled_methods_code_points
    (functions : str -> dict json -> json -> ApiResult)
    (access_token : str) (configuration : Configuration) :
  forallb (forallb code_point)
    (enabled_methods functions access_token configuration) = true.
Proof.
  unfold enabled_methods, catalog.
  generalize (catalog_methods_code_points
                (context_after_client configuration
                   (new_client functions access_token
                      (get_or_empty (cfg_context configuration))))).
  generalize (get_tools
                (context_after_client configuration
                   (new_client functions access_token
                      (get_or_empty (cfg_context configuration))))).
  intros l; induction l as [|t l IH]; simpl; intros Hl; [reflexivity|].
  apply andb_true_iff in Hl; destruct Hl as [H1 H2].
  destruct (_is_tool_allowed t configuration); simpl;
    [rewrite H1|]; apply IH; exact H2.
Qed.

Lemma valid_names (names : list str) :
  forallb (forallb code_point) names = true ->
  forallb valid (map JStr names) = true.
Proof.
  induction names as [|x r IH]; simpl; intros C; [reflexivity|].
  apply andb_true_iff in C; destruct C as [C1 C2].
  rewrite C1. exact (IH C2).
Qed.

(** What [_is_tool_allowed] decides. *)
Lemma is_tool_allowed_spec (tool : Tool) (configuration : Configuration) :
  _is_tool_allowed tool configuration = true
  <-> exists product product_actions action enabled allowed,
        In (product, product_actions) (actions tool)
        /\ In (action, enabled) product_actions
        /\ get (get_or_empty (cfg_actions configuration)) product = Some allowed
        /\ get allowed action = Some true.
Proof.
  unfold _is_tool_allowed. rewrite existsb_exists. split.
  - intros ([product product_actions] & Hin & Hex).
    apply existsb_exists in Hex.
    destruct Hex as ([action enabled] & Hin' & Hflag).
    destruct (get (get_or_empty (cfg_actions configuration)) product)
      as [allowed|] eqn:G; [|discriminate].
    destruct (get allowed action) as [flag|] eqn:G'; [|discriminate].
    subst flag. exists product, product_actions, action, enabled, allowed.
    auto.
  - intros (product & product_actions & action & enabled & allowed
            & Hin & Hin' & G & G').
    exists (product, product_actions). split; [exact Hin|].
    apply existsb_exists. exists (action, enabled). split; [exact Hin'|].
    rewrite G, G'. reflexivity.
Qed.

End PayPalFacts.

(** What [connect] changes. *)
Section Connect.

Context {D S V : Type}.

Variable t : StdioTransport.
Variable srv : McpServer D S V.
Variable log : list (str * json).

#[local] Abbreviation st := (connect (t, {| server := srv; calls := log |})).

Lemma connect_name : Server.name (server (snd st)) = Server.name srv.
Proof. reflexivity. Qed.

Lemma connect_version : version (server (snd st)) = version srv.
Proof. reflexivity. Qed.

Lemma connect_tools : _tools (server (snd st)) = _tools srv.
Proof. reflexivity. Qed.

Lemma connect_transport : _transport (server (snd st)) = true.
Proof. reflexivity. Qed.

Lemma connect_started : _started (fst st) = true.
Proof.
  unfold connect, start; cbn [fst].
  destruct (_started t) eqn:E; [exact E|reflexivity].
Qed.

End Connect.

(** ** The claims about the PayPal server *)

Import PayPal.

(** Counterexample to C3 as stated.  With [invoices.list] and
    [invoices.get] enabled, the capabilities in the answer to a ping are
    [list_invoices], [get_invoice], the order of the catalog, while the
    sorted list of these names starts with [get_invoice]. *)
Lemma ping_capabilities_not_sorted :
  exists t w result,
    _respond_to_ping (Examples.ping 7)
      (Examples.session
         (PayPalMcpServer Examples.unreachable (lit "token")
            Examples.list_and_get))
    = Normal (t, w)
    /\ map (Session.field "result") (Session.replies t) = [Some result]
    /\ Session.field "capabilities" (Some result)
       = Some (JList [JStr (lit "list_invoices"); JStr (lit "get_invoice")])
    /\ PayPal.enabled_methods Examples.unreachable (lit "token")
         Examples.list_and_get
       = [lit "list_invoices"; lit "get_invoice"]
    /\ SpecWords.sorted [lit "list_invoices"; lit "get_invoice"]
       = [lit "get_invoice"; lit "list_invoices"].
Proof.
  do 3 eexists.
  split; [vm_compute; reflexivity|].
  split; [vm_compute; reflexivity|].
  split; [vm_compute; reflexivity|].
  split; vm_compute; reflexivity.
Qed.

(** C3 as the code has it.  The PayPal server answers every ping, a dict
    of type ["ping"], with exactly one success response that echoes the id
    (also inside the result) and whose result gives the name [PayPal], the
    version [0.4.0] and, as capabilities, the method names of the tools the
    configuration enables, in the order of the catalog. *)
Theorem ping_lists_enabled_in_catalog_order
    (validation : BaseModel Parameters)
    (functions : str -> dict json -> json -> ApiResult)
    (access_token : str) (configuration : Configuration)
    (members : list (str * json)) (t : StdioTransport)
    (log : list (str * json)) (id : json) :
  get members (lit "type") = Some (JStr (lit "ping")) ->
  message_get (JObj members) "id" None_ = Some id ->
  valid id = true ->
  let st :=
    connect (t, {| server := PayPalMcpServer functions access_token configuration;
                   calls := log |}) in
  _handle_message (JObj members) st
  = Normal
      (write (fst st)
         (frame
            (dumps
               (success_response id
                  (JObj [(lit "id", id);
                         (lit "name", JStr (lit "PayPal"));
                         (lit "version", JStr (lit "0.4.0"));
                         (lit "capabilities",
                          JList (map JStr
                                   (PayPal.enabled_methods functions
                                      access_token configuration)))])))),
       snd st).
Proof.
  intros Hty Hid Hv st.
  destruct (PayPalFacts.registered functions access_token configuration)
    as (K & N & Ve).
  unfold _handle_message, message_get. rewrite Hty.
  cbn [is_str]. rewrite PyFacts.str_eqb_refl. cbv iota.
  unfold _respond_to_ping. rewrite Hid.
  unfold ping_response, st.
  rewrite connect_name, connect_version, connect_tools, K, N, Ve.
  apply transport_send_started.
  - apply connect_transport.
  - apply connect_started.
  - unfold success_response. cbn [valid forallb fst snd].
    rewrite Hv.
    rewrite (PayPalFacts.valid_names _
               (PayPalFacts.enabled_methods_code_points functions access_token
                  configuration)).
    reflexivity.
Qed.

(** Witness for C3: a ping with id 7 on a fresh session with
    [invoices.list] and [invoices.get] enabled. *)
Lemma ping_lists_enabled_in_catalog_order_witness :
  let st :=
    connect (Transport.init,
             {| server := PayPalMcpServer Examples.unreachable (lit "token")
                            Examples.list_and_get;
                calls := [] |}) in
  @_handle_message _ _ _ Examples.accepting
    (JObj [(lit "id", JInt 7); (lit "type", JStr (lit "ping"))]) st
  = Normal
      (write (fst st)
         (frame
            (dumps
               (success_response (JInt 7)
                  (JObj [(lit "id", JInt 7);
                         (lit "name", JStr (lit "PayPal"));
                         (lit "version", JStr (lit "0.4.0"));
                         (lit "capabilities",
                          JList (map JStr
                                   (PayPal.enabled_methods
                                      Examples.unreachable (lit "token")
                                      Examples.list_and_get)))])))),
       snd st).
Proof.
  apply (ping_lists_enabled_in_catalog_order Examples.accepting
           Examples.unreachable (lit "token") Examples.list_and_get
           [(lit "id", JInt 7); (lit "type", JStr (lit "ping"))]
           Transport.init [] (JInt 7)); reflexivity.
Defined.

(** C5.  A tool is allowed exactly when the configuration maps one of the
    (product, action) pairs the tool declares to [True], so that a missing
    entry denies; the registry of the PayPal server holds exactly the
    allowed tools of the catalog, which is what a ping lists; and a request
    whose method is no key of the registry is answered with one error
    response of code -32601 without a handler being called. *)
Theorem default_deny_enablement
    (validation : BaseModel Parameters)
    (functions : str -> dict json -> json -> ApiResult)
    (access_token : str) (configuration : Configuration) :
  let self := PayPalMcpServer functions access_token configuration in
  (forall tool,
     _is_tool_allowed tool configuration = true
     <-> exists product product_actions action enabled allowed,
           In (product, product_actions) (actions tool)
           /\ In (action, enabled) product_actions
           /\ get (get_or_empty (cfg_actions configuration)) product
              = Some allowed
           /\ get allowed action = Some true)
  /\ (forall m,
        contains (_tools self) m = true
        <-> exists tool,
              In tool (PayPal.catalog functions access_token configuration)
              /\ method tool = m
              /\ _is_tool_allowed tool configuration = true)
  /\ keys (_tools self)
     = PayPal.enabled_methods functions access_token configuration
  /\ forall (members : list (str * json)) (t : StdioTransport)
       (log : list (str * json)) (id method : json) (shown : str),
       message_get (JObj members) "id" None_ = Some id ->
       message_get (JObj members) "method" None_ = Some method ->
       lookup (_tools self) method = Absent shown ->
       valid id = true -> valid method = true ->
       let st := connect (t, {| server := self; calls := log |}) in
       _handle_request (JObj members) st
       = Normal
           (write (fst st)
              (frame
                 (dumps
                    (error_response id (-32601) "Method not found"
                       (Some (lit "Method '" ++ shown ++ lit "' not found"))))),
            snd st).
Proof.
  cbv zeta.
  destruct (PayPalFacts.registered functions access_token configuration)
    as (K & _).
  split; [intros tool; apply PayPalFacts.is_tool_allowed_spec|].
  split.
  - intros m. rewrite DictFacts.contains_In, K.
    unfold PayPal.enabled_methods. rewrite in_map_iff.
    split.
    + intros (tool & E & Hin). apply filter_In in Hin.
      exists tool; tauto.
    + intros (tool & Hin & E & A). exists tool. split; [exact E|].
      apply filter_In; tauto.
  - split; [exact K|].
    intros members t log id method shown Hid Hm Hl Hv Hvm.
    apply (unknown_method_rejected members _ id method shown Hid Hm);
      [rewrite connect_tools; exact Hl | apply connect_transport
      | apply connect_started | exact Hv | exact Hvm].
Qed.

(** Witness for C5: with only [invoices.list] and [invoices.get] enabled,
    a request for [capture_order]. *)
Lemma default_deny_enablement_witness :
  let self :=
    PayPalMcpServer Examples.unreachable (lit "token") Examples.list_and_get in
  let st := connect (Transport.init, {| server := self; calls := [] |}) in
  @_handle_request _ _ _ Examples.accepting
    (JObj (Examples.request_members 7 "capture_order"
             (JObj [(lit "id", JStr (lit "O-1"))]))) st
  = Normal
      (write (fst st)
         (frame
            (dumps
               (error_response (JInt 7) (-32601) "Method not found"
                  (Some (lit "Method '" ++ lit "capture_order"
                         ++ lit "' not found"))))),
       snd st).
Proof.
  pose proof (default_deny_enablement Examples.accepting Examples.unreachable
                (lit "token") Examples.list_and_get) as T.
  cbv zeta in T. destruct T as (_ & _ & _ & R).
  cbv zeta.
  apply (R (Examples.request_members 7 "capture_order"
              (JObj [(lit "id", JStr (lit "O-1"))]))
           Transport.init [] (JInt 7) (JStr (lit "capture_order"))
           (lit "capture_order")).
  - reflexivity.
  - reflexivity.
  - vm_compute; reflexivity.
  - reflexivity.
  - reflexivity.
Defined.

(** ** Further properties of the transport *)

Lemma encode_message_plain (m : json) :
  plain m = true -> Wire.encode_message m = Some (frame (dumps m)).
Proof.
  intros H. unfold Wire.encode_message.
  rewrite (TransportFacts.send_started m (start Transport.init)
             (TransportFacts.plain_valid m H) eq_refl).
  reflexivity.
Qed.

(** X1.  Messages written by [send], each arriving in chunks of its own
    (cut anywhere, no chunk empty), are handed to [onmessage] once each, in
    the order sent; nothing is reported to [onerror] and the transport
    stays open. *)
Theorem chunked_frames_delivered_once (messages : list json)
    (pieces : list (list bytes)) :
  Forall2 (fun m chunks =>
             plain m = true
             /\ Forall (fun c : bytes => c <> []) chunks
             /\ Wire.encode_message m = Some (List.concat chunks))
    messages pieces ->
  Trace.trace (List.concat pieces) = Some (map Trace.Message messages).
Proof.
  intros F. unfold Trace.trace.
  rewrite (TraceFacts.run_messages messages pieces (start Transport.init) []);
    try reflexivity.
  eapply Forall2_impl; [|exact F].
  intros m chunks (Hp & NE & E). repeat split; try assumption.
  rewrite (encode_message_plain m Hp) in E. injection E as ->. reflexivity.
Qed.

Lemma chunked_frames_delivered_once_witness :
  Trace.trace
    (List.concat
       [ [firstn 9 (frame (dumps (Examples.ping 1)));
          skipn 9 (frame (dumps (Examples.ping 1)))];
         [frame (dumps (Examples.ping 2))] ])
  = Some (map Trace.Message [Examples.ping 1; Examples.ping 2]).
Proof.
  apply (chunked_frames_delivered_once [Examples.ping 1; Examples.ping 2]).
  repeat constructor;
    try (intros E; vm_compute in E; discriminate E).
Defined.

Lemma dispatches_length (messages : list json) :
  List.length (Trace.dispatches messages)
  = (2 ^ List.length messages - 1)%nat.
Proof.
  induction messages as [|m r IH]; [reflexivity|].
  cbn [Trace.dispatches List.length]. rewrite length_app, IH.
  rewrite Nat.pow_succ_r'.
  pose proof (Nat.pow_nonzero 2 (List.length r)). lia.
Qed.

(** X2.  When the frames of several messages arrive in one chunk, the
    reader hands over the first message once and then runs twice over
    what follows it (once in the nested call of [_process_buffer], once in
    its own loop): [n] frames make [2 ^ n - 1] calls of [onmessage]. *)
Theorem frames_in_one_chunk (messages : list json) :
  forallb plain messages = true -> messages <> [] ->
  Trace.trace [Trace.frames messages]
  = Some (map Trace.Message (Trace.dispatches messages))
  /\ List.length (Trace.dispatches messages)
     = (2 ^ List.length messages - 1)%nat.
Proof.
  intros Hp NE. split; [|apply dispatches_length].
  pose proof (TraceFacts.frames_ascii messages Hp) as A.
  unfold Trace.trace.
  pose proof (TraceFacts.run_chunk (Trace.frames messages) [] (start Transport.init) []
                (with_read_buffer (start Transport.init) [],
                 map Trace.Message (Trace.dispatches messages))) as R.
  unfold bytes, str in *. rewrite R.
  - reflexivity.
  - reflexivity.
  - destruct messages as [|m r]; [contradiction|].
    rewrite TraceFacts.frames_cons. intros E. apply app_eq_nil in E.
    destruct E as [E _]. revert E. apply TraceFacts.frame_nonempty.
  - rewrite TraceFacts.process_buffer_ascii by exact A.
    cbn [with_read_buffer _read_buffer start Transport.init app _started with_flags].
    rewrite (TraceFacts.loop_frames messages Hp) by lia.
    destruct messages; [contradiction|reflexivity].
Qed.

Lemma frames_in_one_chunk_witness :
  Trace.trace [Trace.frames [Examples.ping 1; Examples.ping 2; Examples.ping 3]]
  = Some (map Trace.Message
            (Trace.dispatches
               [Examples.ping 1; Examples.ping 2; Examples.ping 3]))
  /\ List.length
       (Trace.dispatches [Examples.ping 1; Examples.ping 2; Examples.ping 3])
     = (2 ^ 3 - 1)%nat.
Proof.
  apply (frames_in_one_chunk
           [Examples.ping 1; Examples.ping 2; Examples.ping 3]).
  - reflexivity.
  - discriminate.
Defined.

(** X3.  With one frame in each chunk, whatever the bodies are, every
    frame is taken out of the buffer and looked at once, in order: a body
    that is a JSON text goes to [onmessage], any other body is reported to
    [onerror] as a [JSONDecodeError], and the reader goes on with the next
    chunk. *)
Theorem one_frame_per_chunk (contents : list str) (chunks : list bytes) :
  Forall2 (fun content b => encode (frame content) = Some b)
    contents chunks ->
  Trace.trace chunks = Some (map Trace.event_of contents).
Proof.
  intros F. unfold Trace.trace.
  rewrite (TraceFacts.run_frame_per_chunk contents chunks (start Transport.init) [] F);
    reflexivity.
Qed.

Lemma one_frame_per_chunk_witness :
  Trace.trace [frame (lit "{oops"); frame (dumps (Examples.ping 1))]
  = Some (map Trace.event_of [lit "{oops"; dumps (Examples.ping 1)]).
Proof.
  apply (one_frame_per_chunk [lit "{oops"; dumps (Examples.ping 1)]).
  repeat constructor.
Defined.

(** X4.  When [read] returns no bytes the reader closes the transport:
    [onclose] is called once (although [close] is called twice, at the end
    of input and when the loop is left), the chunks that would follow are
    not read, and from then on [send] raises [RuntimeError] and writes
    nothing. *)
Theorem end_of_input_closes_once (chunks more : list bytes) :
  Forall (fun c : bytes => c <> []) chunks ->
  exists t events,
    Trace.run chunks (start Transport.init, []) = Normal (t, events)
    /\ Trace.run (chunks ++ [] :: more) (start Transport.init, [])
       = Normal (with_flags t false true, events ++ [Trace.Closed])
    /\ forall m,
         send m (with_flags t false true)
         = Raise (RuntimeError (lit "Transport not started"))
             (with_flags t false true).
Proof.
  intros NE.
  destruct (TraceFacts.run_chunks chunks NE (start Transport.init, []) eq_refl)
    as ([t events] & (S & C) & R).
  exists t, events. split; [|split].
  - rewrite <- (app_nil_r chunks), R. unfold Trace.run.
    rewrite ReaderFacts.read_loop_eq. cbn [fst] in *. rewrite C. reflexivity.
  - rewrite R. apply TraceFacts.run_eof; cbn [fst] in *;
      [rewrite S|rewrite C]; reflexivity.
  - intros m. reflexivity.
Qed.

Lemma end_of_input_closes_once_witness :
  exists t events,
    Trace.run [frame (dumps (Examples.ping 1))] (start Transport.init, [])
    = Normal (t, events)
    /\ Trace.run ([frame (dumps (Examples.ping 1))]
                  ++ [] :: [frame (dumps (Examples.ping 2))])
         (start Transport.init, [])
       = Normal (with_flags t false true, events ++ [Trace.Closed])
    /\ forall m,
         send m (with_flags t false true)
         = Raise (RuntimeError (lit "Transport not started"))
             (with_flags t false true).
Proof.
  apply (end_of_input_closes_once [frame (dumps (Examples.ping 1))]).
  repeat constructor. intros E; vm_compute in E; discriminate E.
Defined.

(** ** Further properties of the dispatcher *)

Section Dropped.

Context {D S V : Type} `{BaseModel V}.

#[local] Abbreviation state := (Server.state D S V).
#[local] Abbreviation McpServer := (Server.McpServer D S V).
#[local] Abbreviation reader :=
  (_read_loop (World D S V) (Some _handle_message) None None).

(** A frame on whose message the dispatcher raises.  When the chunk just
    read completes the frame at the head of the buffer, the frame is taken
    out, the exception leaves [_process_buffer] and is logged by the
    reader, which goes on with the next chunk; what followed the frame in
    the buffer is stored again and not looked at in this turn. *)
Lemma reader_dropped (content : str) (v : json) (e : Exception) (st : state)
    (chunk : bytes) (rest : str) (b : bytes) (more : list bytes) :
  loads content = Some v ->
  is_JSONDecodeError e = false ->
  (forall st' : state,
     snd st' = snd st -> _handle_message v st' = Raise e st') ->
  _closed (fst st) = false ->
  chunk <> [] ->
  decode_replace (_read_buffer (fst st) ++ chunk) = frame content ++ rest ->
  encode rest = Some b ->
  reader (chunk :: more) st
  = reader more (with_read_buffer (fst st) b, snd st).
Proof.
  intros Hl He Hr Hc Hn Hd Hb.
  rewrite ReaderFacts.read_loop_eq. rewrite Hc. unfold read_turn.
  destruct chunk as [|c chunk]; [contradiction|].
  unfold _process_buffer, process_buffer_fuel. cbn [fst snd _read_buffer
    with_read_buffer].
  rewrite Hd.
  rewrite (FrameFacts.process_loop_frame_app _ _ _ _ content rest b _ Hb).
  unfold parse_and_dispatch. rewrite Hl. cbn [fst snd].
  rewrite Hr by reflexivity. rewrite He. cbn [Exc.bind call_onerror].
  reflexivity.
Qed.

(** X6.  A frame whose body is a JSON text but no object (a list, a
    string, a number, [true], [false] or [null]) gets no response.  When
    the chunk just read completes it at the head of the buffer,
    [message.get] raises [AttributeError], which leaves [_process_buffer];
    the frame is consumed, nothing is written, no handler runs, and the
    reader, which only logs the exception, goes on with the next chunk.
    What followed the frame in the buffer stays there, not looked at until
    a later chunk arrives. *)
Theorem non_object_message_dropped (content : str) (v : json) (st : state)
    (chunk : bytes) (rest : str) (b : bytes) (more : list bytes) :
  loads content = Some v -> (forall members, v <> JObj members) ->
  _closed (fst st) = false ->
  chunk <> [] ->
  decode_replace (_read_buffer (fst st) ++ chunk) = frame content ++ rest ->
  encode rest = Some b ->
  reader (chunk :: more) st
  = reader more (with_read_buffer (fst st) b, snd st).
Proof.
  intros Hl N. apply (reader_dropped content v no_get); [exact Hl|reflexivity|].
  intros st' _. unfold _handle_message.
  destruct v; try reflexivity. exfalso; exact (N _ eq_refl).
Qed.

(** X7.  Two kinds of request get no response at all.  One whose method
    is a list or an object: [method not in self._tools] raises [TypeError]
    (unhashable).  One whose method has a validator model and whose params
    are no object: unpacking the params as keyword arguments of the model
    raises [TypeError], which the [except ValidationError] clause does not
    catch.  In both cases, when the chunk just read completes the frame at
    the head of the buffer, the exception leaves [_process_buffer]: the
    frame is consumed, nothing is written, no handler runs, and the
    reader, which only logs the exception, goes on with the next chunk.
    What followed the frame in the buffer stays there, not looked at until
    a later chunk arrives. *)
Theorem unanswered_request_dropped (content : str)
    (members : list (str * json)) (id method params : json) (st : state)
    (chunk : bytes) (rest : str) (b : bytes) (more : list bytes) :
  loads content = Some (JObj members) ->
  get members (lit "type") = Some (JStr (lit "request")) ->
  message_get (JObj members) "id" None_ = Some id ->
  message_get (JObj members) "method" None_ = Some method ->
  message_get (JObj members) "params" (JObj []) = Some params ->
  (exists items, method = JList items)
  \/ (exists ms, method = JObj ms)
  \/ (exists m entry validator_model,
        method = JStr m
        /\ get (_tools (server (snd st))) m = Some entry
        /\ get (_validator_models (server (snd st))) m = Some validator_model
        /\ forall kwargs, params <> JObj kwargs) ->
  _closed (fst st) = false ->
  chunk <> [] ->
  decode_replace (_read_buffer (fst st) ++ chunk) = frame content ++ rest ->
  encode rest = Some b ->
  reader (chunk :: more) st
  = reader more (with_read_buffer (fst st) b, snd st).
Proof.
  intros Hl Hty Hid Hm Hpa Cases.
  assert (R : forall st : state,
             _handle_message (JObj members) st
             = _handle_request (JObj members) st).
  { intros st0. unfold _handle_message, message_get. rewrite Hty.
    cbn [is_str]. rewrite PyFacts.str_eqb_refl.
    replace (str_eqb (lit "request") (lit "ping")) with false by reflexivity.
    reflexivity. }
  destruct Cases as [(items & ->)|[(ms & ->)|(m & entry & vm & -> & Ht & Hv & N)]].
  - apply (reader_dropped content (JObj members) unhashable);
      [exact Hl|reflexivity|].
    intros st' _. rewrite R. unfold _handle_request.
    rewrite Hid, Hm, Hpa. reflexivity.
  - apply (reader_dropped content (JObj members) unhashable);
      [exact Hl|reflexivity|].
    intros st' _. rewrite R. unfold _handle_request.
    rewrite Hid, Hm, Hpa. reflexivity.
  - apply (reader_dropped content (JObj members)
             (TypeError (lit "argument after ** must be a mapping")));
      [exact Hl|reflexivity|].
    intros st' E. rewrite R. unfold _handle_request.
    rewrite Hid, Hm, Hpa. unfold lookup. rewrite E, Ht, Hv.
    destruct params; try reflexivity. exfalso; exact (N _ eq_refl).
Qed.

End Dropped.

Lemma non_object_message_dropped_witness :
  let st := Examples.session Examples.invoice_server in
  let ping := frame (dumps (Examples.ping 1)) in
  Session.serve Examples.invoice_server [frame (lit "[1, 2.5]") ++ ping]
  = Normal (with_read_buffer (fst st) ping, snd st).
Proof.
  intros st ping.
  refine (non_object_message_dropped (lit "[1, 2.5]")
            (JList [JInt 1; JFloat (lit "2.5")]) st
            (frame (lit "[1, 2.5]") ++ ping) ping ping []
            eq_refl _ eq_refl _ eq_refl eq_refl); discriminate.
Defined.

Lemma unanswered_request_dropped_witness :
  let st := Examples.session Examples.invoice_server in
  let ping := frame (dumps (Examples.ping 1)) in
  let content :=
    dumps (JObj (Examples.request_members 5 "get_invoice"
                   (JStr (lit "INV2-1")))) in
  Session.serve Examples.invoice_server [frame content ++ ping]
  = Normal (with_read_buffer (fst st) ping, snd st).
Proof.
  intros st ping content.
  refine (unanswered_request_dropped content
            (Examples.request_members 5 "get_invoice" (JStr (lit "INV2-1")))
            (JInt 5) (JStr (lit "get_invoice")) (JStr (lit "INV2-1")) st
            (frame content ++ ping) ping ping []
            eq_refl eq_refl eq_refl eq_refl eq_refl _ eq_refl _
            eq_refl eq_refl); [|discriminate].
  right; right. do 3 eexists.
  split; [reflexivity|]. split; [reflexivity|]. split; [reflexivity|].
  discriminate.
Defined.

Module ValidFacts.

Lemma valid_get (members : list (str * json)) (k : str) (v : json) :
  valid (JObj members) = true -> get members k = Some v -> valid v = true.
Proof.
  cbn [valid]. induction members as [|[k' v'] r IH]; cbn [forallb get fst snd];
    [discriminate|].
  intros Hv. apply andb_true_iff in Hv; destruct Hv as [H1 H2].
  apply andb_true_iff in H1; destruct H1 as [_ H1].
  destruct (str_eqb k' k); [intros [= <-]; exact H1|apply IH; exact H2].
Qed.

Lemma valid_message_get (members : list (str * json)) (k : string)
    (default v : json) :
  valid (JObj members) = true -> valid default = true ->
  message_get (JObj members) k default = Some v -> valid v = true.
Proof.
  intros Hv Hd. unfold message_get.
  destruct (get members (lit k)) as [w|] eqn:G.
  - intros [= <-]. exact (valid_get members _ _ Hv G).
  - intros [= <-]. exact Hd.
Qed.

End ValidFacts.

Section Answered.

Context {D S V : Type} `{BaseModel V}.

#[local] Abbreviation state := (Server.state D S V).

(** X8.  A request whose method is hashable (anything but a list or an
    object) and whose params are an object whenever the method has a
    validator model is answered exactly once: the dispatcher returns
    normally after writing one frame, a response that carries the id of the
    request and the status [success] or [error]; at most one handler call
    is made, and the server object is left as it was. *)
Theorem request_answered_once (members : list (str * json)) (st : state)
    (id method params : json) :
  valid (JObj members) = true ->
  get members (lit "type") = Some (JStr (lit "request")) ->
  message_get (JObj members) "id" None_ = Some id ->
  message_get (JObj members) "method" None_ = Some method ->
  message_get (JObj members) "params" (JObj []) = Some params ->
  _transport (server (snd st)) = true -> _started (fst st) = true ->
  (forall items, method <> JList items) ->
  (forall ms, method <> JObj ms) ->
  (forall m validator_model,
     method = JStr m ->
     get (_validator_models (server (snd st))) m = Some validator_model ->
     exists kwargs, params = JObj kwargs) ->
  (forall m handler args,
     get (_handlers (server (snd st))) m = Some handler ->
     match handler args with
     | Returns result => valid result = true
     | Raises e => forallb code_point (message e) = true
     end) ->
  (forall m validator_model kwargs description,
     get (_validator_models (server (snd st))) m = Some validator_model ->
     model_validate validator_model kwargs = Invalid description ->
     forallb code_point description = true) ->
  exists response made,
    _handle_message (JObj members) st
    = Normal (write (fst st) (frame (dumps response)),
              {| server := server (snd st);
                 calls := calls (snd st) ++ made |})
    /\ message_get response "id" None_ = Some id
    /\ message_get response "type" None_ = Some (JStr (lit "response"))
    /\ (message_get response "status" None_ = Some (JStr (lit "success"))
        \/ message_get response "status" None_ = Some (JStr (lit "error")))
    /\ (List.length made <= 1)%nat.
Proof.
  intros Hv Hty Hid Hm Hpa Hc Hs NL NO Map Hh Hval.
  pose proof (ValidFacts.valid_message_get members "id" None_ id Hv eq_refl Hid)
    as Vid.
  pose proof (ValidFacts.valid_message_get members "method" None_ method Hv
                eq_refl Hm) as Vm.
  assert (R : _handle_message (JObj members) st
              = _handle_request (JObj members) st).
  { unfold _handle_message, message_get. rewrite Hty.
    cbn [is_str]. rewrite PyFacts.str_eqb_refl.
    replace (str_eqb (lit "request") (lit "ping")) with false by reflexivity.
    reflexivity. }
  rewrite R.
  assert (Err : forall code text data (s1 : state) made,
             fst s1 = fst st ->
             snd s1 = {| server := server (snd st);
                         calls := calls (snd st) ++ made |} ->
             (List.length made <= 1)%nat ->
             forallb code_point (lit text) = true ->
             forallb code_point data = true ->
             exists response made,
               _send_error id code text (Some data) s1
               = Normal (write (fst st) (frame (dumps response)),
                         {| server := server (snd st);
                            calls := calls (snd st) ++ made |})
               /\ message_get response "id" None_ = Some id
               /\ message_get response "type" None_
                  = Some (JStr (lit "response"))
               /\ (message_get response "status" None_
                   = Some (JStr (lit "success"))
                   \/ message_get response "status" None_
                      = Some (JStr (lit "error")))
               /\ (List.length made <= 1)%nat).
  { intros code text data s1 made E1 E2 L Ht Hd.
    exists (error_response id code text (Some data)), made.
    unfold _send_error.
    rewrite transport_send_started;
      [|rewrite E2; exact Hc|rewrite E1; exact Hs
       |apply valid_error_response; assumption].
    rewrite E1, E2.
    split; [reflexivity|]. split; [reflexivity|]. split; [reflexivity|].
    split; [right; reflexivity|exact L]. }
  assert (Call : forall m args,
             forallb code_point m = true ->
             exists response made,
               call_handler id m args st
               = Normal (write (fst st) (frame (dumps response)),
                         {| server := server (snd st);
                            calls := calls (snd st) ++ made |})
               /\ message_get response "id" None_ = Some id
               /\ message_get response "type" None_
                  = Some (JStr (lit "response"))
               /\ (message_get response "status" None_
                   = Some (JStr (lit "success"))
                   \/ message_get response "status" None_
                      = Some (JStr (lit "error")))
               /\ (List.length made <= 1)%nat).
  { intros m args Cm.
    unfold call_handler. cbv zeta.
    destruct (get (_handlers (server (snd st))) m) as [handler|] eqn:G.
    - specialize (Hh m handler args G).
      destruct (handler args) as [result|e].
      + exists (success_response id result), [(m, args)].
        rewrite transport_send_started;
          [|exact Hc|exact Hs
           |unfold success_response; cbn [valid forallb fst snd];
            rewrite Vid, Hh; reflexivity].
        split; [reflexivity|]. split; [reflexivity|]. split; [reflexivity|].
        split; [left; reflexivity|cbn; lia].
      + apply (Err _ _ _ _ [(m, args)]); try reflexivity; try (cbn; lia).
        exact Hh.
    - apply (Err _ _ _ _ []); try reflexivity.
      + destruct st as [t [srv cs]]; cbn. rewrite app_nil_r. reflexivity.
      + cbn; lia.
      + cbn [message forallb]. rewrite forallb_app, Cm. reflexivity. }
  unfold _handle_request. rewrite Hid, Hm, Hpa.
  destruct (lookup (_tools (server (snd st))) method) as [|shown|m entry] eqn:L.
  - unfold lookup in L. destruct method as [|[|]| | |s| |]; try discriminate;
      [destruct (get _ s); discriminate
      |exfalso; exact (NL _ eq_refl)|exfalso; exact (NO _ eq_refl)].
  - apply (Err _ _ _ _ []); try reflexivity.
    + destruct st as [t [srv cs]]; cbn. rewrite app_nil_r. reflexivity.
    + cbn; lia.
    + rewrite !forallb_app.
      rewrite (absent_shown_code_points _ method shown Vm L). reflexivity.
  - assert (Em : method = JStr m).
    { unfold lookup in L. destruct method; try discriminate;
        try (destruct b; discriminate).
      destruct (get _ s); [|discriminate]. injection L as <- _. reflexivity. }
    subst method.
    destruct (get (_validator_models (server (snd st))) m) as [vm|] eqn:G.
    + destruct (Map m vm eq_refl G) as (kwargs & ->).
      destruct (model_validate vm kwargs) as [dump|description] eqn:MV.
      * apply Call; exact Vm.
      * apply (Err _ _ _ _ []); try reflexivity.
        -- destruct st as [t [srv cs]]; cbn. rewrite app_nil_r. reflexivity.
        -- cbn; lia.
        -- exact (Hval m vm kwargs description G MV).
    + apply Call; exact Vm.
Qed.

End Answered.

Lemma request_answered_once_witness :
  exists response made,
    _handle_message
      (JObj (Examples.request_members 3 "explode" (JObj [])))
      (Examples.session Examples.raising_server)
    = Normal (write (fst (Examples.session Examples.raising_server))
                (frame (dumps response)),
              {| server := server (snd (Examples.session Examples.raising_server));
                 calls := calls (snd (Examples.session Examples.raising_server))
                          ++ made |})
    /\ message_get response "id" None_ = Some (JInt 3)
    /\ message_get response "type" None_ = Some (JStr (lit "response"))
    /\ (message_get response "status" None_ = Some (JStr (lit "success"))
        \/ message_get response "status" None_ = Some (JStr (lit "error")))
    /\ (List.length made <= 1)%nat.
Proof.
  apply (request_answered_once
           (Examples.request_members 3 "explode" (JObj []))
           (Examples.session Examples.raising_server)
           (JInt 3) (JStr (lit "explode")) (JObj []));
    try reflexivity; try discriminate.
  - intros m handler args G. cbn in G.
    match type of G with
    | (if ?c then _ else _) = _ => destruct c
    end; [injection G as <-; reflexivity|discriminate].
Defined.

Module RegistryFacts.
Import Server Registry.

Lemma contains_keys {A B} (d1 : dict A) (d2 : dict B) (k : str) :
  keys d1 = keys d2 -> contains d1 k = contains d2 k.
Proof.
  unfold keys, contains. revert d2.
  induction d1 as [|[k1 v1] d1 IH]; intros [|[k2 v2] d2]; cbn [map get fst];
    try discriminate; [reflexivity|].
  intros [= <- E]. destruct (str_eqb k1 k); [reflexivity|apply IH; exact E].
Qed.

Lemma keys_set {A} (d : dict A) (k : str) (v : A) :
  keys (set d k v) = if contains d k then keys d else keys d ++ [k].
Proof.
  destruct (contains d k) eqn:E;
    [apply DictFacts.keys_set_present|apply DictFacts.keys_set_absent]; exact E.
Qed.

Lemma contains_set {A} (d : dict A) (k k' : str) (v : A) :
  contains d k' = true -> contains (set d k v) k' = true.
Proof.
  rewrite !DictFacts.contains_In, keys_set.
  destruct (contains d k); [tauto|]. intros I; apply in_or_app; tauto.
Qed.

End RegistryFacts.

Section RegistryInvariant.

Context {D S V : Type}.

(** X9.  However a server was built, its three tables agree: [_tools] and
    [_handlers] have the same keys in the same order, and every method with
    a validator model is a key of [_tools]; so the lookup of the handler of
    a method found in [_tools] cannot fail. *)
Theorem registry_tables_agree (self : McpServer D S V) :
  Registry.built self ->
  keys (_tools self) = keys (_handlers self)
  /\ (forall m, contains (_validator_models self) m = true ->
                contains (_tools self) m = true)
  /\ (forall m, contains (_tools self) m = true ->
                exists handler, get (_handlers self) m = Some handler).
Proof.
  assert (K : forall self : McpServer D S V,
             Registry.built self ->
             keys (_tools self) = keys (_handlers self)
             /\ (forall m, contains (_validator_models self) m = true ->
                           contains (_tools self) m = true)).
  { induction 1 as [name version|self0 m d s h v B [IHk IHv]].
    - split; [reflexivity|]. intros m; discriminate.
    - unfold tool; cbn [_tools _handlers _validator_models]. split.
      + rewrite !RegistryFacts.keys_set.
        rewrite (RegistryFacts.contains_keys _ _ m IHk), IHk. reflexivity.
      + intros m' C. destruct v as [v|].
        * destruct (PyFacts.str_eqb_eq m m') as [_ Eq].
          destruct (str_eqb m m') eqn:E.
          -- apply PyFacts.str_eqb_eq in E; subst m'.
             unfold contains. rewrite DictFacts.get_set_same. reflexivity.
          -- apply RegistryFacts.contains_set, IHv.
             unfold contains in *.
             rewrite DictFacts.get_set_other in C; [exact C|].
             intros ->. rewrite PyFacts.str_eqb_refl in E. discriminate.
        * apply RegistryFacts.contains_set, IHv; exact C. }
  intros B. destruct (K self B) as [Kk Kv].
  split; [exact Kk|]. split; [exact Kv|].
  intros m C. rewrite (RegistryFacts.contains_keys _ _ m Kk) in C.
  unfold contains in C. destruct (get (_handlers self) m) as [h|];
    [exists h; reflexivity|discriminate].
Qed.

End RegistryInvariant.

Lemma registry_tables_agree_witness :
  keys (_tools Examples.registered_twice)
  = keys (_handlers Examples.registered_twice)
  /\ (forall m, contains (_validator_models Examples.registered_twice) m = true ->
                contains (_tools Examples.registered_twice) m = true)
  /\ (forall m, contains (_tools Examples.registered_twice) m = true ->
                exists handler,
                  get (_handlers Examples.registered_twice) m = Some handler).
Proof.
  apply (registry_tables_agree Examples.registered_twice).
  unfold Examples.registered_twice, Examples.invoice_server,
    Examples.bare_server.
  repeat constructor.
Defined.

(** ** Further properties of the PayPal client and server *)

Module ClientFacts.

Lemma run_eq (self : PayPalClient) (method : str) (params : json) :
  run self method params = dumps (reported (_execute_method self method params)).
Proof.
  unfold run. destruct (_execute_method _ _ _) as [[result|type_name]|e];
    reflexivity.
Qed.

Lemma not_serializable_text (type_name : str) :
  text type_name = true -> text (message (not_serializable type_name)) = true.
Proof.
  intros H. unfold not_serializable, text in *. cbn [message].
  rewrite !forallb_app, H. reflexivity.
Qed.

Lemma not_serializable_code_points (type_name : str) :
  forallb code_point type_name = true ->
  forallb code_point (message (not_serializable type_name)) = true.
Proof.
  intros H. unfold not_serializable. cbn [message].
  rewrite !forallb_app, H. reflexivity.
Qed.

Lemma printable_code_points (s : str) :
  Forall printable s -> forallb code_point s = true.
Proof.
  induction 1 as [|c s [H0 H1] _ IH]; cbn [forallb]; [reflexivity|].
  rewrite IH. unfold code_point.
  replace (0 <=? c) with true by (symmetry; apply Z.leb_le; lia).
  replace (c <? 1114112) with true by (symmetry; apply Z.ltb_lt; lia).
  reflexivity.
Qed.


Lemma error_object_plain (e : Exception) :
  text (message e) = true -> plain (error_object e) = true.
Proof.
  intros H. unfold error_object.
  cbn [plain map fst snd forallb distinct existsb negb andb].
  rewrite H. reflexivity.
Qed.

Lemma error_object_valid (e : Exception) :
  forallb code_point (message e) = true -> valid (error_object e) = true.
Proof.
  intros H. unfold error_object. cbn [valid forallb fst snd].
  rewrite H. reflexivity.
Qed.

End ClientFacts.

(** X10.  [run] returns a JSON text that reads back.  For a function
    that [api/functions.py] defines, declared with [async def], it is the
    error object for the [TypeError] of [json.dumps], which cannot print
    the coroutine; the body of the function never runs.  For a method that
    is no key of [method_map] it is the error object with the message
    [Invalid method: ] followed by the method, and no function is called.
    For any other method it is the value the function returned, or the
    error object [{"error": {"message": str(e), "type": "paypal_error"}}]
    for the exception [e] that the function raised or that [json.dumps]
    raised for what it returned.  Reading back needs values without
    floats and texts without surrogates. *)
Theorem run_reads_back (self : PayPalClient) (method : str) (params : json) :
  text method = true ->
  match _execute_method self method params with
  | ApiReturns (Json result) => plain result = true
  | ApiReturns (Other type_name) => text type_name = true
  | ApiRaises e => text (message e) = true
  end ->
  loads (run self method params)
  = Some (if existsb (str_eqb method) method_map_keys
          then
            if existsb (str_eqb method) coroutine_functions
            then error_object (not_serializable (lit "coroutine"))
            else reported (functions self method (context self) params)
          else error_object
                 (ValueError (lit "Invalid method: " ++ method))).
Proof.
  intros Hm Hf. rewrite ClientFacts.run_eq.
  assert (E : (if existsb (str_eqb method) method_map_keys
               then
                 if existsb (str_eqb method) coroutine_functions
                 then error_object (not_serializable (lit "coroutine"))
                 else reported (functions self method (context self) params)
               else error_object
                      (ValueError (lit "Invalid method: " ++ method)))
              = reported (_execute_method self method params)).
  { unfold _execute_method.
    destruct (existsb (str_eqb method) method_map_keys); [|reflexivity].
    destruct (existsb (str_eqb method) coroutine_functions); reflexivity. }
  rewrite E. apply RoundTrip.loads_dumps.
  destruct (_execute_method self method params) as [[result|type_name]|e];
    cbn [reported].
  - exact Hf.
  - apply ClientFacts.error_object_plain, ClientFacts.not_serializable_text.
    exact Hf.
  - apply ClientFacts.error_object_plain. exact Hf.
Qed.

Lemma run_reads_back_witness :
  loads (run (new_client Examples.unreachable (lit "token") [])
           (lit "get_invoice")
           (JObj [(lit "invoice_id", JStr (lit "INV2-1"))]))
  = Some (JObj [(lit "error",
                 JObj [(lit "message",
                        JStr (lit "Object of type coroutine is not JSON serializable"));
                       (lit "type", JStr (lit "paypal_error"))])]).
Proof.
  apply (run_reads_back (new_client Examples.unreachable (lit "token") [])
           (lit "get_invoice")
           (JObj [(lit "invoice_id", JStr (lit "INV2-1"))])); reflexivity.
Defined.

Module RegisterFacts.

Section Tables.

Variable client : PayPalClient.
Variable configuration : Configuration.

#[local] Abbreviation register := (register client configuration).

Lemma register_other (tools : list Tool) (m : str) :
  ~ In m (map method tools) ->
  forall self : PayPalServer,
    get (_tools (fold_left register tools self)) m = get (_tools self) m
    /\ get (_handlers (fold_left register tools self)) m
       = get (_handlers self) m
    /\ get (_validator_models (fold_left register tools self)) m
       = get (_validator_models self) m.
Proof.
  induction tools as [|t tools IH]; intros N self; cbn [fold_left].
  - repeat split.
  - cbn [map] in N.
    destruct (IH (fun I => N (or_intror I)) (register self t)) as (A & B & C).
    rewrite A, B, C. unfold PayPal.register.
    destruct (_is_tool_allowed t configuration); [|repeat split].
    unfold tool; cbn [_tools _handlers _validator_models].
    rewrite !DictFacts.get_set_other by (intros E; apply N; left; exact E).
    repeat split.
Qed.

Lemma register_stored (tools : list Tool) :
  NoDup (map method tools) ->
  forall (self : PayPalServer) (t : Tool),
    In t tools -> _is_tool_allowed t configuration = true ->
    stored client (fold_left register tools self) t.
Proof.
  induction tools as [|t0 tools IH]; intros ND self t I A; [contradiction|].
  cbn [map] in ND. inversion ND as [|? ? Hnotin ND']; subst.
  cbn [fold_left]. destruct I as [->|I].
  - destruct (register_other tools (method t) Hnotin (register self t))
      as (E1 & E2 & E3).
    unfold stored. rewrite E1, E2, E3.
    unfold PayPal.register. rewrite A.
    unfold tool; cbn [_tools _handlers _validator_models].
    rewrite !DictFacts.get_set_same. repeat split.
  - apply IH; assumption.
Qed.

End Tables.

Lemma server_stored (functions : str -> dict json -> json -> ApiResult)
    (access_token : str) (configuration : Configuration) (t : Tool) :
  In t (catalog functions access_token configuration) ->
  _is_tool_allowed t configuration = true ->
  stored (new_client functions access_token
            (get_or_empty (cfg_context configuration)))
    (PayPalMcpServer functions access_token configuration) t.
Proof.
  intros I A. unfold PayPalMcpServer, _register_tools. cbv zeta.
  apply register_stored; [apply PayPalFacts.catalog_methods_distinct| |exact A].
  exact I.
Qed.

Lemma catalog_in_method_map (context : dict json) :
  forallb (fun t => existsb (str_eqb (method t)) method_map_keys)
    (get_tools context) = true.
Proof. vm_compute. reflexivity. Qed.

End RegisterFacts.

Section ConnectTables.

Context {D S V : Type}.

Variable t : StdioTransport.
Variable srv : McpServer D S V.
Variable log : list (str * json).

#[local] Abbreviation st := (connect (t, {| server := srv; calls := log |})).

Lemma connect_handlers : _handlers (server (snd st)) = _handlers srv.
Proof. reflexivity. Qed.

Lemma connect_validator_models :
  _validator_models (server (snd st)) = _validator_models srv.
Proof. reflexivity. Qed.

Lemma connect_calls : calls (snd st) = log.
Proof. reflexivity. Qed.

End ConnectTables.

Lemma run_code_points (self : PayPalClient) (method : str) (params : json) :
  match _execute_method self method params with
  | ApiReturns (Json result) => valid result = true
  | ApiReturns (Other type_name) => forallb code_point type_name = true
  | ApiRaises e => forallb code_point (message e) = true
  end ->
  forallb code_point (run self method params) = true.
Proof.
  intros Hf. rewrite ClientFacts.run_eq.
  apply ClientFacts.printable_code_points, JsonFacts.dumps_printable.
  destruct (_execute_method self method params) as [[result|type_name]|e];
    cbn [reported].
  - exact Hf.
  - apply ClientFacts.error_object_valid,
      ClientFacts.not_serializable_code_points. exact Hf.
  - apply ClientFacts.error_object_valid; exact Hf.
Qed.

(** X11.  A request for a tool that the configuration enables, with
    params that the parameter model of the tool accepts, is always answered
    with status [success], whether the API function returned a value,
    returned an object that [json.dumps] cannot print, as the coroutine of
    a function declared with [async def], or raised: the handler calls
    [run] for the function of the same name (the method is a key of
    [method_map]) with the dumped model and wraps the JSON text that [run]
    returns as [{"content": [{"type": "text", "text": ...}]}].  Code -32603
    is never sent for such a request. *)
Theorem enabled_tool_request_succeeds
    (validation : BaseModel Parameters)
    (functions : str -> dict json -> json -> ApiResult)
    (access_token : str) (configuration : Configuration)
    (tool : Tool) (members : list (str * json)) (t : StdioTransport)
    (log : list (str * json)) (id : json) (kwargs dump : dict json) :
  In tool (catalog functions access_token configuration) ->
  _is_tool_allowed tool configuration = true ->
  get members (lit "type") = Some (JStr (lit "request")) ->
  message_get (JObj members) "id" None_ = Some id ->
  message_get (JObj members) "method" None_ = Some (JStr (method tool)) ->
  message_get (JObj members) "params" (JObj []) = Some (JObj kwargs) ->
  model_validate (PayPal.parameters tool) kwargs = Model dump ->
  valid id = true ->
  let client :=
    new_client functions access_token
      (get_or_empty (cfg_context configuration)) in
  match _execute_method client (method tool) (JObj dump) with
  | ApiReturns (Json result) => valid result = true
  | ApiReturns (Other type_name) => forallb code_point type_name = true
  | ApiRaises e => forallb code_point (message e) = true
  end ->
  let st :=
    connect (t, {| server := PayPalMcpServer functions access_token configuration;
                   calls := log |}) in
  existsb (str_eqb (method tool)) method_map_keys = true
  /\ _handle_message (JObj members) st
     = Normal
         (write (fst st)
            (frame
               (dumps
                  (success_response id
                     (JObj [(lit "content",
                             JList
                               [JObj [(lit "type", JStr (lit "text"));
                                      (lit "text",
                                       JStr (dumps
                                               (reported
                                                  (_execute_method client
                                                     (method tool)
                                                     (JObj dump)))))
                                     ]])])))),
          {| server := server (snd st);
             calls := log ++ [(method tool, JObj dump)] |}).
Proof.
  intros I A Hty Hid Hm Hpa MV Vid client Hf.
  assert (InMap : existsb (str_eqb (method tool)) method_map_keys = true).
  { pose proof (RegisterFacts.catalog_in_method_map
                  (context_after_client configuration client)) as C.
    rewrite forallb_forall in C. apply (C tool). exact I. }
  destruct (RegisterFacts.server_stored functions access_token configuration
              tool I A) as (St & Sh & Sv).
  fold client in Sh.
  remember (PayPalMcpServer functions access_token configuration) as srv
    eqn:Esrv.
  clear Esrv. intros st.
  split; [exact InMap|].
  assert (Cm : forallb code_point (method tool) = true).
  { pose proof (PayPalFacts.catalog_methods_code_points
                  (context_after_client configuration client)) as C.
    rewrite forallb_forall in C. apply (C tool). exact I. }
  assert (R : _handle_message (JObj members) st
              = _handle_request (JObj members) st).
  { unfold _handle_message, message_get. rewrite Hty.
    cbn [is_str]. rewrite PyFacts.str_eqb_refl.
    replace (str_eqb (lit "request") (lit "ping")) with false by reflexivity.
    reflexivity. }
  rewrite R.
  rewrite (handle_request_known members st id (JObj kwargs) (method tool)
             {| Server.description := PayPal.description tool;
                Server.parameters := schema (PayPal.parameters tool) |}
             Hid Hm Hpa);
    [|unfold st; rewrite connect_tools; exact St].
  unfold st at 1. rewrite connect_validator_models, Sv, MV.
  unfold call_handler. cbv zeta.
  unfold st at 1. rewrite connect_handlers, Sh.
  unfold _create_handler at 1. cbv beta.
  rewrite <- ClientFacts.run_eq.
  rewrite transport_send_started.
  - reflexivity.
  - reflexivity.
  - unfold record_call; cbn [fst]. apply connect_started.
  - unfold success_response. cbn [valid forallb fst snd].
    rewrite Vid. rewrite (run_code_points client (method tool) (JObj dump) Hf).
    reflexivity.
Qed.

Lemma enabled_tool_request_succeeds_witness :
  let tool :=
    mk "get_invoice" "Get Invoice" get_invoice_prompt []
      GetInvoiceParameters "invoices" "get" in
  let dump := [(lit "invoice_id", JStr (lit "INV2-1"))] in
  let client :=
    new_client Examples.unreachable (lit "token")
      (get_or_empty (cfg_context Examples.list_and_get)) in
  let st :=
    connect (Transport.init,
             {| server := PayPalMcpServer Examples.unreachable (lit "token")
                            Examples.list_and_get;
                calls := [] |}) in
  existsb (str_eqb (method tool)) method_map_keys = true
  /\ @_handle_message _ _ _ Examples.accepting
       (JObj (Examples.request_members 4 "get_invoice" (JObj dump))) st
     = Normal
         (write (fst st)
            (frame
               (dumps
                  (success_response (JInt 4)
                     (JObj [(lit "content",
                             JList
                               [JObj [(lit "type", JStr (lit "text"));
                                      (lit "text",
                                       JStr (dumps
                                               (error_object
                                                  (not_serializable
                                                     (lit "coroutine")))))
                                     ]])])))),
          {| server := server (snd st);
             calls := [] ++ [(method tool, JObj dump)] |}).
Proof.
  intros tool dump.
  apply (enabled_tool_request_succeeds Examples.accepting
           Examples.unreachable (lit "token") Examples.list_and_get
           tool (Examples.request_members 4 "get_invoice" (JObj dump))
           Transport.init [] (JInt 4) dump dump); try reflexivity.
  right; right; left; reflexivity.
Defined.

(** ** The command line *)

Module MainFacts.
Import Runtime Main.

(** *** [split] and [join] *)

Lemma split_nonempty (sep : Z) (s : str) : split sep s <> [].
Proof.
  destruct s as [|c r]; cbn [split]; [discriminate|].
  destruct (c =? sep); [discriminate|].
  destruct (split sep r); discriminate.
Qed.

(** The pieces of [s], put together again with the separator, are [s]. *)
Lemma join_split (sep : Z) (s : str) : join [sep] (split sep s) = s.
Proof.
  induction s as [|c r IH]; [reflexivity|]. cbn [split].
  destruct (Z.eqb_spec c sep) as [->|N].
  - pose proof (split_nonempty sep r) as NE.
    destruct (split sep r) as [|p ps]; [contradiction|].
    cbn [join app] in *. rewrite IH. reflexivity.
  - pose proof (split_nonempty sep r) as NE.
    destruct (split sep r) as [|p ps]; [contradiction|].
    destruct ps as [|q qs]; cbn [join app] in *; rewrite <- IH; reflexivity.
Qed.

(** No piece holds the separator. *)
Lemma split_pieces (sep : Z) (s : str) :
  Forall (fun piece => ~ In sep piece) (split sep s).
Proof.
  induction s as [|c r IH]; cbn [split]; [repeat constructor; tauto|].
  destruct (Z.eqb_spec c sep) as [->|N].
  - constructor; [tauto|exact IH].
  - destruct (split sep r) as [|p ps]; [repeat constructor; cbn; intuition|].
    inversion IH as [|? ? Hp Hps]; subst.
    constructor; [cbn; intuition|exact Hps].
Qed.

Lemma split_free (sep : Z) (p : str) :
  ~ In sep p -> split sep p = [p].
Proof.
  induction p as [|c r IH]; intros N; [reflexivity|]. cbn [split].
  destruct (Z.eqb_spec c sep) as [->|_]; [exfalso; apply N; left; reflexivity|].
  rewrite IH by (intros I; apply N; right; exact I). reflexivity.
Qed.

Lemma split_app (sep : Z) (p r : str) :
  ~ In sep p ->
  split sep (p ++ sep :: r) = p :: split sep r.
Proof.
  induction p as [|c p IH]; intros N; cbn [app split].
  - rewrite Z.eqb_refl. reflexivity.
  - destruct (Z.eqb_spec c sep) as [->|_];
      [exfalso; apply N; left; reflexivity|].
    rewrite IH by (intros I; apply N; right; exact I). reflexivity.
Qed.

(** A string splits into exactly two pieces when it is the two pieces
    with one separator between them. *)
Lemma split_two (sep : Z) (s p a : str) :
  split sep s = [p; a]
  <-> s = p ++ sep :: a /\ ~ In sep p /\ ~ In sep a.
Proof.
  split.
  - intros E. pose proof (join_split sep s) as J.
    pose proof (split_pieces sep s) as F. rewrite E in J, F.
    apply Forall_cons_iff in F; destruct F as [Hp F].
    apply Forall_cons_iff in F; destruct F as [Ha _].
    cbn [join app] in J. auto.
  - intros (-> & Hp & Ha). rewrite split_app by exact Hp.
    rewrite split_free by exact Ha. reflexivity.
Qed.


(** *** The actions [main] enables *)

Lemma existsb_eq {A} (f g : A -> bool) (l : list A) :
  (forall x, f x = g x) -> existsb f l = existsb g l.
Proof.
  intros E. induction l as [|x l IH]; cbn [existsb]; [reflexivity|].
  rewrite E, IH. reflexivity.
Qed.

Lemma is_tool_allowed_allows (t : Tool) (configuration : Configuration) :
  _is_tool_allowed t configuration
  = existsb (fun pa : str * dict bool =>
               existsb (fun ae : str * bool =>
                          allows (get_or_empty (cfg_actions configuration))
                            (fst pa) (fst ae))
                 (snd pa))
      (actions t).
Proof.
  unfold _is_tool_allowed. apply existsb_eq. intros [p pa]. cbn [fst snd].
  apply existsb_eq. intros [a e]. reflexivity.
Qed.

Lemma allows_set (actions : dict (dict bool)) (p0 a0 p a : str) :
  allows
    (set actions p0
       (set match get actions p0 with Some d => d | None => [] end a0 true))
    p a = true
  <-> (p = p0 /\ a = a0) \/ allows actions p a = true.
Proof.
  unfold allows.
  destruct (PyFacts.str_eqb_eq p0 p) as [E1 E2].
  destruct (str_eqb p0 p) eqn:Ep.
  - specialize (E1 eq_refl). subst p0. rewrite DictFacts.get_set_same.
    destruct (PyFacts.str_eqb_eq a0 a) as [F1 F2].
    destruct (str_eqb a0 a) eqn:Ea.
    + specialize (F1 eq_refl). subst a0. rewrite DictFacts.get_set_same.
      tauto.
    + rewrite DictFacts.get_set_other
        by (intros ->; rewrite PyFacts.str_eqb_refl in Ea; discriminate).
      assert (N : a <> a0)
        by (intros ->; rewrite PyFacts.str_eqb_refl in Ea; discriminate).
      destruct (get actions p) as [d|]; cbn [get]; [tauto|].
      split; [discriminate|]. intros [[_ ?]|?]; [contradiction|discriminate].
  - assert (N : p0 <> p)
      by (intros ->; rewrite PyFacts.str_eqb_refl in Ep; discriminate).
    rewrite DictFacts.get_set_other by exact N.
    split; [tauto|]. intros [[? _]|?]; [subst; contradiction|assumption].
Qed.

Lemma allows_enable (actions actions' : dict (dict bool)) (tool_id : str) :
  enable actions tool_id = Some actions' ->
  forall p a,
    allows actions' p a = true
    <-> split 46 tool_id = [p; a] \/ allows actions p a = true.
Proof.
  unfold enable.
  destruct (split 46 tool_id) as [|p0 [|a0 [|x r]]]; try discriminate.
  intros [= <-] p a. rewrite allows_set.
  split; (intros [E|E]; [left|right; exact E]).
  - destruct E as [-> ->]. reflexivity.
  - injection E as -> ->. split; reflexivity.
Qed.

Lemma allows_enable_all (tool_ids : list str) :
  forall actions actions',
    enable_all actions tool_ids = Some actions' ->
    forall p a,
      allows actions' p a = true
      <-> (exists tool_id, In tool_id tool_ids /\ split 46 tool_id = [p; a])
          \/ allows actions p a = true.
Proof.
  induction tool_ids as [|tool_id rest IH]; intros actions actions';
    cbn [enable_all].
  - intros [= <-] p a. split; [tauto|]. intros [(x & [] & _)|E]; exact E.
  - destruct (enable actions tool_id) as [actions1|] eqn:E; [|discriminate].
    intros R p a. rewrite (IH _ _ R p a), (allows_enable _ _ _ E p a).
    split.
    + intros [(x & I & S)|[S|A]].
      * left. exists x. split; [right; exact I|exact S].
      * left. exists tool_id. split; [left; reflexivity|exact S].
      * right. exact A.
    + intros [(x & [<-|I] & S)|A].
      * right. left. exact S.
      * left. exists x. split; assumption.
      * right. right. exact A.
Qed.

Lemma enable_all_succeeds (tool_ids : list str) :
  Forall (fun tool_id => List.length (split 46 tool_id) = 2%nat) tool_ids ->
  forall actions, exists actions', enable_all actions tool_ids = Some actions'.
Proof.
  induction 1 as [|tool_id rest L _ IH]; intros actions; cbn [enable_all].
  - exists actions; reflexivity.
  - unfold enable.
    destruct (split 46 tool_id) as [|p [|a [|x r]]]; try discriminate.
    apply IH.
Qed.

Lemma accepted_split :
  forallb (fun tool_id => (List.length (split 46 tool_id) =? 2)%nat)
    ACCEPTED_TOOLS = true.
Proof. vm_compute. reflexivity. Qed.

Lemma catalog_dotless (context : dict json) :
  forallb dotless (get_tools context) = true.
Proof. vm_compute. reflexivity. Qed.


Lemma mem_In (x : str) (l : list str) : mem x l = true <-> In x l.
Proof.
  unfold mem. rewrite existsb_exists. split.
  - intros (y & I & E). apply PyFacts.str_eqb_eq in E. subst. exact I.
  - intros I. exists x. split; [exact I|apply PyFacts.str_eqb_refl].
Qed.

Lemma not_existsb_dot (s : str) :
  negb (existsb (Z.eqb 46) s) = true -> ~ In 46 s.
Proof.
  intros H I. apply negb_true_iff in H.
  assert (E : existsb (Z.eqb 46) s = true)
    by (apply existsb_exists; exists 46; split; [exact I|apply Z.eqb_refl]).
  congruence.
Qed.

(** For the tools of the catalog, what the configuration built by [main]
    allows is what the list of identifiers names. *)
Lemma allowed_listed (tool_ids : list str) (actions : dict (dict bool))
    (context : option (dict json)) (t : Tool) :
  enable_all [] tool_ids = Some actions ->
  dotless t = true ->
  _is_tool_allowed t {| cfg_actions := Some actions; cfg_context := context |}
  = listed tool_ids t.
Proof.
  intros E Dl. apply Bool.eq_iff_eq_true.
  rewrite is_tool_allowed_allows. cbn [cfg_actions get_or_empty].
  unfold listed, Main.tool_ids. rewrite !existsb_exists.
  unfold dotless in Dl. rewrite forallb_forall in Dl.
  split.
  - intros ([p pa] & I & X). apply existsb_exists in X.
    destruct X as ([a e] & I' & X). cbn [fst snd] in *.
    apply (allows_enable_all _ _ _ E) in X.
    destruct X as [(id & Iid & S)|X]; [|discriminate].
    apply split_two in S. destruct S as (-> & _ & _).
    exists (p ++ 46 :: a). split; [|apply mem_In; exact Iid].
    apply in_flat_map. exists (p, pa). split; [exact I|].
    apply in_map_iff. exists (a, e). split; [reflexivity|exact I'].
  - intros (id & I & M). apply in_flat_map in I.
    destruct I as ([p pa] & I & I'). apply in_map_iff in I'.
    destruct I' as ([a e] & <- & I'). cbn [fst snd] in *.
    exists (p, pa). split; [exact I|]. apply existsb_exists.
    exists (a, e). split; [exact I'|]. cbn [fst snd].
    apply (allows_enable_all _ _ _ E). left.
    exists (p ++ 46 :: a). split; [apply mem_In; exact M|].
    specialize (Dl _ I). cbn [fst snd] in Dl.
    apply andb_true_iff in Dl. destruct Dl as [Dp Da].
    rewrite forallb_forall in Da. specialize (Da _ I'). cbn [fst] in Da.
    apply split_two. split; [reflexivity|].
    split; apply not_existsb_dot; assumption.
Qed.

Section ParseArgs.

Variable upper : str -> str.

(** What [parse_args] checked when it returns. *)
Lemma parse_args_tools (args : Namespace) (environ : dict str)
    (config : Config) :
  parse_args upper args environ = Ok config ->
  config_tools config
  = (if str_eqb (tools args) (lit "all") then [lit "all"]
     else map strip (split 44 (tools args)))
  /\ Forall (fun tool => tool = lit "all" \/ In tool ACCEPTED_TOOLS)
       (config_tools config).
Proof.
  unfold parse_args. cbv zeta.
  destruct (str_eqb (tools args) (lit "all")).
  - destruct (or_else _ _ _) as [[|c r]|]; try discriminate.
    intros [= <-]. cbn [config_tools]. split; [reflexivity|].
    constructor; [left; reflexivity|constructor].
  - destruct (find _ _) as [bad|] eqn:F; [discriminate|].
    destruct (or_else _ _ _) as [[|c r]|]; try discriminate.
    intros [= <-]. cbn [config_tools]. split; [reflexivity|].
    apply Forall_forall. intros tool I.
    pose proof (find_none _ _ F tool I) as N. cbv beta in N.
    destruct (str_eqb tool (lit "all")) eqn:A.
    + left. apply PyFacts.str_eqb_eq. exact A.
    + right. cbn [negb andb] in N. apply negb_false_iff in N.
      apply mem_In. exact N.
Qed.

Lemma accepted_ids (config_tools : list str) :
  Forall (fun tool => tool = lit "all" \/ In tool ACCEPTED_TOOLS) config_tools ->
  Forall (fun tool_id => List.length (split 46 tool_id) = 2%nat)
    (if mem (lit "all") config_tools then ACCEPTED_TOOLS else config_tools).
Proof.
  intros F.
  assert (A : Forall (fun tool_id => List.length (split 46 tool_id) = 2%nat)
                ACCEPTED_TOOLS).
  { apply Forall_forall. intros x I.
    pose proof accepted_split as S. rewrite forallb_forall in S.
    apply Nat.eqb_eq, S, I. }
  destruct (mem (lit "all") config_tools) eqn:M; [exact A|].
  apply Forall_forall. intros x I.
  rewrite Forall_forall in F, A. destruct (F x I) as [->|Ia].
  - apply mem_In in I. congruence.
  - apply A, Ia.
Qed.

Lemma server_config_succeeds (args : Namespace) (environ : dict str)
    (config : Config) :
  parse_args upper args environ = Ok config ->
  exists actions,
    enable_all []
      (if mem (lit "all") (config_tools config) then ACCEPTED_TOOLS
       else config_tools config) = Some actions
    /\ server_config config
       = Some {| cfg_actions := Some actions;
                 cfg_context :=
                   Some [(lit "sandbox", JBool (is_sandbox config));
                         (lit "access_token",
                          JStr (config_access_token config))] |}.
Proof.
  intros P. destruct (parse_args_tools args environ config P) as [_ F].
  destruct (enable_all_succeeds _ (accepted_ids _ F) []) as (actions & E).
  exists actions. split; [exact E|]. unfold server_config. rewrite E.
  reflexivity.
Qed.

End ParseArgs.

Lemma catalog_listed (context : dict json) :
  forallb (listed ACCEPTED_TOOLS) (get_tools context) = true.
Proof. vm_compute. reflexivity. Qed.

Lemma filter_all {A} (f : A -> bool) (l : list A) :
  forallb f l = true -> filter f l = l.
Proof.
  induction l as [|x l IH]; cbn [forallb filter]; [reflexivity|].
  intros H. apply andb_true_iff in H. destruct H as [-> H].
  rewrite IH by exact H. reflexivity.
Qed.

End MainFacts.

Section MainProgram.

Variable upper : str -> str.
Variable functions : str -> dict json -> json -> ApiResult.

(** X12.  [main] leaves with [sys.exit(1)] in two cases only: a piece of
    [--tools] (split at commas, stripped) is neither [all] nor an accepted
    tool, or there is no access token, neither a non-empty [--access-token]
    nor a non-empty [PAYPAL_ACCESS_TOKEN].  In every other case the server
    is built and connected; in particular unpacking [product, action] never
    fails. *)
Theorem main_exits_iff (args : Main.Namespace) (environ : dict str) :
  Main.main upper functions args environ = Main.Exit 1
  <-> (Main.tools args <> lit "all"
       /\ exists tool,
            In tool (map Runtime.strip (Runtime.split 44 (Main.tools args)))
            /\ tool <> lit "all" /\ ~ In tool Main.ACCEPTED_TOOLS)
      \/ Main.or_else (Main.access_token args)
           (get environ (lit "PAYPAL_ACCESS_TOKEN")) Some = None
      \/ Main.or_else (Main.access_token args)
           (get environ (lit "PAYPAL_ACCESS_TOKEN")) Some = Some [].
Proof.
  assert (M : Main.main upper functions args environ = Main.Exit 1
              <-> exists e, Main.parse_args upper args environ = Runtime.Raised e).
  { unfold Main.main.
    destruct (Main.parse_args upper args environ) as [config|e] eqn:P.
    - destruct (MainFacts.server_config_succeeds upper args environ config P)
        as (actions & _ & ->).
      split; [discriminate|]. intros (e & E); discriminate.
    - split; [exists e; reflexivity|reflexivity]. }
  rewrite M. unfold Main.parse_args. cbv zeta.
  destruct (str_eqb (Main.tools args) (lit "all")) eqn:A.
  - apply PyFacts.str_eqb_eq in A.
    destruct (Main.or_else _ _ _) as [[|c r]|].
    + split; [auto|]. intros _. eexists; reflexivity.
    + split; [intros (e & E); discriminate|].
      intros [[N _]|[E|E]]; [contradiction|discriminate|discriminate].
    + split; [auto|]. intros _. eexists; reflexivity.
  - assert (N : Main.tools args <> lit "all")
      by (intros E; rewrite E, PyFacts.str_eqb_refl in A; discriminate).
    destruct (find _ _) as [bad|] eqn:F.
    + split; [|intros _; eexists; reflexivity]. intros _. left.
      split; [exact N|]. exists bad.
      destruct (find_some _ _ F) as [I B]. cbv beta in B.
      apply andb_true_iff in B. destruct B as [B1 B2].
      apply negb_true_iff in B1, B2.
      split; [exact I|]. split.
      * intros E. rewrite E, PyFacts.str_eqb_refl in B1. discriminate.
      * intros Ia. apply MainFacts.mem_In in Ia. congruence.
    + assert (G : ~ exists tool,
                    In tool (map Runtime.strip (Runtime.split 44 (Main.tools args)))
                    /\ tool <> lit "all" /\ ~ In tool Main.ACCEPTED_TOOLS).
      { intros (tool & I & Na & Ni).
        pose proof (find_none _ _ F tool I) as B. cbv beta in B.
        apply andb_false_iff in B. destruct B as [B|B];
          apply negb_false_iff in B.
        - apply PyFacts.str_eqb_eq in B. contradiction.
        - apply MainFacts.mem_In in B. contradiction. }
      destruct (Main.or_else _ _ _) as [[|c r]|].
      * split; [auto|]. intros _. eexists; reflexivity.
      * split; [intros (e & E); discriminate|].
        intros [[_ X]|[E|E]]; [contradiction|discriminate|discriminate].
      * split; [auto|]. intros _. eexists; reflexivity.
Qed.

(** X13.  When [parse_args] returns, [main] connects a PayPal server that
    offers exactly the tools of the catalog that declare one of the
    identifiers given with [--tools], in the order of the catalog, and all
    26 tools when [all] is among them; the context of the server carries
    the sandbox flag and the access token. *)
Theorem main_serves_listed_tools (args : Main.Namespace) (environ : dict str)
    (config : Main.Config) :
  Main.parse_args upper args environ = Runtime.Ok config ->
  let ids :=
    if Runtime.mem (lit "all") (Main.config_tools config)
    then Main.ACCEPTED_TOOLS else Main.config_tools config in
  exists configuration,
    Main.server_config config = Some configuration
    /\ cfg_context configuration
       = Some [(lit "sandbox", JBool (Main.is_sandbox config));
               (lit "access_token", JStr (Main.config_access_token config))]
    /\ Main.main upper functions args environ
       = Main.Serving
           (connect (Transport.init,
                     {| server :=
                          PayPalMcpServer functions
                            (Main.config_access_token config) configuration;
                        calls := [] |}))
    /\ keys (_tools (PayPalMcpServer functions
                       (Main.config_access_token config) configuration))
       = map method
           (filter (Main.listed ids)
              (catalog functions (Main.config_access_token config)
                 configuration))
    /\ (Runtime.mem (lit "all") (Main.config_tools config) = true ->
        keys (_tools (PayPalMcpServer functions
                        (Main.config_access_token config) configuration))
        = map method
            (catalog functions (Main.config_access_token config)
               configuration)).
Proof.
  intros P ids.
  destruct (MainFacts.server_config_succeeds upper args environ config P)
    as (actions & E & SC).
  fold ids in E.
  eexists. split; [exact SC|]. split; [reflexivity|].
  split; [unfold Main.main; rewrite P, SC; reflexivity|].
  destruct (PayPalFacts.registered functions (Main.config_access_token config)
              {| cfg_actions := Some actions;
                 cfg_context :=
                   Some [(lit "sandbox", JBool (Main.is_sandbox config));
                         (lit "access_token",
                          JStr (Main.config_access_token config))] |})
    as (K & _ & _).
  assert (F : enabled_methods functions (Main.config_access_token config)
                {| cfg_actions := Some actions;
                   cfg_context :=
                     Some [(lit "sandbox", JBool (Main.is_sandbox config));
                           (lit "access_token",
                            JStr (Main.config_access_token config))] |}
              = map method
                  (filter (Main.listed ids)
                     (catalog functions (Main.config_access_token config)
                        {| cfg_actions := Some actions;
                           cfg_context :=
                             Some [(lit "sandbox",
                                    JBool (Main.is_sandbox config));
                                   (lit "access_token",
                                    JStr (Main.config_access_token config))] |}))).
  { unfold enabled_methods. f_equal. apply filter_ext_in. intros t I.
    apply (MainFacts.allowed_listed ids actions _ t E).
    unfold catalog in I.
    pose proof (MainFacts.catalog_dotless
                  (context_after_client
                     {| cfg_actions := Some actions;
                        cfg_context :=
                          Some [(lit "sandbox", JBool (Main.is_sandbox config));
                                (lit "access_token",
                                 JStr (Main.config_access_token config))] |}
                     (new_client functions (Main.config_access_token config)
                        (get_or_empty
                           (cfg_context
                              {| cfg_actions := Some actions;
                                 cfg_context :=
                                   Some [(lit "sandbox",
                                          JBool (Main.is_sandbox config));
                                         (lit "access_token",
                                          JStr (Main.config_access_token
                                                  config))] |}))))) as D.
    rewrite forallb_forall in D. apply D, I. }
  split; [rewrite K; exact F|].
  intros All. rewrite K, F. f_equal. subst ids. rewrite All.
  apply MainFacts.filter_all. unfold catalog.
  apply MainFacts.catalog_listed.
Qed.

End MainProgram.

Lemma main_serves_listed_tools_witness :
  let config :=
    {| Main.config_tools := [lit "invoices.list"; lit "invoices.get"];
       Main.config_access_token := lit "token";
       Main.is_sandbox := true |} in
  let ids :=
    if Runtime.mem (lit "all") (Main.config_tools config)
    then Main.ACCEPTED_TOOLS else Main.config_tools config in
  exists configuration,
    Main.server_config config = Some configuration
    /\ cfg_context configuration
       = Some [(lit "sandbox", JBool (Main.is_sandbox config));
               (lit "access_token", JStr (Main.config_access_token config))]
    /\ Main.main (fun s => s) Examples.unreachable
         {| Main.tools := lit "invoices.list, invoices.get";
            Main.access_token := Some (lit "token");
            Main.paypal_environment := None;
            Main.debug := false |} []
       = Main.Serving
           (connect (Transport.init,
                     {| server :=
                          PayPalMcpServer Examples.unreachable
                            (Main.config_access_token config) configuration;
                        calls := [] |}))
    /\ keys (_tools (PayPalMcpServer Examples.unreachable
                       (Main.config_access_token config) configuration))
       = map method
           (filter (Main.listed ids)
              (catalog Examples.unreachable (Main.config_access_token config)
                 configuration))
    /\ (Runtime.mem (lit "all") (Main.config_tools config) = true ->
        keys (_tools (PayPalMcpServer Examples.unreachable
                        (Main.config_access_token config) configuration))
        = map method
            (catalog Examples.unreachable (Main.config_access_token config)
               configuration)).
Proof.
  intros config.
  apply (main_serves_listed_tools (fun s => s) Examples.unreachable
           {| Main.tools := lit "invoices.list, invoices.get";
              Main.access_token := Some (lit "token");
              Main.paypal_environment := None;
              Main.debug := false |} [] config).
  reflexivity.
Defined.

(** ** Further properties: query strings and API errors *)

Import Runtime.

Module QueryFacts.
Import Utils Query.

Ltac cmp :=
  repeat match goal with
  | |- context [?a <? ?b] => destruct (Z.ltb_spec a b)
  | |- context [?a <=? ?b] => destruct (Z.leb_spec a b)
  | |- context [?a =? ?b] => destruct (Z.eqb_spec a b)
  end.

Lemma encode_char_bytes (c : Z) (bs : bytes) :
  encode_char c = Some bs -> Forall byte bs.
Proof.
  unfold encode_char, is_surrogate, byte.
  destruct (Z.ltb_spec c 0); [discriminate|].
  destruct (Z.ltb_spec c 128); [intros [= <-]; repeat constructor; lia|].
  destruct (Z.ltb_spec c 2048).
  { intros [= <-]. repeat constructor;
      Z.to_euclidean_division_equations; lia. }
  destruct (Z.ltb_spec c 65536).
  { destruct ((55296 <=? c) && (c <=? 57343)); [discriminate|].
    intros [= <-]. repeat constructor;
      Z.to_euclidean_division_equations; lia. }
  destruct (Z.ltb_spec c 1114112); [|discriminate].
  intros [= <-]. repeat constructor; Z.to_euclidean_division_equations; lia.
Qed.

Lemma encode_bytes (s : str) :
  forall bs, encode s = Some bs -> Forall byte bs.
Proof.
  induction s as [|c r IH]; cbn [encode]; intros bs E.
  - injection E as <-. constructor.
  - destruct (encode_char c) as [b|] eqn:C; [|discriminate].
    destruct (encode r) as [br|]; [|discriminate]. injection E as <-.
    apply Forall_app. split; [exact (encode_char_bytes c b C)|].
    apply IH; reflexivity.
Qed.

Lemma hex_upper_safe (d : Z) : 0 <= d < 16 -> always_safe (hex_upper d) = true.
Proof.
  intros H. unfold hex_upper, always_safe. cmp; cbn [andb orb]; try reflexivity;
    lia.
Qed.

Lemma unhex_hex_upper (d : Z) : 0 <= d < 16 -> unhex_upper (hex_upper d) = d.
Proof. intros H. unfold hex_upper, unhex_upper. cmp; lia. Qed.

Lemma quote_byte_chars (b : Z) :
  byte b -> forallb quoted_char (quote_byte b) = true.
Proof.
  intros H. unfold quote_byte, quoted_char.
  destruct (always_safe b) eqn:S; [cbn [forallb]; rewrite S; reflexivity|].
  destruct (b =? 32); [reflexivity|].
  cbn [forallb].
  rewrite !hex_upper_safe
    by (unfold byte in H; Z.to_euclidean_division_equations; lia).
  rewrite orb_true_r. reflexivity.
Qed.

Lemma quote_bytes_chars (bs : bytes) :
  Forall byte bs -> forallb quoted_char (flat_map quote_byte bs) = true.
Proof.
  induction 1 as [|b bs Hb _ IH]; cbn [flat_map]; [reflexivity|].
  rewrite forallb_app, (quote_byte_chars b Hb), IH. reflexivity.
Qed.

Lemma unquote_quote_byte (b : Z) (rest : str) :
  byte b -> unquote (quote_byte b ++ rest) = b :: unquote rest.
Proof.
  intros H. unfold quote_byte.
  destruct (always_safe b) eqn:S.
  - cbn [app unquote]. unfold always_safe in S.
    destruct (Z.eqb_spec b 37) as [->|_]; [discriminate|].
    destruct (Z.eqb_spec b 43) as [->|_]; [discriminate|]. reflexivity.
  - destruct (Z.eqb_spec b 32) as [->|_]; [reflexivity|].
    cbn [app unquote]. change (37 =? 37) with true. cbv iota.
    rewrite !unhex_hex_upper
      by (unfold byte in H; Z.to_euclidean_division_equations; lia).
    f_equal. unfold byte in H. Z.to_euclidean_division_equations; lia.
Qed.

Lemma unquote_quote (bs : bytes) :
  Forall byte bs -> unquote (flat_map quote_byte bs) = bs.
Proof.
  induction 1 as [|b bs Hb _ IH]; cbn [flat_map]; [reflexivity|].
  rewrite (unquote_quote_byte b _ Hb), IH. reflexivity.
Qed.

(** [quote_plus] loses nothing. *)
Lemma quote_plus_inj (s1 s2 q : str) :
  quote_plus s1 = Ok q -> quote_plus s2 = Ok q -> s1 = s2.
Proof.
  unfold quote_plus.
  destruct (encode s1) as [b1|] eqn:E1; [|discriminate].
  destruct (encode s2) as [b2|] eqn:E2; [|discriminate].
  intros [= Q1] [= Q2].
  assert (B : b1 = b2).
  { rewrite <- (unquote_quote b1 (encode_bytes _ _ E1)),
            <- (unquote_quote b2 (encode_bytes _ _ E2)), Q1, Q2.
    reflexivity. }
  subst b2. rewrite <- (Utf8Facts.decode_encode _ _ E1).
  apply (Utf8Facts.decode_encode _ _ E2).
Qed.

Lemma quote_plus_chars (s q : str) :
  quote_plus s = Ok q -> forallb quoted_char q = true.
Proof.
  unfold quote_plus. destruct (encode s) as [bs|] eqn:E; [|discriminate].
  intros [= <-]. apply quote_bytes_chars, (encode_bytes _ _ E).
Qed.


Lemma quote_items_spec (its : list (str * str)) :
  forall l, quote_items its = Ok l -> Forall2 quoted_item its l.
Proof.
  induction its as [|[k v] rest IH]; cbn [quote_items]; intros l E.
  - injection E as <-. constructor.
  - destruct (quote_plus k) as [k'|] eqn:K; [|discriminate].
    destruct (quote_plus v) as [v'|] eqn:V; [|discriminate].
    destruct (quote_items rest) as [l'|]; [|discriminate].
    injection E as <-. constructor; [|apply IH; reflexivity].
    exists k', v'. auto.
Qed.

Lemma quoted_no (c : Z) (q : str) :
  quoted_char c = false -> forallb quoted_char q = true -> ~ In c q.
Proof.
  intros N F I. rewrite forallb_forall in F. rewrite (F c I) in N.
  discriminate.
Qed.

Lemma quoted_item_parts (kv : str * str) (item : str) :
  quoted_item kv item ->
  ~ In 38 item /\ In 61 item
  /\ forallb query_char item = true.
Proof.
  intros (k & v & K & V & ->).
  pose proof (quote_plus_chars _ _ K) as Ck.
  pose proof (quote_plus_chars _ _ V) as Cv.
  split; [|split].
  - intros I. apply in_app_or in I. destruct I as [I|[I|I]].
    + exact (quoted_no 38 k eq_refl Ck I).
    + discriminate.
    + exact (quoted_no 38 v eq_refl Cv I).
  - apply in_or_app. right. left. reflexivity.
  - assert (Q : forall q, forallb quoted_char q = true ->
                          forallb query_char q = true).
    { intros q F. rewrite forallb_forall in *. intros c I.
      specialize (F c I). unfold query_char, quoted_char in *.
      rewrite F. reflexivity. }
    rewrite forallb_app. cbn [forallb]. rewrite (Q k Ck), (Q v Cv).
    reflexivity.
Qed.

Lemma quoted_item_inj (kv1 kv2 : str * str) (item : str) :
  quoted_item kv1 item -> quoted_item kv2 item -> kv1 = kv2.
Proof.
  intros (k1 & v1 & K1 & V1 & E1) (k2 & v2 & K2 & V2 & E2).
  pose proof (quoted_no 61 _ eq_refl (quote_plus_chars _ _ K1)) as N1.
  pose proof (quoted_no 61 _ eq_refl (quote_plus_chars _ _ V1)) as M1.
  pose proof (quoted_no 61 _ eq_refl (quote_plus_chars _ _ K2)) as N2.
  pose proof (quoted_no 61 _ eq_refl (quote_plus_chars _ _ V2)) as M2.
  assert (S1 : split 61 item = [k1; v1])
    by (apply MainFacts.split_two; auto).
  assert (S2 : split 61 item = [k2; v2])
    by (apply MainFacts.split_two; auto).
  rewrite S1 in S2. injection S2 as <- <-.
  destruct kv1 as [a1 b1], kv2 as [a2 b2]. cbn [fst snd] in *.
  rewrite (quote_plus_inj a1 a2 k1 K1 K2), (quote_plus_inj b1 b2 v1 V1 V2).
  reflexivity.
Qed.

Lemma quote_items_inj (its1 its2 : list (str * str)) (l : list str) :
  quote_items its1 = Ok l -> quote_items its2 = Ok l -> its1 = its2.
Proof.
  intros E1 E2. apply quote_items_spec in E1, E2.
  revert its2 E2. induction E1 as [|kv1 item its1 l Q1 _ IH]; intros its2 E2;
    inversion E2 as [|kv2 ? its2' ? Q2 E2']; subst; [reflexivity|].
  rewrite (quoted_item_inj kv1 kv2 item Q1 Q2), (IH its2' E2'). reflexivity.
Qed.

Lemma split_join (sep : Z) (l : list str) :
  l <> [] -> Forall (fun p => ~ In sep p) l ->
  split sep (join [sep] l) = l.
Proof.
  induction l as [|p l IH]; intros NE F; [contradiction|].
  inversion F as [|? ? Hp Hl]; subst.
  destruct l as [|q l].
  - cbn [join]. apply MainFacts.split_free. exact Hp.
  - change (join [sep] (p :: q :: l)) with (p ++ sep :: join [sep] (q :: l)).
    rewrite MainFacts.split_app by exact Hp.
    rewrite IH; [reflexivity|discriminate|exact Hl].
Qed.

Lemma join_items_inj (l1 l2 : list str) :
  Forall (fun p => ~ In 38 p /\ In 61 p) l1 ->
  Forall (fun p => ~ In 38 p /\ In 61 p) l2 ->
  join [38] l1 = join [38] l2 -> l1 = l2.
Proof.
  intros F1 F2 E.
  assert (NE : forall l, Forall (fun p => ~ In 38 p /\ In 61 p) l ->
                         l <> [] -> join [38] l <> []).
  { intros [|p [|q l]] F N; [contradiction| |].
    - inversion F as [|? ? [_ I] _]; subst. cbn [join].
      destruct p; [contradiction|discriminate].
    - inversion F as [|? ? [_ I] _]; subst.
      change (join [38] (p :: q :: l)) with (p ++ 38 :: join [38] (q :: l)).
      destruct p; discriminate. }
  assert (S : forall l, Forall (fun p => ~ In 38 p /\ In 61 p) l ->
                        Forall (fun p => ~ In 38 p) l).
  { intros l F. eapply Forall_impl; [|exact F]. intros p [N _]. exact N. }
  destruct l1 as [|p1 r1].
  - destruct l2 as [|p2 r2]; [reflexivity|].
    exfalso. apply (NE (p2 :: r2) F2); [discriminate|]. symmetry; exact E.
  - destruct l2 as [|p2 r2].
    + exfalso. apply (NE (p1 :: r1) F1); [discriminate|]. exact E.
    + rewrite <- (split_join 38 (p1 :: r1)), <- (split_join 38 (p2 :: r2)), E;
        try reflexivity; try discriminate; apply S; assumption.
Qed.

Lemma joined_shape (its : list (str * str)) (l : list str) :
  Forall2 quoted_item its l ->
  forallb query_char (join [38] l) = true
  /\ count_occ Z.eq_dec (join [38] l) 61 = List.length its
  /\ count_occ Z.eq_dec (join [38] l) 38 = pred (List.length its).
Proof.
  assert (C : forall q c, quoted_char c = false ->
                forallb quoted_char q = true ->
                count_occ Z.eq_dec q c = 0%nat).
  { intros q c N F. apply count_occ_not_In. exact (quoted_no c q N F). }
  assert (Qc : forall q, forallb quoted_char q = true ->
                         forallb query_char q = true).
  { intros q F. rewrite forallb_forall in *. intros c I.
    specialize (F c I). unfold query_char, quoted_char in *.
    rewrite F. reflexivity. }
  induction 1 as [|kv item its l Q E IH]; [repeat split|].
  destruct Q as (k & v & K & V & ->).
  pose proof (quote_plus_chars _ _ K) as Ck.
  pose proof (quote_plus_chars _ _ V) as Cv.
  destruct IH as (I1 & I2 & I3).
  destruct l as [|item' l'].
  - inversion E; subst. cbn [join List.length pred].
    rewrite forallb_app, !count_occ_app. cbn [forallb count_occ].
    rewrite (Qc k Ck), (Qc v Cv), !(C k), !(C v) by (reflexivity || assumption).
    destruct (Z.eq_dec 61 61), (Z.eq_dec 61 38); try lia; try contradiction.
    repeat split.
  - change (join [38] ((k ++ 61 :: v) :: item' :: l'))
      with ((k ++ 61 :: v) ++ 38 :: join [38] (item' :: l')).
    rewrite !forallb_app, !count_occ_app. cbn [forallb count_occ].
    rewrite ?count_occ_app. cbn [count_occ].
    rewrite I1, I2, I3, (Qc k Ck), (Qc v Cv), !(C k), !(C v)
      by (reflexivity || assumption).
    inversion E; subst. cbn [List.length pred].
    destruct (Z.eq_dec 61 61), (Z.eq_dec 38 38), (Z.eq_dec 38 61),
      (Z.eq_dec 61 38); try lia; try contradiction.
    repeat split; lia.
Qed.

Lemma quote_plus_unquote (s q : str) :
  quote_plus s = Ok q -> encode s = Some (unquote q).
Proof.
  unfold quote_plus. destruct (encode s) as [bs|] eqn:E; [|discriminate].
  intros [= <-]. rewrite unquote_quote; [reflexivity|].
  exact (encode_bytes s bs E).
Qed.

Lemma joined_nonempty (its : list (str * str)) (l : list str) :
  Forall2 quoted_item its l -> l <> [] -> join [38] l <> [].
Proof.
  intros F N. destruct F as [|kv item its l (k & v & _ & _ & ->) F];
    [contradiction|].
  destruct l as [|item' l'];
    [cbn [join]
    |change (join [38] ((k ++ 61 :: v) :: item' :: l'))
       with ((k ++ 61 :: v) ++ 38 :: join [38] (item' :: l'))];
    destruct k; discriminate.
Qed.

Lemma parse_joined (its : list (str * str)) (l : list str) :
  Forall2 quoted_item its l ->
  Forall2 (fun kv pair =>
             encode (fst kv) = Some (fst pair)
             /\ encode (snd kv) = Some (snd pair))
    its (parse (join [38] l)).
Proof.
  intros F. destruct l as [|item l].
  { inversion F; subst. constructor. }
  pose proof (joined_nonempty its (item :: l) F ltac:(discriminate)) as N.
  unfold parse. destruct (join [38] (item :: l)) as [|c q] eqn:J;
    [contradiction|]. rewrite <- J. clear J N.
  rewrite split_join; [|discriminate|].
  2:{ clear -F. induction F as [|kv i ? ? Q _ IH]; constructor; [|exact IH].
      exact (proj1 (quoted_item_parts kv i Q)). }
  induction F as [|kv i its' l' (k & v & K & V & ->) _ IH]; cbn [map];
    constructor; [|exact IH].
  pose proof (quoted_no 61 _ eq_refl (quote_plus_chars _ _ K)) as Nk.
  pose proof (quoted_no 61 _ eq_refl (quote_plus_chars _ _ V)) as Nv.
  assert (S : split 61 (k ++ 61 :: v) = [k; v])
    by (apply MainFacts.split_two; auto).
  unfold str, bytes in *. rewrite S. cbn [fst snd].
  split; apply quote_plus_unquote; assumption.
Qed.

End QueryFacts.

Section QueryString.

Variable repr : json -> str.

(** X14.  The query string [to_query_string] returns is made only of
    characters that never need escaping and of [%], [+], [=] and [&];
    it has one [=] for each entry of [params] that is not [None] and one
    [&] between two such entries, whatever the keys and values hold. *)
Theorem to_query_string_shape (params : dict json) (q : str) :
  Utils.to_query_string repr params = Ok q ->
  forallb Query.query_char q = true
  /\ count_occ Z.eq_dec q 61
     = List.length (Utils.filtered_params params)
  /\ count_occ Z.eq_dec q 38
     = pred (List.length (Utils.filtered_params params)).
Proof.
  unfold Utils.to_query_string, Utils.urlencode.
  destruct (Utils.quote_items _) as [l|] eqn:E; [|discriminate].
  intros [= <-]. apply QueryFacts.quote_items_spec in E.
  rewrite <- (length_map (fun kv => (fst kv, Utils.str_ repr (snd kv)))
                (Utils.filtered_params params)).
  exact (QueryFacts.joined_shape _ _ E).
Qed.

(** X15.  [to_query_string] loses nothing but the entries that are
    [None]: two dicts that give the same query string have the same keys
    with the same texts of their values, in the same order. *)
Theorem to_query_string_injective (params1 params2 : dict json) (q : str) :
  Utils.to_query_string repr params1 = Ok q ->
  Utils.to_query_string repr params2 = Ok q ->
  Query.items repr params1 = Query.items repr params2.
Proof.
  unfold Utils.to_query_string, Utils.urlencode. fold (Query.items repr params1).
  fold (Query.items repr params2).
  destruct (Utils.quote_items (Query.items repr params1)) as [l1|] eqn:E1;
    [|discriminate].
  destruct (Utils.quote_items (Query.items repr params2)) as [l2|] eqn:E2;
    [|discriminate].
  intros [= Q1] [= Q2].
  assert (P : forall its l, Utils.quote_items its = Ok l ->
                Forall (fun p => ~ In 38 p /\ In 61 p) l).
  { intros its l E. apply QueryFacts.quote_items_spec in E.
    induction E as [|kv item ? ? Q _ IH]; constructor; [|exact IH].
    destruct (QueryFacts.quoted_item_parts kv item Q) as (A & B & _). auto. }
  assert (L : l1 = l2).
  { apply QueryFacts.join_items_inj; [apply (P _ _ E1)|apply (P _ _ E2)|].
    rewrite Q1, Q2. reflexivity. }
  subst l2. exact (QueryFacts.quote_items_inj _ _ l1 E1 E2).
Qed.

(** X16.  A query string reads back: cut at each [&] and at the [=] of
    each piece, and unquoted, it gives the UTF-8 bytes of every key that
    is not [None] and of the text of its value, in the order of the
    dict. *)
Theorem query_string_reads_back (params : dict json) (q : str) :
  Utils.to_query_string repr params = Ok q ->
  Forall2 (fun kv pair =>
             encode (fst kv) = Some (fst pair)
             /\ encode (snd kv) = Some (snd pair))
    (Query.items repr params) (Query.parse q).
Proof.
  unfold Utils.to_query_string, Utils.urlencode.
  fold (Query.items repr params).
  destruct (Utils.quote_items _) as [l|] eqn:E; [|discriminate].
  intros [= <-]. apply QueryFacts.parse_joined.
  exact (QueryFacts.quote_items_spec _ _ E).
Qed.

End QueryString.

Lemma to_query_string_shape_witness :
  let params := [(lit "b", JBool true); (lit "n", JNull);
                 (lit "c", JStr (lit "x y&z=1"))] in
  let q := lit "b=true&c=x+y%26z%3D1" in
  Utils.to_query_string (fun _ => []) params = Ok q
  /\ forallb Query.query_char q = true
  /\ count_occ Z.eq_dec q 61 = 2%nat
  /\ count_occ Z.eq_dec q 38 = 1%nat.
Proof.
  intros params q. split; [reflexivity|].
  exact (to_query_string_shape (fun _ => []) params q eq_refl).
Defined.

Lemma to_query_string_injective_witness :
  let params1 := [(lit "b", JBool true); (lit "n", JNull); (lit "c", JInt 7)] in
  let params2 := [(lit "b", JStr (lit "true")); (lit "c", JStr (lit "7"))] in
  Query.items (fun _ => []) params1 = Query.items (fun _ => []) params2.
Proof.
  intros params1 params2.
  exact (to_query_string_injective (fun _ => []) params1 params2
           (lit "b=true&c=7") eq_refl eq_refl).
Defined.

Lemma query_string_reads_back_witness :
  let params := [(lit "b", JBool true); (lit "n", JNull);
                 (lit "c", JStr (lit "x y&z=1"))] in
  let q := lit "b=true&c=x+y%26z%3D1" in
  Forall2 (fun kv pair =>
             encode (fst kv) = Some (fst pair)
             /\ encode (snd kv) = Some (snd pair))
    (Query.items (fun _ => []) params) (Query.parse q).
Proof.
  intros params q.
  exact (query_string_reads_back (fun _ => []) params q eq_refl).
Defined.

Module ApiErrorFacts.
Import Utils ApiError.

Lemma join_items_strs (ds : list str) (i : Z) :
  join_items i (map JStr ds) = Ok ds.
Proof.
  revert i. induction ds as [|d ds IH]; intros i; cbn [map join_items];
    [reflexivity|]. rewrite IH. reflexivity.
Qed.

Lemma join_items_ok (l : list json) :
  forall i, forallb is_str l = true -> exists ds, join_items i l = Ok ds.
Proof.
  induction l as [|v l IH]; intros i F; [exists []; reflexivity|].
  cbn [forallb] in F. apply andb_true_iff in F. destruct F as [S F].
  destruct v; try discriminate. cbn [join_items].
  destruct (IH (i + 1) F) as [ds ->]. eexists; reflexivity.
Qed.

Lemma join_items_raised (l : list json) :
  forall i, forallb is_str l = false ->
            exists msg, join_items i l = Raised (TypeError msg).
Proof.
  induction l as [|v l IH]; intros i F; [discriminate|].
  cbn [forallb] in F.
  destruct v; cbn [join_items]; try (eexists; reflexivity).
  cbn [is_str andb] in F. destruct (IH (i + 1) F) as [msg ->].
  eexists; reflexivity.
Qed.

(** The descriptions collected are the true descriptions of the details;
    there are none to collect when a detail is not a dict. *)
Lemma detail_descriptions_dicts (details : list json) :
  forallb is_dict details = true ->
  exists l, detail_descriptions details = Some l
            /\ forall v, In v l
                         <-> exists d, In d details /\ true_description d v.
Proof.
  induction details as [|d details IH]; intros F.
  - exists []. split; [reflexivity|]. intros v. split; [contradiction|].
    intros (d & [] & _).
  - cbn [forallb] in F. apply andb_true_iff in F. destruct F as [D F].
    destruct d as [| | | | | |detail]; try discriminate.
    destruct (IH F) as (l & E & I). cbn [detail_descriptions]. rewrite E.
    destruct (get detail (lit "description")) as [w|] eqn:G.
    + destruct (truthy w) eqn:T; eexists; (split; [reflexivity|]);
        intros v; split.
      * intros [<-|Hv].
        -- exists (JObj detail). split; [left; reflexivity|].
           exists detail. auto.
        -- apply I in Hv. destruct Hv as (d & Hd & Td).
           exists d. split; [right; exact Hd|exact Td].
      * intros (d & [<-|Hd] & Td).
        -- destruct Td as (o & [= <-] & G' & _). rewrite G in G'.
           injection G' as ->. left; reflexivity.
        -- right. apply I. exists d. auto.
      * intros Hv. apply I in Hv. destruct Hv as (d & Hd & Td).
        exists d. split; [right; exact Hd|exact Td].
      * intros (d & [<-|Hd] & Td).
        -- destruct Td as (o & [= <-] & G' & T'). rewrite G in G'.
           injection G' as ->. rewrite T in T'. discriminate.
        -- apply I. exists d. auto.
    + exists l. split; [reflexivity|]. intros v. split.
      * intros Hv. apply I in Hv. destruct Hv as (d & Hd & Td).
        exists d. split; [right; exact Hd|exact Td].
      * intros (d & [<-|Hd] & Td).
        -- destruct Td as (o & [= <-] & G' & _). rewrite G in G'.
           discriminate.
        -- apply I. exists d. auto.
Qed.

Lemma detail_descriptions_not_dicts (details : list json) :
  forallb is_dict details = false -> detail_descriptions details = None.
Proof.
  induction details as [|d details IH]; intros F; [discriminate|].
  cbn [forallb] in F.
  destruct d; try reflexivity. cbn [is_dict andb] in F.
  cbn [detail_descriptions]. rewrite (IH F). reflexivity.
Qed.

Lemma detail_descriptions_plain (details : list json) :
  forallb plain_detail details = true ->
  detail_descriptions details = Some (map JStr (descriptions details)).
Proof.
  induction details as [|d details IH]; intros F; [reflexivity|].
  cbn [forallb] in F. apply andb_true_iff in F. destruct F as [P F].
  destruct d as [| | | | | |detail]; try discriminate.
  cbn [detail_descriptions descriptions flat_map]. rewrite (IH F).
  unfold plain_detail in P.
  destruct (get detail (lit "description")) as [w|]; [|reflexivity].
  destruct w as [|b|n|f|[|c s]|l|o]; cbn [truthy negb orb is_str] in *;
    try reflexivity;
    match goal with
    | |- context [if ?c then _ else _] => destruct c
    end; try discriminate; reflexivity.
Qed.

Lemma forallb_false_In {A} (f : A -> bool) (l : list A) :
  forallb f l = false <-> exists x, In x l /\ f x = false.
Proof.
  induction l as [|a l IH]; cbn [forallb].
  - split; [discriminate|intros (x & [] & _)].
  - rewrite andb_false_iff, IH. split.
    + intros [F|(x & I & F)]; [exists a; auto with datatypes|].
      exists x; auto with datatypes.
    + intros (x & [<-|I] & F); [left; exact F|right; exists x; auto].
Qed.

End ApiErrorFacts.

(** X17.  For an error response as PayPal sends it, a JSON object whose
    message is a [str] or missing and whose details are objects with
    [str] descriptions, [handle_api_error] returns the status code, the
    body unchanged as the details, and as the message the message of the
    body, or [Unknown error], followed by [: ] and the non-empty
    descriptions joined by [; ], or by nothing when there are none. *)
Theorem api_error_described (error : Utils.RequestException)
    (r : Utils.Response) (error_data : dict json) (m : str) :
  Utils.response error = Some r ->
  Utils.json_ r = Some (JObj error_data) ->
  Utils.message_of error_data = JStr m ->
  forallb ApiError.plain_detail (ApiError.details_of error_data) = true ->
  Utils.handle_api_error error
  = Ok (Utils.described r
          (JStr (m ++ ApiError.suffix
                        (ApiError.descriptions
                           (ApiError.details_of error_data))))
          (JObj error_data)).
Proof.
  intros R J M P. unfold Utils.handle_api_error. rewrite R, J, M.
  unfold ApiError.details_of in *.
  destruct (get error_data (lit "details")) as [[| | | | |details|]|];
    cbn [ApiError.descriptions flat_map ApiError.suffix];
    rewrite ?app_nil_r; try reflexivity.
  rewrite (ApiErrorFacts.detail_descriptions_plain details P).
  destruct (ApiError.descriptions details) as [|d ds];
    cbn [map ApiError.suffix]; [rewrite app_nil_r; reflexivity|].
  change (JStr d :: map JStr ds) with (map JStr (d :: ds)).
  rewrite ApiErrorFacts.join_items_strs. reflexivity.
Qed.

Lemma api_error_described_witness :
  let error_data :=
    [(lit "name", JStr (lit "INVALID_REQUEST"));
     (lit "message", JStr (lit "Request is not well-formed"));
     (lit "details",
      JList [JObj [(lit "field", JStr (lit "/amount"));
                   (lit "description", JStr (lit "Amount is missing"))];
             JObj [(lit "issue", JStr (lit "MISSING"))];
             JObj [(lit "description", JStr (lit "Currency is missing"))]])] in
  let r := {| Utils.status_code := 400; Utils.json_ := Some (JObj error_data);
              Utils.text := [] |} in
  Utils.handle_api_error {| Utils.response := Some r; Utils.shown := [] |}
  = Ok (Utils.described r
          (JStr (lit "Request is not well-formed: Amount is missing; Currency is missing"))
          (JObj error_data)).
Proof.
  intros error_data r.
  exact (api_error_described {| Utils.response := Some r; Utils.shown := [] |}
           r error_data (lit "Request is not well-formed")
           eq_refl eq_refl eq_refl eq_refl).
Defined.

(** X18.  When the message of the body is a list and a detail has a
    description, [handle_api_error] extends that list in place by the
    characters of [: ] and of the joined descriptions: the details it
    returns are not the body received, they hold the extended list as
    their message. *)
Theorem api_error_list_message (error : Utils.RequestException)
    (r : Utils.Response) (error_data : dict json) (items : list json) :
  Utils.response error = Some r ->
  Utils.json_ r = Some (JObj error_data) ->
  get error_data (lit "message") = Some (JList items) ->
  forallb ApiError.plain_detail (ApiError.details_of error_data) = true ->
  ApiError.descriptions (ApiError.details_of error_data) <> [] ->
  let extended :=
    JList (items
           ++ map (fun c => JStr [c])
                (ApiError.suffix
                   (ApiError.descriptions (ApiError.details_of error_data)))) in
  Utils.handle_api_error error
  = Ok (Utils.described r extended
          (JObj (set error_data (lit "message") extended)))
  /\ set error_data (lit "message") extended <> error_data.
Proof.
  intros R J M P N extended. subst extended. split.
  - unfold Utils.handle_api_error, Utils.message_of. rewrite R, J, M.
    unfold ApiError.details_of in *.
    destruct (get error_data (lit "details")) as [[| | | | |details|]|];
      try (exfalso; apply N; reflexivity).
    rewrite (ApiErrorFacts.detail_descriptions_plain details P).
    destruct (ApiError.descriptions details) as [|d ds]; [contradiction|].
    change (map JStr (d :: ds)) with (JStr d :: map JStr ds).
    cbv iota. change (JStr d :: map JStr ds) with (map JStr (d :: ds)).
    rewrite ApiErrorFacts.join_items_strs. reflexivity.
  - intros E. pose proof (DictFacts.get_set_same error_data (lit "message")) as S.
    specialize (S (JList (items ++ map (fun c => JStr [c])
                     (ApiError.suffix
                        (ApiError.descriptions
                           (ApiError.details_of error_data)))))).
    rewrite E, M in S. injection S as S.
    rewrite <- (app_nil_r items) in S at 1. apply app_inv_head in S.
    destruct (ApiError.descriptions (ApiError.details_of error_data));
      [contradiction|discriminate].
Qed.

Lemma api_error_list_message_witness :
  let error_data :=
    [(lit "message", JList [JStr (lit "a")]);
     (lit "details", JList [JObj [(lit "description", JStr (lit "b"))]])] in
  let r := {| Utils.status_code := 422; Utils.json_ := Some (JObj error_data);
              Utils.text := [] |} in
  let extended := JList [JStr (lit "a"); JStr (lit ":"); JStr (lit " ");
                         JStr (lit "b")] in
  Utils.handle_api_error {| Utils.response := Some r; Utils.shown := [] |}
  = Ok (Utils.described r extended
          (JObj [(lit "message", extended);
                 (lit "details",
                  JList [JObj [(lit "description", JStr (lit "b"))]])]))
  /\ set error_data (lit "message") extended <> error_data.
Proof.
  intros error_data r extended.
  refine (api_error_list_message
            {| Utils.response := Some r; Utils.shown := [] |}
            r error_data [JStr (lit "a")] eq_refl eq_refl eq_refl eq_refl _).
  discriminate.
Defined.

(** X19.  [handle_api_error] raises nothing but [TypeError], and it
    raises exactly when the body of the response is a JSON object whose
    details are a list of objects, one of them with a true description,
    and either a true description is not a [str] or the message of the
    body is neither a [str] nor a list; in every other case it returns. *)
Theorem handle_api_error_raises_iff (error : Utils.RequestException) :
  (forall e, Utils.handle_api_error error = Raised e ->
             exists msg, e = TypeError msg)
  /\ ((exists e, Utils.handle_api_error error = Raised e)
      <-> exists r error_data details,
            Utils.response error = Some r
            /\ Utils.json_ r = Some (JObj error_data)
            /\ get error_data (lit "details") = Some (JList details)
            /\ forallb ApiError.is_dict details = true
            /\ ((exists d v, In d details /\ ApiError.true_description d v
                             /\ ApiError.is_str v = false)
                \/ ((exists d v, In d details
                                 /\ ApiError.true_description d v)
                    /\ match Utils.message_of error_data with
                       | JStr _ | JList _ => False
                       | _ => True
                       end))).
Proof.
  unfold Utils.handle_api_error.
  destruct (Utils.response error) as [r|].
  2:{ split; [discriminate|].
      split; [intros [e E]; discriminate|].
      intros (r & ? & ? & E & _); discriminate. }
  destruct (Utils.json_ r) as [body|] eqn:J.
  2:{ split; [discriminate|].
      split; [intros [e E]; discriminate|].
      intros (r' & ? & ? & [= <-] & E & _). rewrite J in E. discriminate. }
  destruct body as [| | | | | |error_data];
    try (split; [discriminate|];
         split; [intros [e E]; discriminate|];
         intros (r' & ? & ? & [= <-] & E & _); rewrite J in E; discriminate).
  destruct (get error_data (lit "details")) as [dv|] eqn:G.
  2:{ split; [discriminate|].
      split; [intros [e E]; discriminate|].
      intros (r' & data & ? & [= <-] & E & G' & _). rewrite J in E.
      injection E as <-. rewrite G in G'. discriminate. }
  destruct dv as [| | | | |details|];
    try (split; [discriminate|];
         split; [intros [e E]; discriminate|];
         intros (r' & data & ? & [= <-] & E & G' & _); rewrite J in E;
         injection E as <-; rewrite G in G'; discriminate).
  destruct (forallb ApiError.is_dict details) eqn:D.
  2:{ rewrite (ApiErrorFacts.detail_descriptions_not_dicts details D).
      split; [discriminate|].
      split; [intros [e E]; discriminate|].
      intros (r' & data & details' & [= <-] & E & G' & D' & _).
      rewrite J in E. injection E as <-. rewrite G in G'.
      injection G' as <-. rewrite D in D'. discriminate. }
  destruct (ApiErrorFacts.detail_descriptions_dicts details D)
    as (l & -> & I).
  assert (there : forall (Q : dict json -> list json -> Prop),
            (exists r' data details',
                Some r = Some r' /\ Utils.json_ r' = Some (JObj data)
                /\ get data (lit "details") = Some (JList details')
                /\ forallb ApiError.is_dict details' = true
                /\ Q data details')
            <-> Q error_data details).
  { intros Q. split.
    - intros (r' & data & details' & [= <-] & E & G' & _ & q).
      rewrite J in E. injection E as <-. rewrite G in G'.
      injection G' as <-. exact q.
    - intros q. exists r, error_data, details. auto. }
  rewrite (there (fun data details' =>
    (exists d v, In d details' /\ ApiError.true_description d v
                 /\ ApiError.is_str v = false)
    \/ (exists d v, In d details' /\ ApiError.true_description d v)
       /\ match Utils.message_of data with
          | JStr _ | JList _ => False
          | _ => True
          end)).
  clear there.
  destruct l as [|v0 l].
  { split; [discriminate|]. split; [intros [e E]; discriminate|].
    intros [(d & v & Hd & Td & _)|[(d & v & Hd & Td) _]];
      destruct (proj2 (I v) (ex_intro _ d (conj Hd Td))). }
  destruct (forallb ApiError.is_str (v0 :: l)) eqn:S.
  - destruct (ApiErrorFacts.join_items_ok (v0 :: l) 0 S) as [ds ->].
    assert (some : exists d v, In d details /\ ApiError.true_description d v).
    { destruct (proj1 (I v0) (or_introl eq_refl)) as (d & Hd & Td).
      exists d, v0. auto. }
    assert (strs : ~ exists d v, In d details /\ ApiError.true_description d v
                                 /\ ApiError.is_str v = false).
    { intros (d & v & Hd & Td & F).
      pose proof (proj2 (I v) (ex_intro _ d (conj Hd Td))) as Hv.
      rewrite forallb_forall in S. rewrite (S v Hv) in F. discriminate. }
    destruct (Utils.message_of error_data) as [|b|n|f|m|items|o];
      cbn [Utils.iadd];
      try (split; [intros e [= <-]; eexists; reflexivity|];
           split; [intros _; right; split; [exact some|exact Logic.I]|];
           intros _; eexists; reflexivity);
      (split; [discriminate|];
       split; [intros [e E]; discriminate|];
       intros [C|[_ []]]; exfalso; exact (strs C)).
  - destruct (ApiErrorFacts.join_items_raised (v0 :: l) 0 S) as [msg ->].
    split; [intros e [= <-]; exists msg; reflexivity|].
    split; [|intros _; eexists; reflexivity].
    intros _. left.
    apply ApiErrorFacts.forallb_false_In in S. destruct S as (v & Hv & F).
    destruct (proj1 (I v) Hv) as (d & Hd & Td). exists d, v. auto.
Qed.

Lemma handle_api_error_raises_iff_witness :
  exists e,
    Utils.handle_api_error
      {| Utils.response :=
           Some {| Utils.status_code := 400;
                   Utils.json_ :=
                     Some (JObj [(lit "message", JInt 3);
                                 (lit "details",
                                  JList [JObj [(lit "description",
                                                JStr (lit "d"))]])]);
                   Utils.text := [] |};
         Utils.shown := [] |} = Raised e.
Proof.
  apply (proj2 (handle_api_error_raises_iff _)).
  eexists _, _, _. split; [reflexivity|]. split; [reflexivity|].
  split; [reflexivity|]. split; [reflexivity|]. right. split; [|exact I].
  eexists _, (JStr (lit "d")). split; [left; reflexivity|].
  eexists. split; [reflexivity|]. split; reflexivity.
Defined.

(** ** Further properties: the client [main] builds *)

Section MainClient.

Variable upper : str -> str.
Variable functions : str -> dict json -> json -> ApiResult.

(** What [parse_args] returns besides the tools: the first of
    [--access-token] and [PAYPAL_ACCESS_TOKEN] that is not empty, and
    whether the first of [--paypal-environment], [PAYPAL_ENVIRONMENT] and
    [SANDBOX] is not [PRODUCTION] in upper case. *)
Lemma parse_args_context (args : Main.Namespace) (environ : dict str)
    (config : Main.Config) :
  Main.parse_args upper args environ = Ok config ->
  Main.config_access_token config
  = Main.or_else (Main.access_token args)
      (match get environ (lit "PAYPAL_ACCESS_TOKEN") with
       | Some t => t
       | None => []
       end) (fun t => t)
  /\ Main.config_access_token config <> []
  /\ Main.is_sandbox config
     = negb (str_eqb
               (upper
                  (Main.or_else (Main.paypal_environment args)
                     (match get environ (lit "PAYPAL_ENVIRONMENT") with
                      | Some v => v
                      | None => lit "SANDBOX"
                      end) (fun v => v)))
               (lit "PRODUCTION")).
Proof.
  unfold Main.parse_args. cbv zeta.
  destruct (if str_eqb (Main.tools args) (lit "all") then _ else _)
    as [tools|e]; [|discriminate].
  unfold Main.or_else at 1 3.
  destruct (Main.access_token args) as [[|c r]|].
  - destruct (get environ (lit "PAYPAL_ACCESS_TOKEN")) as [[|c r]|];
      try discriminate.
    intros [= <-]. cbn. repeat split. discriminate.
  - intros [= <-]. cbn. repeat split. discriminate.
  - destruct (get environ (lit "PAYPAL_ACCESS_TOKEN")) as [[|c r]|];
      try discriminate.
    intros [= <-]. cbn. repeat split. discriminate.
Qed.

(** X20.  The client [main] builds talks to the live PayPal API only when
    the environment chosen, [--paypal-environment] if given and not
    empty, else [PAYPAL_ENVIRONMENT], else [SANDBOX], is [PRODUCTION]
    once put in upper case; any other text, a misspelt one too, selects
    the sandbox. *)
Theorem main_selects_environment (args : Main.Namespace)
    (environ : dict str) (config : Main.Config) :
  Main.parse_args upper args environ = Ok config ->
  let paypal_env :=
    match Main.paypal_environment args with
    | Some (c :: r) => c :: r
    | _ =>
        match get environ (lit "PAYPAL_ENVIRONMENT") with
        | Some v => v
        | None => lit "SANDBOX"
        end
    end in
  exists configuration,
    Main.main upper functions args environ
    = Main.Serving
        (connect (Transport.init,
                  {| server :=
                       PayPalMcpServer functions
                         (Main.config_access_token config) configuration;
                     calls := [] |}))
    /\ ClientSetup.base_url (get_or_empty (cfg_context configuration))
       = if str_eqb (upper paypal_env) (lit "PRODUCTION")
         then ClientSetup.LIVE_URL else ClientSetup.SANDBOX_URL.
Proof.
  intros P paypal_env.
  destruct (MainFacts.server_config_succeeds upper args environ config P)
    as (actions & _ & S).
  destruct (parse_args_context args environ config P) as (_ & _ & E).
  eexists. split.
  - unfold Main.main. rewrite P, S. reflexivity.
  - cbn [cfg_context get_or_empty]. unfold ClientSetup.base_url.
    cbn [get]. change (str_eqb (lit "sandbox") (lit "sandbox")) with true.
    cbv iota. cbn [truthy]. rewrite E.
    change (Main.or_else _ _ _) with paypal_env.
    destruct (str_eqb (upper paypal_env) (lit "PRODUCTION")); reflexivity.
Qed.

(** X21.  The client [main] builds sends two headers and no more: the
    content type and [Bearer] followed by the access token, which is
    [--access-token] if given and not empty, else [PAYPAL_ACCESS_TOKEN];
    it is never empty. *)
Theorem main_client_headers (args : Main.Namespace) (environ : dict str)
    (config : Main.Config) :
  Main.parse_args upper args environ = Ok config ->
  let token :=
    match Main.access_token args with
    | Some (c :: r) => c :: r
    | _ =>
        match get environ (lit "PAYPAL_ACCESS_TOKEN") with
        | Some t => t
        | None => []
        end
    end in
  exists configuration,
    Main.main upper functions args environ
    = Main.Serving
        (connect (Transport.init,
                  {| server :=
                       PayPalMcpServer functions
                         (Main.config_access_token config) configuration;
                     calls := [] |}))
    /\ ClientSetup.get_headers
         (new_client functions (Main.config_access_token config)
            (get_or_empty (cfg_context configuration)))
       = [(lit "Content-Type", JStr (lit "application/json"));
          (lit "Authorization", JStr (lit "Bearer " ++ token))]
    /\ token <> [].
Proof.
  intros P token.
  destruct (MainFacts.server_config_succeeds upper args environ config P)
    as (actions & _ & S).
  destruct (parse_args_context args environ config P) as (T & N & _).
  change (Main.or_else _ _ _) with token in T.
  eexists. split; [|split].
  - unfold Main.main. rewrite P, S. reflexivity.
  - cbn [cfg_context get_or_empty]. rewrite T. reflexivity.
  - rewrite <- T. exact N.
Qed.

End MainClient.

Lemma main_selects_environment_witness :
  let args :=
    {| Main.tools := lit "all"; Main.access_token := Some (lit "token");
       Main.paypal_environment := None; Main.debug := false |} in
  let environ := [(lit "PAYPAL_ENVIRONMENT", lit "PRODUCTION")] in
  exists configuration,
    Main.main (fun s => s) Examples.unreachable args environ
    = Main.Serving
        (connect (Transport.init,
                  {| server :=
                       PayPalMcpServer Examples.unreachable (lit "token")
                         configuration;
                     calls := [] |}))
    /\ ClientSetup.base_url (get_or_empty (cfg_context configuration))
       = lit "https://api-m.paypal.com".
Proof.
  intros args environ.
  exact (main_selects_environment (fun s => s) Examples.unreachable
           args environ
           {| Main.config_tools := [lit "all"];
              Main.config_access_token := lit "token";
              Main.is_sandbox := false |} eq_refl).
Defined.

Lemma main_client_headers_witness :
  let args :=
    {| Main.tools := lit "all"; Main.access_token := Some [];
       Main.paypal_environment := None; Main.debug := false |} in
  let environ := [(lit "PAYPAL_ACCESS_TOKEN", lit "secret")] in
  exists configuration,
    Main.main (fun s => s) Examples.unreachable args environ
    = Main.Serving
        (connect (Transport.init,
                  {| server :=
                       PayPalMcpServer Examples.unreachable (lit "secret")
                         configuration;
                     calls := [] |}))
    /\ ClientSetup.get_headers
         (new_client Examples.unreachable (lit "secret")
            (get_or_empty (cfg_context configuration)))
       = [(lit "Content-Type", JStr (lit "application/json"));
          (lit "Authorization", JStr (lit "Bearer secret"))]
    /\ lit "secret" <> [].
Proof.
  intros args environ.
  exact (main_client_headers (fun s => s) Examples.unreachable
           args environ
           {| Main.config_tools := [lit "all"];
              Main.config_access_token := lit "secret";
              Main.is_sandbox := true |} eq_refl).
Defined.

(** ** Further properties: the configuration that enables everything *)

Module ActionsFacts.
Import Actions.

Lemma allows_new_product (acc : dict (dict bool)) (product p a : str) :
  contains acc product = false ->
  Main.allows (set acc product []) p a = Main.allows acc p a.
Proof.
  unfold contains, Main.allows. intros C.
  destruct (get acc product) eqn:G; [discriminate|].
  destruct (str_eqb product p) eqn:E.
  - apply PyFacts.str_eqb_eq in E. subst p.
    rewrite DictFacts.get_set_same, G. reflexivity.
  - rewrite DictFacts.get_set_other; [reflexivity|].
    intros ->. rewrite PyFacts.str_eqb_refl in E. discriminate.
Qed.

Lemma allows_set_actions (product : str) (l : dict bool) :
  forallb (fun ae : str * bool => snd ae) l = true ->
  forall acc p a,
    Main.allows (fold_left (set_action product) l acc) p a = true
    <-> (p = product /\ exists e, In (a, e) l) \/ Main.allows acc p a = true.
Proof.
  induction l as [|[a0 e0] l IH]; intros F acc p a; cbn [fold_left].
  - split; [tauto|]. intros [[_ (e & [])]|A]; exact A.
  - cbn [forallb snd] in F. apply andb_true_iff in F. destruct F as [-> F].
    rewrite (IH F). unfold set_action at 1. cbn [fst snd].
    rewrite MainFacts.allows_set. split.
    + intros [[-> (e & I)]|[[-> ->]|A]].
      * left. split; [reflexivity|]. exists e. right. exact I.
      * left. split; [reflexivity|]. exists true. left. reflexivity.
      * right. exact A.
    + intros [[-> (e & [[= -> ->]|I])]|A].
      * right. left. split; reflexivity.
      * left. split; [reflexivity|]. exists e. exact I.
      * right. right. exact A.
Qed.

Lemma allows_add_product (pa : str * dict bool) :
  forallb (fun ae : str * bool => snd ae) (snd pa) = true ->
  forall acc p a,
    Main.allows (add_product acc pa) p a = true
    <-> (p = fst pa /\ exists e, In (a, e) (snd pa))
        \/ Main.allows acc p a = true.
Proof.
  intros F acc p a. unfold add_product. cbv zeta.
  rewrite (allows_set_actions (fst pa) (snd pa) F).
  destruct (contains acc (fst pa)) eqn:C; [reflexivity|].
  rewrite allows_new_product by exact C. reflexivity.
Qed.

Lemma allows_add_products (l : dict (dict bool)) :
  forallb (fun pa : str * dict bool =>
             forallb (fun ae : str * bool => snd ae) (snd pa)) l = true ->
  forall acc p a,
    Main.allows (fold_left add_product l acc) p a = true
    <-> (exists pa e, In (p, pa) l /\ In (a, e) pa)
        \/ Main.allows acc p a = true.
Proof.
  induction l as [|[p0 pa0] l IH]; intros F acc p a; cbn [fold_left].
  - split; [tauto|]. intros [(pa & e & [] & _)|A]; exact A.
  - cbn [forallb] in F. apply andb_true_iff in F. destruct F as [F0 F].
    rewrite (IH F), (allows_add_product (p0, pa0) F0). cbn [fst snd]. split.
    + intros [(pa & e & I & I')|[[-> (e & I)]|A]].
      * left. exists pa, e. split; [right; exact I|exact I'].
      * left. exists pa0, e. split; [left; reflexivity|exact I].
      * right. exact A.
    + intros [(pa & e & [[= -> ->]|I] & I')|A].
      * right. left. split; [reflexivity|]. exists e. exact I'.
      * left. exists pa, e. auto.
      * right. right. exact A.
Qed.

Lemma allows_all_actions (tools : list Tool) :
  forallb flags_true tools = true ->
  forall acc p a,
    Main.allows
      (fold_left (fun all_actions tool =>
                    fold_left add_product (actions tool) all_actions)
         tools acc) p a = true
    <-> (exists t pa e, In t tools /\ In (p, pa) (actions t) /\ In (a, e) pa)
        \/ Main.allows acc p a = true.
Proof.
  induction tools as [|t0 tools IH]; intros F acc p a; cbn [fold_left].
  - split; [tauto|]. intros [(t & pa & e & [] & _)|A]; exact A.
  - cbn [forallb] in F. apply andb_true_iff in F. destruct F as [F0 F].
    rewrite (IH F), (allows_add_products (actions t0) F0). split.
    + intros [(t & pa & e & I & R)|[(pa & e & R)|A]].
      * left. exists t, pa, e. split; [right; exact I|exact R].
      * left. exists t0, pa, e. split; [left; reflexivity|exact R].
      * right. exact A.
    + intros [(t & pa & e & [<-|I] & R)|A].
      * right. left. exists pa, e. exact R.
      * left. exists t, pa, e. auto.
      * right. right. exact A.
Qed.

(** With the actions collected from [tools], a tool of the list is
    allowed as soon as it declares an action. *)
Lemma allowed_has_action (tools : list Tool) (context : option (dict json))
    (t : Tool) :
  forallb flags_true tools = true -> In t tools ->
  _is_tool_allowed t {| cfg_actions := Some (all_actions_of tools);
                        cfg_context := context |}
  = has_action t.
Proof.
  intros F I. apply Bool.eq_iff_eq_true.
  rewrite MainFacts.is_tool_allowed_allows. cbn [cfg_actions get_or_empty].
  unfold has_action. rewrite !existsb_exists. split.
  - intros ([p pa] & Ip & X). exists (p, pa). split; [exact Ip|].
    apply existsb_exists in X. destruct X as (ae & Ia & _). cbn [snd] in *.
    destruct pa; [contradiction|reflexivity].
  - intros ([p pa] & Ip & X). exists (p, pa). split; [exact Ip|].
    cbn [fst snd] in *. destruct pa as [|[a e] pa]; [discriminate|].
    apply existsb_exists. exists (a, e). split; [left; reflexivity|].
    cbn [fst]. unfold all_actions_of. apply (allows_all_actions tools F).
    left. exists t, ((a, e) :: pa), e. split; [exact I|].
    split; [exact Ip|left; reflexivity].
Qed.

Lemma catalog_flags_true (context : dict json) :
  forallb flags_true (get_tools context) = true.
Proof. vm_compute. reflexivity. Qed.

Lemma catalog_has_action (context : dict json) :
  forallb has_action (get_tools context) = true.
Proof. vm_compute. reflexivity. Qed.

Lemma catalog_actions (context : dict json) :
  all_actions_of (get_tools context) = ALL_TOOLS_ENABLED.
Proof. vm_compute. reflexivity. Qed.

End ActionsFacts.

(** X22.  The actions [get_all_actions] collects from a list of tools
    whose flags are all [True] allow every tool of the list that declares
    an action, and no tool that declares none. *)
Theorem all_actions_allow_declared (tools : list Tool)
    (context : option (dict json)) (t : Tool) :
  forallb Actions.flags_true tools = true -> In t tools ->
  _is_tool_allowed t {| cfg_actions := Some (Actions.all_actions_of tools);
                        cfg_context := context |}
  = Actions.has_action t.
Proof.
  intros F I. exact (ActionsFacts.allowed_has_action tools context t F I).
Qed.

Lemma all_actions_allow_declared_witness :
  let silent :=
    {| method := lit "silent"; PayPal.name := lit "Silent";
       PayPal.description := (list_invoices_prompt, []);
       PayPal.parameters := ListInvoicesParameters;
       actions := [(lit "invoices", [])] |} in
  _is_tool_allowed silent
    {| cfg_actions := Some (Actions.all_actions_of (silent :: get_tools []));
       cfg_context := None |}
  = false.
Proof.
  intros silent.
  exact (all_actions_allow_declared (silent :: get_tools []) None silent
           eq_refl (or_introl eq_refl)).
Defined.

(** X23.  A server configured with [ALL_TOOLS_ENABLED] offers every tool
    of the catalog, in the order of the catalog, whatever the context. *)
Theorem all_tools_enabled_offers_catalog
    (functions : str -> dict json -> json -> ApiResult)
    (access_token : str) (context : option (dict json)) :
  let configuration :=
    {| cfg_actions := Some Actions.ALL_TOOLS_ENABLED;
       cfg_context := context |} in
  keys (_tools (PayPalMcpServer functions access_token configuration))
  = map method (catalog functions access_token configuration)
  /\ List.length (keys (_tools (PayPalMcpServer functions access_token
                                  configuration))) = 26%nat.
Proof.
  intros configuration.
  destruct (PayPalFacts.registered functions access_token configuration)
    as (K & _ & _).
  assert (E : enabled_methods functions access_token configuration
              = map method (catalog functions access_token configuration)).
  { unfold enabled_methods. apply (f_equal (map method)). apply MainFacts.filter_all.
    apply forallb_forall. intros t I. unfold catalog in I.
    remember (context_after_client _ _) as c eqn:Ec.
    clear Ec. subst configuration.
    rewrite <- (ActionsFacts.catalog_actions c).
    rewrite (ActionsFacts.allowed_has_action (get_tools c) context t
               (ActionsFacts.catalog_flags_true c) I).
    pose proof (ActionsFacts.catalog_has_action c) as H.
    rewrite forallb_forall in H. exact (H t I). }
  rewrite K, E. split; [reflexivity|]. rewrite length_map. reflexivity.
Qed.

(** ** Further properties: requests that cannot be answered *)

Section Stopped.

Context {D S V : Type} `{BaseModel V}.

#[local] Abbreviation state := (Server.state D S V).

(** Nothing can be sent when no transport is connected or the transport
    is not started: [send] raises and the state is as before. *)
Lemma transport_send_stopped (response : json) (st : state) :
  _transport (server (snd st)) = false \/ _started (fst st) = false ->
  transport_send response st
  = Raise (if _transport (server (snd st))
           then RuntimeError (lit "Transport not started")
           else AttributeError
                  (lit "'NoneType' object has no attribute 'send'")) st.
Proof.
  unfold transport_send, send. destruct st as [t w]. cbn [fst snd].
  destruct (_transport (server w)); [|reflexivity].
  intros [E|E]; [discriminate|]. rewrite E. reflexivity.
Qed.

(** X24.  A request for a registered tool that arrives when the
    transport is stopped, or at a server that was never connected, still
    runs the tool: the handler is called once, with the validated
    parameters; nothing is written, whatever the handler returns or
    raises, and the exception of the failed [send], raised a second time
    by [_send_error], leaves [_handle_message]. *)
Theorem stopped_request_still_runs (members : list (str * json))
    (st : state) (id params args : json) (m : str)
    (entry : ToolEntry D S) (handler : Handler) :
  get members (lit "type") = Some (JStr (lit "request")) ->
  message_get (JObj members) "id" None_ = Some id ->
  message_get (JObj members) "method" None_ = Some (JStr m) ->
  message_get (JObj members) "params" (JObj []) = Some params ->
  get (_tools (server (snd st))) m = Some entry ->
  get (_handlers (server (snd st))) m = Some handler ->
  match get (_validator_models (server (snd st))) m with
  | Some validator_model =>
      exists kwargs dump,
        params = JObj kwargs
        /\ model_validate validator_model kwargs = Model dump
        /\ args = JObj dump
  | None => args = params
  end ->
  _transport (server (snd st)) = false \/ _started (fst st) = false ->
  _handle_message (JObj members) st
  = Raise (if _transport (server (snd st))
           then RuntimeError (lit "Transport not started")
           else AttributeError
                  (lit "'NoneType' object has no attribute 'send'"))
      (fst st, {| server := server (snd st);
                  calls := calls (snd st) ++ [(m, args)] |}).
Proof.
  intros Ty Id Me Pa To Ha Va St.
  unfold _handle_message, message_get. rewrite Ty.
  change (is_str (JStr (lit "request")) "ping") with false.
  change (is_str (JStr (lit "request")) "request") with true. cbv iota.
  unfold _handle_request. rewrite Id, Me, Pa. unfold lookup. rewrite To.
  assert (C : call_handler id m args st
              = Raise (if _transport (server (snd st))
                       then RuntimeError (lit "Transport not started")
                       else AttributeError
                              (lit "'NoneType' object has no attribute 'send'"))
                  (fst st, {| server := server (snd st);
                              calls := calls (snd st) ++ [(m, args)] |})).
  { unfold call_handler. cbv zeta. rewrite Ha.
    assert (St1 : _transport (server (snd (record_call st m args))) = false
                  \/ _started (fst (record_call st m args)) = false)
      by exact St.
    destruct (handler args) as [result|e].
    - rewrite (transport_send_stopped _ _ St1). unfold _send_error.
      rewrite (transport_send_stopped _ _ St1). reflexivity.
    - unfold _send_error.
      rewrite (transport_send_stopped _ _ St1). reflexivity. }
  destruct (get (_validator_models (server (snd st))) m) as [vm|].
  - destruct Va as (kwargs & dump & -> & -> & ->). exact C.
  - subst args. exact C.
Qed.

End Stopped.

Lemma stopped_request_still_runs_witness :
  let st :=
    (with_flags (fst (Examples.session Examples.invoice_server)) false true,
     snd (Examples.session Examples.invoice_server)) in
  _handle_message
    (JObj (Examples.request_members 7 "get_invoice"
             (JObj [(lit "invoice_id", JStr (lit "INV-1"))]))) st
  = Raise (RuntimeError (lit "Transport not started"))
      (fst st,
       {| server := server (snd st);
          calls := [(lit "get_invoice",
                     JObj [(lit "invoice_id", JStr (lit "INV-1"))])] |}).
Proof.
  intros st.
  refine (stopped_request_still_runs
            (Examples.request_members 7 "get_invoice"
               (JObj [(lit "invoice_id", JStr (lit "INV-1"))]))
            st (JInt 7) (JObj [(lit "invoice_id", JStr (lit "INV-1"))])
            (JObj [(lit "invoice_id", JStr (lit "INV-1"))])
            (lit "get_invoice") _ _
            eq_refl eq_refl eq_refl eq_refl eq_refl eq_refl _ _).
  - eexists _, _. split; [reflexivity|]. split; reflexivity.
  - right. reflexivity.
Defined.
